(** * carbon-conversion-lib: deterministic CO2e conversion and factor resolution

    A shallow embedding of the TypeScript sources
      - src/util/math.ts    (roundStable, safeMultiply, safeAdd, safeSum, clamp, ...)
      - src/util/units.ts   (normalizeToKWh, the conversion factors, ...)
      - src/util/hash.ts    (stableStringify, stableEqual, createDigest, ...)
      - src/methods/grid.ts (toCO2eKg, totalCO2eTonnes, ...)
      - src/methods/avoided.ts (avoidedEmissions, totalAvoidedEmissions, ...)
      - src/factors/index.ts (resolveFactor, listFactors, getLatestFactor, ...)
      - src/schema.ts       (the pattern of the dates)
    and the properties stated about them.

    JavaScript numbers are IEEE-754 binary64 values: they are modelled by
    Rocq's primitive floats, whose operations are specified against
    [SpecFloat].  Exceptions are modelled by a result type. *)

From Stdlib Require Import ZArith Bool List String Ascii Lia Permutation Sorted.
From Stdlib Require Import Floats.
Import ListNotations.

#[local] Set Warnings "-inexact-float,-register-all".
#[local] Open Scope Z_scope.

(* ===================================================================== *)
(** * The host language                                                    *)
(* ===================================================================== *)

(** ** Exceptions

    [throw new E(...)] aborts the computation; a function that may throw
    returns a [result]. *)

(** The error values the library throws.  [Error msg] is a plain
    [new Error(msg)]; the other three are the library's own classes
    (src/types/index.ts). *)
Inductive error : Type :=
| Error (message : string)
| UnknownRegionError (region : string)
| NoFactorForDateError (region date : string)
| InvalidUnitError (unit : string).

Inductive result (A : Type) : Type :=
| Ok (a : A)
| Throw (e : error).
Arguments Ok {A} a.
Arguments Throw {A} e.

Definition bind {A B : Type} (r : result A) (k : A -> result B) : result B :=
  match r with
  | Ok a => k a
  | Throw e => Throw e
  end.

Notation "'let*' x ':=' r 'in' k" := (bind r (fun x => k))
  (at level 10, x name, r at level 100, k at level 200).

(** [xs.map(f)] for an [f] that may throw: the first exception escapes. *)
Fixpoint mapM {A B : Type} (f : A -> result B) (xs : list A) : result (list B) :=
  match xs with
  | [] => Ok []
  | x :: xs' =>
      let* y := f x in
      let* ys := mapM f xs' in
      Ok (y :: ys)
  end.

(** ** Numbers and [Math] *)

Module Js.

(** [Number.isFinite(x)] for a number [x]. *)
Definition Number_isFinite (x : float) : bool := is_finite x.

(** The double that is the integer [n] rounded to nearest-even; [szero]
    is the sign given to a zero result. *)
Definition float_of_Z (n : Z) (szero : bool) : float :=
  SF2Prim (binary_normalize prec emax n 0 szero).

(** A finite non-zero double is [(-1)^s * m * 2^e]; with [e < 0] its
    value is the fraction [signed s m / 2^(-e)], otherwise it is an
    integer already. *)
Definition signed (s : bool) (m : positive) : Z := cond_Zopp s (Zpos m).

(** The integer that [Math.floor], [Math.trunc] and [Math.round] return:
    [choose num den] picks it for the fraction [num / den], [den] a
    power of two from 2 on.  A zero result keeps the sign of [x]; a
    number with no fractional bits, a NaN and an infinity are returned
    as they are. *)
Definition integer_part (choose : Z -> Z -> Z) (x : float) : float :=
  match Prim2SF x with
  | S754_finite s m e =>
      if 0 <=? e then x
      else float_of_Z (choose (signed s m) (2 ^ (- e))) s
  | _ => x
  end.

(** [Math.floor]: the greatest integer not above [x]. *)
Definition Math_floor : float -> float :=
  integer_part (fun num den => num / den).

(** [Math.trunc]: the integral part of [x], the digits after the point
    dropped. *)
Definition Math_trunc : float -> float :=
  integer_part (fun num den => Z.quot num den).

(** [Math.round]: the integer nearest to [x], a tie going to the larger
    one (ECMA-262 21.3.2.28: "rounds half towards +Infinity"), that is
    [floor (x + 1/2)] taken exactly. *)
Definition Math_round : float -> float :=
  integer_part (fun num den => (2 * num + den) / (2 * den)).

(** [Math.abs]. *)
Definition Math_abs (x : float) : float := abs x.

(** [Math.max(a, b)] and [Math.min(a, b)] (ECMA-262 21.3.2.24 and
    21.3.2.25): NaN when an argument is NaN; of the two zeros, [+0] is
    the larger. *)
Definition Math_max (a b : float) : float :=
  if is_nan a || is_nan b then nan
  else if (a <? b)%float then b
  else if (b <? a)%float then a
  else if is_zero a && get_sign a then b
  else a.

Definition Math_min (a b : float) : float :=
  if is_nan a || is_nan b then nan
  else if (a <? b)%float then a
  else if (b <? a)%float then b
  else if is_zero a && get_sign a then a
  else b.

(** An optional number in a condition ([if (adjustments?.factor)])
    counts as true unless it is absent, a zero or NaN. *)
Definition truthy_number (x : option float) : option float :=
  match x with
  | Some v => if (v =? 0)%float || is_nan v then None else Some v
  | None => None
  end.

(** [Math.pow(10, decimals)] for a non-negative integer [decimals]: the
    double nearest to [10^decimals].  Up to [decimals = 22] the power is
    a double itself, so the result is exact. *)
Definition Math_pow10 (decimals : nat) : float :=
  float_of_Z (10 ^ Z.of_nat decimals) false.

(** The two conversions between numbers and text that the library calls.
    Their results never decide a property proved below, so they are
    taken as an interface of the engine. *)
Class Engine : Type := {
  (** [x.toString()], the shortest decimal text that reads back as [x] *)
  Number_toString : float -> string;
  (** [parseFloat(s)] *)
  parseFloat : string -> float
}.

(** ** Strings *)

(** [s.toUpperCase()] on ASCII text: the letters [a]..[z] are raised,
    every other character is kept. *)
Definition upper_char (c : ascii) : ascii :=
  let n := nat_of_ascii c in
  if ((97 <=? n) && (n <=? 122))%nat then ascii_of_nat (n - 32) else c.

Fixpoint toUpperCase (s : string) : string :=
  match s with
  | EmptyString => EmptyString
  | String c s' => String (upper_char c) (toUpperCase s')
  end.

(** A string in a condition ([if (s)], [s ? a : b], [!s]) counts as true
    unless it is absent or empty. *)
Definition truthy (s : option string) : option string :=
  match s with
  | Some EmptyString => None
  | other => other
  end.

(** [s.trim()]: the white space and the line terminators at both ends
    removed; of the code units below 256 these are 9 to 13, 32 and 160. *)
Definition is_white_space (c : ascii) : bool :=
  let n := nat_of_ascii c in
  ((9 <=? n) && (n <=? 13) || (n =? 32) || (n =? 160))%nat.

Fixpoint trim_start (s : string) : string :=
  match s with
  | EmptyString => EmptyString
  | String c s' => if is_white_space c then trim_start s' else s
  end.

Fixpoint trim_end (s : string) : string :=
  match s with
  | EmptyString => EmptyString
  | String c s' =>
      match trim_end s' with
      | EmptyString => if is_white_space c then EmptyString else String c EmptyString
      | rest => String c rest
      end
  end.

Definition trim (s : string) : string := trim_end (trim_start s).

(** [s.split('.')]: the pieces of [s] between its dots. *)
Fixpoint split_dot_aux (s : string) (piece : string) : list string :=
  match s with
  | EmptyString => [piece]
  | String c s' =>
      if Ascii.eqb c "."%char then piece :: split_dot_aux s' EmptyString
      else split_dot_aux s' (piece ++ String c EmptyString)
  end.

Definition split_dot (s : string) : list string := split_dot_aux s EmptyString.

(** ** Dates

    A [Date] object is its time value, the milliseconds since
    1970-01-01T00:00:00Z, or [None] for an Invalid Date (time value NaN). *)
Definition Date : Type := option Z.

Definition digit (c : ascii) : option Z :=
  let n := Z.of_nat (nat_of_ascii c) in
  if (48 <=? n) && (n <=? 57) then Some (n - 48) else None.

Definition is_dash (c : ascii) : bool := Ascii.eqb c "-"%char.

(** Days from 1970-01-01 to the first of month [m] of year [y], plus
    [d - 1] (ECMA-262 MakeDay on a proleptic Gregorian calendar). *)
Definition days_from_civil (y m d : Z) : Z :=
  let y' := if m <=? 2 then y - 1 else y in
  let era := y' / 400 in
  let yoe := y' - era * 400 in
  let mp := (m + 9) mod 12 in
  let doy := (153 * mp + 2) / 5 + d - 1 in
  let doe := yoe * 365 + yoe / 4 - yoe / 100 + doy in
  era * 146097 + doe - 719468.

Definition msPerDay : Z := 86400000.

(** [new Date(s)] for the date-only form [YYYY-MM-DD], which is the form
    the schema admits ([/^\d{4}-\d{2}-\d{2}$/]); it denotes midnight UTC.
    A month outside 01..12 or a day outside 01..31 gives an Invalid Date.
    The engine's parser reads other texts too (a year alone, a year and
    a month, a date with a time, and forms of its own); they are outside
    the domain of this function, which makes each of them an Invalid
    Date.  [Schema.iso_date] below is the test of the domain. *)
Definition new_Date (s : string) : Date :=
  match list_ascii_of_string s with
  | [y1; y2; y3; y4; s1; m1; m2; s2; d1; d2] =>
      match digit y1, digit y2, digit y3, digit y4,
            digit m1, digit m2, digit d1, digit d2 with
      | Some a, Some b, Some c, Some d, Some e, Some f, Some g, Some h =>
          let y := 1000 * a + 100 * b + 10 * c + d in
          let m := 10 * e + f in
          let dd := 10 * g + h in
          if is_dash s1 && is_dash s2
             && (1 <=? m) && (m <=? 12) && (1 <=? dd) && (dd <=? 31)
          then Some (days_from_civil y m dd * msPerDay)
          else None
      | _, _, _, _, _, _, _, _ => None
      end
  | _ => None
  end.

(** [a >= b] and [a <= b] on dates compare the time values; a comparison
    with NaN is false. *)
Definition Date_geb (a b : Date) : bool :=
  match a, b with
  | Some x, Some y => y <=? x
  | _, _ => false
  end.

Definition Date_leb (a b : Date) : bool :=
  match a, b with
  | Some x, Some y => x <=? y
  | _, _ => false
  end.

(** [a < b] on dates. *)
Definition Date_ltb (a b : Date) : bool :=
  match a, b with
  | Some x, Some y => x <? y
  | _, _ => false
  end.

(** ** Arrays *)

(** [xs.sort(compareFn)]: stable (ECMA-262 23.1.3.30), here by insertion.
    [compareFn a b] is the sign of the comparator's number, [None] for
    NaN, which the sort takes as zero. *)
Section Sort.
Context {A : Type} (compareFn : A -> A -> option Z).

Definition before_or_equal (a b : A) : bool :=
  match compareFn a b with
  | Some v => v <=? 0
  | None => true
  end.

Fixpoint insert_sorted (a : A) (xs : list A) : list A :=
  match xs with
  | [] => [a]
  | b :: xs' =>
      if before_or_equal a b then a :: b :: xs'
      else b :: insert_sorted a xs'
  end.

Definition Array_sort (xs : list A) : list A :=
  fold_right insert_sorted [] xs.
End Sort.

(** A [Set<string>] is the list of its elements in insertion order;
    [set.add(x)] appends [x] unless it is an element already, and
    [Array.from(set)] is that list. *)
Definition Set_add (set : list string) (x : string) : list string :=
  if existsb (String.eqb x) set then set else set ++ [x].

End Js.

(* ===================================================================== *)
(** * A reference engine                                                   *)
(* ===================================================================== *)

(** The two text conversions as ECMA-262 specifies them, computed on
    exact integers.  The properties below hold for every [Engine]; this
    one serves to run the functions on concrete inputs. *)
Module Ecma262.
Import Js.
#[local] Open Scope string_scope.
#[local] Open Scope Z_scope.

(** The double nearest to [num / den], ties to even, for positive [num]
    and [den]; a zero of the given sign otherwise. *)
Definition nearest_double (negative : bool) (num den : Z) : float :=
  match num, den with
  | Zpos n, Zpos d =>
      SF2Prim (SFdiv prec emax (S754_finite negative n 0) (S754_finite false d 0))
  | _, _ => if negative then neg_zero else zero
  end.

Definition digit_char (d : Z) : ascii := ascii_of_nat (48 + Z.to_nat d).

Fixpoint decimal_digits (fuel : nat) (n : Z) (acc : string) : string :=
  match fuel with
  | O => acc
  | S fuel' =>
      let acc' := String (digit_char (n mod 10)) acc in
      if n <? 10 then acc' else decimal_digits fuel' (n / 10) acc'
  end.

(** The decimal text of a non-negative integer. *)
Definition Z_to_string (n : Z) : string :=
  decimal_digits (S (Z.to_nat (Z.log2 n))) n EmptyString.

Fixpoint zeros (n : nat) : string :=
  match n with
  | O => EmptyString
  | S n' => String "0" (zeros n')
  end.

(** The fraction [num / den] times [10^j]. *)
Definition scale10 (num den j : Z) : Z * Z :=
  if 0 <=? j then (num * 10 ^ j, den) else (num, den * 10 ^ (- j)).

(** The [n] with [10^(n-1) <= num / den < 10^n], from an estimate below
    it. *)
Fixpoint adjust_up (fuel : nat) (num den n : Z) : Z :=
  match fuel with
  | O => n
  | S fuel' =>
      let '(a, b) := scale10 num den (- n) in
      if a <? b then n else adjust_up fuel' num den (n + 1)
  end.

Definition decimal_exponent (num den : Z) : Z :=
  let estimate := (Z.log2 num - Z.log2 den) * 30103 / 100000 in
  adjust_up 8 num den (estimate - 2).

(** The least number of digits [k] such that some [s] of [k] digits has
    [s * 10^(n-k)] read back as [x]; of two such [s] the one nearer the
    value, the even one on a tie.  The result is [(s, n, k)]. *)
Fixpoint shortest (fuel : nat) (x : float) (num den n k : Z) : Z * Z * Z :=
  match fuel with
  | O => (1, n, k)
  | S fuel' =>
      let '(a, b) := scale10 num den (k - n) in
      let lo := a / b in
      let hi := lo + 1 in
      let reads_back s :=
        let '(c, d) := scale10 s 1 (n - k) in
        PrimFloat.Leibniz.eqb (nearest_double false c d) x in
      let twice_rest := 2 * (a - lo * b) in
      let lo_ok := reads_back lo && (1 <=? lo) in
      let hi_ok := reads_back hi in
      let pick_hi :=
        hi_ok && (negb lo_ok || (b <? twice_rest) || ((b =? twice_rest) && Z.even hi)) in
      if pick_hi then
        if hi =? 10 ^ k then (10 ^ (k - 1), n + 1, k) else (hi, n, k)
      else if lo_ok then (lo, n, k)
      else shortest fuel' x num den n (k + 1)
  end.

Definition exponent_text (e : Z) : string :=
  (if e <? 0 then "e-" else "e+") ++ Z_to_string (Z.abs e).

(** ECMA-262 6.1.6.1.20 Number::toString, steps 6 to 10: the text of the
    [k] digits [s] with the decimal point after the [n]-th. *)
Definition format_digits (s n k : Z) : string :=
  let ds := Z_to_string s in
  if (k <=? n) && (n <=? 21) then ds ++ zeros (Z.to_nat (n - k))
  else if (0 <? n) && (n <=? 21) then
    substring 0 (Z.to_nat n) ds ++ "." ++ substring (Z.to_nat n) (Z.to_nat (k - n)) ds
  else if (-6 <? n) && (n <=? 0) then "0." ++ zeros (Z.to_nat (- n)) ++ ds
  else if k =? 1 then ds ++ exponent_text (n - 1)
  else
    substring 0 1 ds ++ "." ++ substring 1 (Z.to_nat (k - 1)) ds ++ exponent_text (n - 1).

(** [x.toString()] *)
Definition Number_toString (x : float) : string :=
  match Prim2SF x with
  | S754_nan => "NaN"
  | S754_zero _ => "0"
  | S754_infinity s => if s then "-Infinity" else "Infinity"
  | S754_finite s m e =>
      let '(num, den) := if 0 <=? e then (Zpos m * 2 ^ e, 1) else (Zpos m, 2 ^ (- e)) in
      let n := decimal_exponent num den in
      let '(digits, n', k) := shortest 17 (abs x) num den n 1 in
      (if s then "-" else "") ++ format_digits digits n' k
  end.

Definition is_space (c : ascii) : bool :=
  let n := nat_of_ascii c in
  (((9 <=? n) && (n <=? 13)) || (n =? 32) || (n =? 160))%nat.

Fixpoint skip_spaces (s : string) : string :=
  match s with
  | String c s' => if is_space c then skip_spaces s' else s
  | EmptyString => s
  end.

(** The digits at the head of [s]: how many, their value on top of
    [value], and the rest of [s]. *)
Fixpoint take_digits (s : string) (count value : Z) : Z * Z * string :=
  match s with
  | String c s' =>
      match digit c with
      | Some d => take_digits s' (count + 1) (10 * value + d)
      | None => (count, value, s)
      end
  | EmptyString => (count, value, s)
  end.

Definition take_sign (s : string) : bool * string :=
  match s with
  | String c s' =>
      if Ascii.eqb c "-"%char then (true, s')
      else if Ascii.eqb c "+"%char then (false, s')
      else (false, s)
  | EmptyString => (false, s)
  end.

(** [parseFloat(s)]: the value of the longest prefix of [s], leading
    blanks skipped, that is a decimal literal; NaN when there is none. *)
Definition parseFloat (s : string) : float :=
  let '(negative, s1) := take_sign (skip_spaces s) in
  if prefix "Infinity" s1 then (if negative then neg_infinity else infinity)
  else
    let '(int_count, int_value, s2) := take_digits s1 0 0 in
    let '(frac_count, mantissa, s3) :=
      match s2 with
      | String c s' =>
          if Ascii.eqb c "."%char then take_digits s' 0 int_value
          else (0, int_value, s2)
      | EmptyString => (0, int_value, s2)
      end in
    if int_count + frac_count =? 0 then nan
    else
      let exponent :=
        match s3 with
        | String c s' =>
            if Ascii.eqb c "e"%char || Ascii.eqb c "E"%char then
              let '(exp_negative, s4) := take_sign s' in
              let '(exp_count, exp_value, _) := take_digits s4 0 0 in
              if exp_count =? 0 then 0
              else if exp_negative then - exp_value else exp_value
            else 0
        | EmptyString => 0
        end in
      let '(num, den) := scale10 mantissa 1 (exponent - frac_count) in
      nearest_double negative num den.

Definition engine : Engine :=
  {| Js.Number_toString := Number_toString; Js.parseFloat := parseFloat |}.

End Ecma262.

(* ===================================================================== *)
(** * src/types/index.ts                                                   *)
(* ===================================================================== *)

(** [type RoundingMode = 'HALF_UP' | 'DOWN' | 'TRUNC'] *)
Inductive RoundingMode : Type := HALF_UP | DOWN | TRUNC.

(** [type Scope = 'operational' | 'marginal' | 'baseline'] *)
Inductive Scope : Type := operational | marginal | baseline.

Definition Scope_eqb (a b : Scope) : bool :=
  match a, b with
  | operational, operational | marginal, marginal | baseline, baseline => true
  | _, _ => false
  end.

(** The string that a [Scope] is at run time. *)
Definition Scope_toString (s : Scope) : string :=
  match s with
  | operational => "operational"
  | marginal => "marginal"
  | baseline => "baseline"
  end.

(** [type GasType = 'CO2e'] *)
Inductive GasType : Type := CO2e.

Module FactorSource.
Record t : Type := {
  name : string;
  url : option string;
  publishedAt : option string;
  note : option string
}.
End FactorSource.

(** [interface Factor] *)
Module Factor.
Record t : Type := {
  id : string;
  region : string;
  scope : Scope;
  gas : GasType;
  valueKgPerKWh : float;
  effectiveFrom : string;
  effectiveTo : option string;
  source : FactorSource.t;
  uncertaintyPct : option float;
  methodology : option string;
  version : string
}.
End Factor.

(** The [rounding] option object: [{ decimals?, mode? }]. *)
Module Rounding.
Record t : Type := {
  decimals : option nat;
  mode : option RoundingMode
}.
End Rounding.

(** [interface AvoidedInput] *)
Module AvoidedInput.
Record t : Type := {
  energy : float;
  inputUnit : string;
  factorKgPerKWh : float;
  rounding : option Rounding.t
}.
End AvoidedInput.

(** [interface AvoidedResult].  The [meta] field (the input unit, the
    rounding option and the clock's timestamp) holds no computed
    quantity and is left out. *)
Module AvoidedResult.
Record t : Type := {
  tCO2e : float;
  kgCO2e : float;
  factorKgPerKWh : float;
  energyKWh : float
}.
End AvoidedResult.

(** [interface UncertaintyBounds] *)
Module UncertaintyBounds.
Record t : Type := {
  plusMinusPct : float;
  lowerTCO2e : float;
  upperTCO2e : float
}.
End UncertaintyBounds.

(** [interface FactorResolutionOptions] *)
Module FactorResolutionOptions.
Record t : Type := {
  region : option string;
  date : option string;
  scope : option Scope;
  overrides : option (list Factor.t)
}.
End FactorResolutionOptions.

(** [interface FactorFilter] *)
Module FactorFilter.
Record t : Type := {
  region : option string;
  scope : option string;
  from : option string;
  to : option string
}.
End FactorFilter.

(** The records of [regionMappings]. *)
Module RegionMapping.
Record t : Type := {
  code : string;
  name : string;
  iso2 : option string;
  iso3 : option string;
  unM49 : option string
}.
End RegionMapping.

(* ===================================================================== *)
(** * src/util/math.ts                                                     *)
(* ===================================================================== *)

Module UtilMath.
Import Js.
#[local] Open Scope float_scope.

(** [roundStable(x, decimals, mode)], for a number of decimals that is
    a non-negative integer (the schema admits 0 to 10).  The [default]
    branch of the [switch] repeats the HALF_UP one. *)
Definition roundStable (x : float) (decimals : nat) (mode : RoundingMode) : float :=
  if negb (Number_isFinite x) then x
  else
    let factor := Math_pow10 decimals in
    let scaled := x * factor in
    let rounded :=
      match mode with
      | HALF_UP => Math_round scaled
      | DOWN => Math_floor scaled
      | TRUNC => Math_trunc scaled
      end in
    rounded / factor.

(** [(parts[1] || '')]: an absent piece and an empty piece both give the
    empty string. *)
Definition second_or_empty (parts : list string) : string :=
  match nth_error parts 1 with
  | Some piece => piece
  | None => EmptyString
  end.

(** [safeMultiply(a, b)] *)
Definition safeMultiply {E : Engine} (a b : float) : float :=
  let product := a * b in
  if Math_abs product <? 1e-10 then
    let aStr := Number_toString a in
    let bStr := Number_toString b in
    let aDecimals := String.length (second_or_empty (split_dot aStr)) in
    let bDecimals := String.length (second_or_empty (split_dot bStr)) in
    let totalDecimals := (aDecimals + bDecimals)%nat in
    if (15 <? totalDecimals)%nat then product
    else product
  else product.

(** [safeAdd(a, b)] *)
Definition safeAdd (a b : float) : float :=
  let sum := a + b in
  let error := if Math_abs b <=? Math_abs a then a - sum + b else b - sum + a in
  sum + error.

(** One turn of the loop of [safeSum] on the pair [(sum, error)]. *)
Definition safeSum_step (state : float * float) (num : float) : float * float :=
  let '(sum, error) := state in
  let y := num - error in
  let t := sum + y in
  (t, (t - sum) - y).

(** [safeSum(numbers)] *)
Definition safeSum (numbers : list float) : float :=
  fst (fold_left safeSum_step numbers (0, 0)).

(** [safeProduct(numbers)] *)
Definition safeProduct {E : Engine} (numbers : list float) : float :=
  match numbers with
  | [] => 1
  | [only] => only
  | first :: rest => fold_left (fun product n => safeMultiply product n) rest first
  end.

(** [approximatelyEqual(a, b, tolerance = 1e-10)] *)
Definition approximatelyEqual (a b tolerance : float) : bool :=
  Math_abs (a - b) <? tolerance.

(** [clamp(value, min, max)] *)
Definition clamp (value min max : float) : float :=
  Math_min (Math_max value min) max.

(** [calculatePercentage(value, total, decimals = 2, mode = 'HALF_UP')] *)
Definition calculatePercentage (value total : float) (decimals : nat) (mode : RoundingMode)
  : float :=
  if total =? 0 then 0
  else
    let percentage := (value / total) * 100 in
    roundStable percentage decimals mode.

(** The object [{ lower, upper, plusMinusPct }] that
    [calculateUncertaintyBounds] returns. *)
Record Bounds : Type := {
  lower : float;
  upper : float;
  plusMinusPct : float
}.

(** [calculateUncertaintyBounds(value, uncertaintyPct, decimals = 6, mode = 'HALF_UP')] *)
Definition calculateUncertaintyBounds (value uncertaintyPct : float)
  (decimals : nat) (mode : RoundingMode) : Bounds :=
  let uncertainty := (value * uncertaintyPct) / 100 in
  let lower := roundStable (value - uncertainty) decimals mode in
  let upper := roundStable (value + uncertainty) decimals mode in
  {| lower := lower; upper := upper; plusMinusPct := uncertaintyPct |}.

End UtilMath.

(* ===================================================================== *)
(** * src/util/units.ts                                                    *)
(* ===================================================================== *)

Module UtilUnits.
#[local] Open Scope float_scope.

Definition kWhToMWh (kWh : float) : float := kWh / 1000.

Definition MWhToKWh (MWh : float) : float := MWh * 1000.

Definition GWhToKWh (GWh : float) : float := GWh * 1000000.

Definition kWhToGWh (kWh : float) : float := kWh / 1000000.

Definition kgToTonnes (kg : float) : float := kg / 1000.

Definition tonnesToKg (tonnes : float) : float := tonnes * 1000.

(** [normalizeToKWh(energy, unit)].  [unit] is typed
    ['kWh' | 'MWh' | 'GWh'], yet the [switch] has a [default] branch that
    throws, reached by an untyped caller: units are strings here. *)
Definition normalizeToKWh (energy : float) (unit : string) : result float :=
  if String.eqb unit "kWh" then Ok energy
  else if String.eqb unit "MWh" then Ok (MWhToKWh energy)
  else if String.eqb unit "GWh" then Ok (GWhToKWh energy)
  else Throw (InvalidUnitError unit).

(** [normalizeToKgCO2e(mass, unit)] *)
Definition normalizeToKgCO2e (mass : float) (unit : string) : result float :=
  if String.eqb unit "kgCO2e" then Ok mass
  else if String.eqb unit "tCO2e" then Ok (tonnesToKg mass)
  else Throw (InvalidUnitError unit).

(** [normalizeToTonnesCO2e(mass, unit)] *)
Definition normalizeToTonnesCO2e (mass : float) (unit : string) : result float :=
  if String.eqb unit "kgCO2e" then Ok (kgToTonnes mass)
  else if String.eqb unit "tCO2e" then Ok mass
  else Throw (InvalidUnitError unit).

(** [getEnergyConversionFactor(unit)] *)
Definition getEnergyConversionFactor (unit : string) : result float :=
  if String.eqb unit "kWh" then Ok 1
  else if String.eqb unit "MWh" then Ok 1000
  else if String.eqb unit "GWh" then Ok 1000000
  else Throw (InvalidUnitError unit).

(** [getMassConversionFactor(unit)] *)
Definition getMassConversionFactor (unit : string) : result float :=
  if String.eqb unit "kgCO2e" then Ok 1
  else if String.eqb unit "tCO2e" then Ok 1000
  else Throw (InvalidUnitError unit).

End UtilUnits.

(* ===================================================================== *)
(** * src/methods/grid.ts                                                  *)
(* ===================================================================== *)

Module MethodsGrid.
Import Js UtilMath UtilUnits.
#[local] Open Scope float_scope.

(** [toCO2eKg(energy, unit, factorKgPerKWh)] *)
Definition toCO2eKg {E : Engine} (energy : float) (unit : string) (factorKgPerKWh : float)
  : result float :=
  if negb (Number_isFinite energy) || negb (Number_isFinite factorKgPerKWh) then
    Throw (Error "Energy and factor must be finite numbers")
  else if energy <? 0 then
    Throw (Error "Energy cannot be negative")
  else if factorKgPerKWh <? 0 then
    Throw (Error "Emission factor cannot be negative")
  else
    let* energyKWh := normalizeToKWh energy unit in
    let co2eKg := safeMultiply energyKWh factorKgPerKWh in
    Ok co2eKg.

(** [toCO2eTonnes(energy, unit, factorKgPerKWh)] *)
Definition toCO2eTonnes {E : Engine} (energy : float) (unit : string) (factorKgPerKWh : float)
  : result float :=
  let* co2eKg := toCO2eKg energy unit factorKgPerKWh in
  Ok (co2eKg / 1000).

(** [toCO2eTonnesRounded(energy, unit, factorKgPerKWh, decimals = 6, roundingMode = 'HALF_UP')] *)
Definition toCO2eTonnesRounded {E : Engine} (energy : float) (unit : string)
  (factorKgPerKWh : float) (decimals : nat) (roundingMode : RoundingMode) : result float :=
  let* co2eTonnes := toCO2eTonnes energy unit factorKgPerKWh in
  Ok (roundStable co2eTonnes decimals roundingMode).

(** [toCO2eKgRounded(energy, unit, factorKgPerKWh, decimals = 6, roundingMode = 'HALF_UP')] *)
Definition toCO2eKgRounded {E : Engine} (energy : float) (unit : string)
  (factorKgPerKWh : float) (decimals : nat) (roundingMode : RoundingMode) : result float :=
  let* co2eKg := toCO2eKg energy unit factorKgPerKWh in
  Ok (roundStable co2eKg decimals roundingMode).

(** The object that [toCO2eWithUncertainty] returns. *)
Record WithUncertainty : Type := {
  baseTCO2e : float;
  lowerTCO2e : float;
  upperTCO2e : float;
  uncertaintyPct : float
}.

(** [toCO2eWithUncertainty(energy, unit, factorKgPerKWh, uncertaintyPct, decimals = 6)];
    the three roundings take the default mode. *)
Definition toCO2eWithUncertainty {E : Engine} (energy : float) (unit : string)
  (factorKgPerKWh : float) (uncertaintyPct : float) (decimals : nat)
  : result WithUncertainty :=
  let* baseTCO2e := toCO2eTonnesRounded energy unit factorKgPerKWh decimals HALF_UP in
  let uncertainty := (baseTCO2e * uncertaintyPct) / 100 in
  let lowerTCO2e := roundStable (baseTCO2e - uncertainty) decimals HALF_UP in
  let upperTCO2e := roundStable (baseTCO2e + uncertainty) decimals HALF_UP in
  Ok {| baseTCO2e := baseTCO2e; lowerTCO2e := lowerTCO2e;
        upperTCO2e := upperTCO2e; uncertaintyPct := uncertaintyPct |}.

(** The entries of a batch: [{ energy, unit, factorKgPerKWh }]. *)
Record GridInput : Type := {
  energy : float;
  unit : string;
  factorKgPerKWh : float
}.

(** [batchToCO2eTonnes(inputs)] *)
Definition batchToCO2eTonnes {E : Engine} (inputs : list GridInput) : result (list float) :=
  mapM (fun input => toCO2eTonnes (energy input) (unit input) (factorKgPerKWh input)) inputs.

(** [totalCO2eTonnes(inputs, decimals = 6, roundingMode = 'HALF_UP')] *)
Definition totalCO2eTonnes {E : Engine} (inputs : list GridInput)
  (decimals : nat) (roundingMode : RoundingMode) : result float :=
  let* individualEmissions := batchToCO2eTonnes inputs in
  let total := fold_left (fun sum emission => sum + emission) individualEmissions 0 in
  Ok (roundStable total decimals roundingMode).

End MethodsGrid.

(* ===================================================================== *)
(** * src/methods/avoided.ts                                               *)
(* ===================================================================== *)

Module MethodsAvoided.
Import Js UtilMath UtilUnits.
#[local] Open Scope float_scope.

(** [rounding?.decimals ?? 6] *)
Definition decimals_or_default (rounding : option Rounding.t) : nat :=
  match rounding with
  | Some r => match Rounding.decimals r with Some d => d | None => 6%nat end
  | None => 6%nat
  end.

(** [rounding?.mode ?? 'HALF_UP'] *)
Definition mode_or_default (rounding : option Rounding.t) : RoundingMode :=
  match rounding with
  | Some r => match Rounding.mode r with Some m => m | None => HALF_UP end
  | None => HALF_UP
  end.

(** [avoidedEmissions(input)] *)
Definition avoidedEmissions {E : Engine} (input : AvoidedInput.t) : result AvoidedResult.t :=
  if negb (Number_isFinite (AvoidedInput.energy input))
     || negb (Number_isFinite (AvoidedInput.factorKgPerKWh input)) then
    Throw (Error "Energy and factor must be finite numbers")
  else if AvoidedInput.energy input <? 0 then
    Throw (Error "Energy cannot be negative")
  else if AvoidedInput.factorKgPerKWh input <? 0 then
    Throw (Error "Emission factor cannot be negative")
  else
    let* energyKWh := normalizeToKWh (AvoidedInput.energy input) (AvoidedInput.inputUnit input) in
    let kgCO2e := safeMultiply energyKWh (AvoidedInput.factorKgPerKWh input) in
    let tCO2e := kgCO2e / 1000 in
    let decimals := decimals_or_default (AvoidedInput.rounding input) in
    let roundingMode := mode_or_default (AvoidedInput.rounding input) in
    let roundedTCO2e := roundStable tCO2e decimals roundingMode in
    let roundedKgCO2e := roundStable kgCO2e decimals roundingMode in
    Ok {| AvoidedResult.tCO2e := roundedTCO2e;
          AvoidedResult.kgCO2e := roundedKgCO2e;
          AvoidedResult.factorKgPerKWh := AvoidedInput.factorKgPerKWh input;
          AvoidedResult.energyKWh := energyKWh |}.

(** [batchAvoidedEmissions(inputs)] *)
Definition batchAvoidedEmissions {E : Engine} (inputs : list AvoidedInput.t)
  : result (list AvoidedResult.t) :=
  mapM (fun input => avoidedEmissions input) inputs.

(** [totalAvoidedEmissions(inputs, rounding?)] *)
Definition totalAvoidedEmissions {E : Engine} (inputs : list AvoidedInput.t)
  (rounding : option Rounding.t) : result AvoidedResult.t :=
  let* individualResults := batchAvoidedEmissions inputs in
  let totalKgCO2e :=
    fold_left (fun sum result => sum + AvoidedResult.kgCO2e result) individualResults 0 in
  let totalTCO2e :=
    fold_left (fun sum result => sum + AvoidedResult.tCO2e result) individualResults 0 in
  let totalEnergyKWh :=
    fold_left (fun sum result => sum + AvoidedResult.energyKWh result) individualResults 0 in
  let weightedFactor :=
    if 0 <? totalEnergyKWh then
      fold_left (fun sum result =>
                   sum + AvoidedResult.factorKgPerKWh result * AvoidedResult.energyKWh result)
                individualResults 0
      / totalEnergyKWh
    else 0 in
  let decimals := decimals_or_default rounding in
  let roundingMode := mode_or_default rounding in
  let roundedTCO2e := roundStable totalTCO2e decimals roundingMode in
  let roundedKgCO2e := roundStable totalKgCO2e decimals roundingMode in
  let roundedFactor := roundStable weightedFactor decimals roundingMode in
  Ok {| AvoidedResult.tCO2e := roundedTCO2e;
        AvoidedResult.kgCO2e := roundedKgCO2e;
        AvoidedResult.factorKgPerKWh := roundedFactor;
        AvoidedResult.energyKWh := totalEnergyKWh |}.

(** An [AvoidedResult] with its optional [uncertainty] field. *)
Record Reported : Type := {
  result_of : AvoidedResult.t;
  uncertainty : option UncertaintyBounds.t
}.

(** The [uncertainty] field built from the bounds. *)
Definition uncertainty_field (bounds : Bounds) : UncertaintyBounds.t :=
  {| UncertaintyBounds.plusMinusPct := plusMinusPct bounds;
     UncertaintyBounds.lowerTCO2e := lower bounds;
     UncertaintyBounds.upperTCO2e := upper bounds |}.

(** [avoidedEmissionsWithUncertainty(input, uncertaintyPct)] *)
Definition avoidedEmissionsWithUncertainty {E : Engine} (input : AvoidedInput.t)
  (uncertaintyPct : float) : result Reported :=
  let* baseResult := avoidedEmissions input in
  let uncertaintyBounds :=
    calculateUncertaintyBounds (AvoidedResult.tCO2e baseResult) uncertaintyPct
      (decimals_or_default (AvoidedInput.rounding input))
      (mode_or_default (AvoidedInput.rounding input)) in
  Ok {| result_of := baseResult; uncertainty := Some (uncertainty_field uncertaintyBounds) |}.

(** The [adjustments] of [avoidedEmissionsWithMethodology]. *)
Record Adjustments : Type := {
  efficiencyFactor : option float;
  degradationFactor : option float;
  adjustmentUncertaintyPct : option float
}.

(** [adjustments?.field]: absent when [adjustments] is. *)
Definition adjustment (field : Adjustments -> option float) (adjustments : option Adjustments)
  : option float :=
  match adjustments with
  | Some a => field a
  | None => None
  end.

(** [adjustedInput.energy = energy] on the copy [{ ...input }]. *)
Definition with_energy (input : AvoidedInput.t) (energy : float) : AvoidedInput.t :=
  {| AvoidedInput.energy := energy;
     AvoidedInput.inputUnit := AvoidedInput.inputUnit input;
     AvoidedInput.factorKgPerKWh := AvoidedInput.factorKgPerKWh input;
     AvoidedInput.rounding := AvoidedInput.rounding input |}.

(** The [meta] field of the result of [avoidedEmissionsWithMethodology]:
    the entries that [avoidedEmissions] wrote from the adjusted input,
    then [methodology] and [adjustments].  The entry [calculatedAt], the
    time of the call, is left out. *)
Module Meta.
Record t : Type := {
  inputUnit : string;
  rounding : option Rounding.t;
  methodology : string;
  adjustments : option Adjustments
}.
End Meta.

(** The result of [avoidedEmissionsWithMethodology]: the four
    quantities and the optional [uncertainty], and the [meta] field. *)
Record WithMethodology : Type := {
  report : Reported;
  meta : Meta.t
}.

(** [avoidedEmissionsWithMethodology(input, methodology, adjustments?)].
    The methodology name and the adjustments as they were passed reach
    the [meta] field only. *)
Definition avoidedEmissionsWithMethodology {E : Engine} (input : AvoidedInput.t)
  (methodology : string) (adjustments : option Adjustments) : result WithMethodology :=
  let adjustedInput := input in
  let adjustedInput :=
    match truthy_number (adjustment efficiencyFactor adjustments) with
    | Some efficiencyFactor =>
        with_energy adjustedInput (AvoidedInput.energy adjustedInput * efficiencyFactor)
    | None => adjustedInput
    end in
  let adjustedInput :=
    match truthy_number (adjustment degradationFactor adjustments) with
    | Some degradationFactor =>
        with_energy adjustedInput (AvoidedInput.energy adjustedInput * degradationFactor)
    | None => adjustedInput
    end in
  let* result := avoidedEmissions adjustedInput in
  let uncertainty :=
    match truthy_number (adjustment adjustmentUncertaintyPct adjustments) with
    | Some uncertaintyPct =>
        let uncertaintyBounds :=
          calculateUncertaintyBounds (AvoidedResult.tCO2e result) uncertaintyPct
            (decimals_or_default (AvoidedInput.rounding input))
            (mode_or_default (AvoidedInput.rounding input)) in
        Some (uncertainty_field uncertaintyBounds)
    | None => None
    end in
  Ok {| report := {| result_of := result; uncertainty := uncertainty |};
        meta :=
          {| Meta.inputUnit := AvoidedInput.inputUnit adjustedInput;
             Meta.rounding := AvoidedInput.rounding adjustedInput;
             Meta.methodology := methodology;
             Meta.adjustments :=
               match adjustments with
               | Some a =>
                   Some {| efficiencyFactor := efficiencyFactor a;
                           degradationFactor := degradationFactor a;
                           adjustmentUncertaintyPct := adjustmentUncertaintyPct a |}
               | None => None
               end |} |}.

End MethodsAvoided.

(* ===================================================================== *)
(** * src/schema.ts                                                        *)
(* ===================================================================== *)

Module Schema.
Import Js.

Definition is_digit (c : ascii) : bool :=
  match digit c with Some _ => true | None => false end.

(** [/^\d{4}-\d{2}-\d{2}$/.test(s)]: the pattern that [FactorSchema]
    puts on [effectiveFrom] and [effectiveTo], and
    [FactorResolutionOptionsSchema] on [date]. *)
Definition iso_date (s : string) : bool :=
  match list_ascii_of_string s with
  | [y1; y2; y3; y4; s1; m1; m2; s2; d1; d2] =>
      is_digit y1 && is_digit y2 && is_digit y3 && is_digit y4 && is_dash s1
      && is_digit m1 && is_digit m2 && is_dash s2 && is_digit d1 && is_digit d2
  | _ => false
  end.

(** The two date patterns of [FactorSchema] on a factor; [effectiveTo]
    is optional. *)
Definition factor_dates (factor : Factor.t) : bool :=
  iso_date (Factor.effectiveFrom factor)
  && match Factor.effectiveTo factor with
     | Some effectiveTo => iso_date effectiveTo
     | None => true
     end.

End Schema.

(* ===================================================================== *)
(** * src/factors/index.ts                                                 *)
(* ===================================================================== *)

Module Factors.
Import Js.
#[local] Open Scope string_scope.

(** The module's two variables, [defaultFactorPack] and [regionMappings].
    A load replaces both; every reader takes the current state. *)
Record Registry : Type := {
  defaultFactorPack : list Factor.t;
  regionMappings : list RegionMapping.t
}.

(** The state before any load: [let defaultFactorPack = []],
    [let regionMappings = []]. *)
Definition empty_registry : Registry :=
  {| defaultFactorPack := []; regionMappings := [] |}.

(** [initializeFactorRegistry(factorPack, regions)], for a pack that
    [validateFactorPack] lets through (it returns the pack itself). *)
Definition initializeFactorRegistry (factorPack : list Factor.t)
  (regions : list RegionMapping.t) (_ : Registry) : Registry :=
  {| defaultFactorPack := factorPack; regionMappings := regions |}.

(** [alias === regionCode] for an optional alias: an absent one equals
    no string. *)
Definition alias_is (alias : option string) (regionCode : string) : bool :=
  match alias with
  | Some a => String.eqb a regionCode
  | None => false
  end.

(** [getRegionInfo(regionCode)] *)
Definition getRegionInfo (reg : Registry) (regionCode : string) : option RegionMapping.t :=
  find (fun region =>
          String.eqb (RegionMapping.code region) regionCode
          || alias_is (RegionMapping.iso2 region) regionCode
          || alias_is (RegionMapping.iso3 region) regionCode
          || alias_is (RegionMapping.unM49 region) regionCode)
       (regionMappings reg).

(** [normalizeRegionCode(regionCode)] *)
Definition normalizeRegionCode (reg : Registry) (regionCode : string) : string :=
  match regionCode with
  | EmptyString => "WORLD"
  | _ =>
      let upperCode := toUpperCase regionCode in
      match getRegionInfo reg upperCode with
      | Some regionInfo => RegionMapping.code regionInfo
      | None => upperCode
      end
  end.

(** The predicate of the two region filters:
    [factor.region === r && factor.scope === scope]. *)
Definition matches (r : string) (scope : Scope) (factor : Factor.t) : bool :=
  String.eqb (Factor.region factor) r && Scope_eqb (Factor.scope factor) scope.

(** The predicate of the date filter:
    [targetDate >= fromDate && targetDate <= toDate]. *)
Definition effective_on (targetDate : Date) (factor : Factor.t) : bool :=
  let fromDate := new_Date (Factor.effectiveFrom factor) in
  let toDate :=
    match truthy (Factor.effectiveTo factor) with
    | Some effectiveTo => new_Date effectiveTo
    | None => new_Date "2099-12-31"
    end in
  Date_geb targetDate fromDate && Date_leb targetDate toDate.

(** The comparator of the sort: [dateB.getTime() - dateA.getTime()],
    NaN when a date is invalid. *)
Definition most_recent_first (a b : Factor.t) : option Z :=
  match new_Date (Factor.effectiveFrom a), new_Date (Factor.effectiveFrom b) with
  | Some dateA, Some dateB => Some (dateB - dateA)
  | _, _ => None
  end.

(** The destructuring of [options] with its defaults:
    [const { region = 'WORLD', date, scope = 'baseline', overrides } = options]
    and [const factorPack = overrides || defaultFactorPack] (an array,
    even an empty one, counts as true). *)
Definition requested_region (options : FactorResolutionOptions.t) : string :=
  match FactorResolutionOptions.region options with Some r => r | None => "WORLD" end.

Definition requested_scope (options : FactorResolutionOptions.t) : Scope :=
  match FactorResolutionOptions.scope options with Some s => s | None => baseline end.

Definition factor_pack (reg : Registry) (options : FactorResolutionOptions.t)
  : list Factor.t :=
  match FactorResolutionOptions.overrides options with
  | Some overrides => overrides
  | None => defaultFactorPack reg
  end.

(** The candidates by region and scope, with the fallback to WORLD:
    the first [filter] and the [if] that may replace its result. *)
Definition region_candidates (factorPack : list Factor.t)
  (normalizedRegion : string) (scope : Scope) : list Factor.t :=
  let candidates := filter (matches normalizedRegion scope) factorPack in
  if (List.length candidates =? 0)%nat && negb (String.eqb normalizedRegion "WORLD") then
    filter (matches "WORLD" scope) factorPack
  else candidates.

(** [resolveFactor(options)].  The result [Ok None] stands for the
    [undefined] that [candidates[0]] would be on an empty array; the
    guards before it leave it unreachable (see [resolveFactor_defined]). *)
Definition resolveFactor (reg : Registry) (options : FactorResolutionOptions.t)
  : result (option Factor.t) :=
  let region := requested_region options in
  let date := FactorResolutionOptions.date options in
  let scope := requested_scope options in
  let factorPack := factor_pack reg options in
  if (List.length factorPack =? 0)%nat then
    Throw (Error "No factors available. Initialize factor registry first.")
  else
    let normalizedRegion := normalizeRegionCode reg region in
    let candidates := region_candidates factorPack normalizedRegion scope in
    if (List.length candidates =? 0)%nat then
      Throw (UnknownRegionError region)
    else
      match truthy date with
      | Some date =>
          let targetDate := new_Date date in
          let candidates := filter (effective_on targetDate) candidates in
          if (List.length candidates =? 0)%nat then
            Throw (NoFactorForDateError region date)
          else
            let candidates := Array_sort most_recent_first candidates in
            Ok (nth_error candidates 0)
      | None => Ok (nth_error candidates 0)
      end.

(** [loadFactorPack(jsonData, regions?)], for data that
    [validateFactorPack] lets through: [regions || []]. *)
Definition loadFactorPack (jsonData : list Factor.t)
  (regions : option (list RegionMapping.t)) (reg : Registry) : Registry :=
  initializeFactorRegistry jsonData
    (match regions with Some regions => regions | None => [] end) reg.

(** The predicate of the date filter of [listFactors]: the range of the
    factor is not wholly before [filter.from] nor wholly after
    [filter.to]. *)
Definition in_window (filter : FactorFilter.t) (factor : Factor.t) : bool :=
  let factorFrom := new_Date (Factor.effectiveFrom factor) in
  let factorTo :=
    match truthy (Factor.effectiveTo factor) with
    | Some effectiveTo => new_Date effectiveTo
    | None => new_Date "2099-12-31"
    end in
  match truthy (FactorFilter.from filter) with
  | Some from => negb (Date_ltb factorTo (new_Date from))
  | None => true
  end
  && match truthy (FactorFilter.to filter) with
     | Some to => negb (Date_ltb (new_Date to) factorFrom)
     | None => true
     end.

(** [listFactors(filter?)] *)
Definition listFactors (reg : Registry) (filter : option FactorFilter.t) : list Factor.t :=
  let factors := defaultFactorPack reg in
  match filter with
  | None => factors
  | Some filter =>
      let factors :=
        match truthy (FactorFilter.region filter) with
        | Some region =>
            let normalizedRegion := normalizeRegionCode reg region in
            List.filter (fun factor => String.eqb (Factor.region factor) normalizedRegion)
                        factors
        | None => factors
        end in
      let factors :=
        match truthy (FactorFilter.scope filter) with
        | Some scope =>
            List.filter (fun factor => String.eqb (Scope_toString (Factor.scope factor)) scope)
                        factors
        | None => factors
        end in
      match truthy (FactorFilter.from filter), truthy (FactorFilter.to filter) with
      | None, None => factors
      | _, _ => List.filter (in_window filter) factors
      end
  end.

(** [isRegionSupported(region)]; nothing in the [try] block throws. *)
Definition isRegionSupported (reg : Registry) (region : string) : bool :=
  let normalizedRegion := normalizeRegionCode reg region in
  existsb (fun factor => String.eqb (Factor.region factor) normalizedRegion)
          (defaultFactorPack reg).

(** [getFactorById(id)]; [None] is [null]. *)
Definition getFactorById (reg : Registry) (id : string) : option Factor.t :=
  find (fun factor => String.eqb (Factor.id factor) id) (defaultFactorPack reg).

(** [getFactorsByRegionAndScope(region, scope)] *)
Definition getFactorsByRegionAndScope (reg : Registry) (region scope : string)
  : list Factor.t :=
  let normalizedRegion := normalizeRegionCode reg region in
  List.filter (fun factor =>
                 String.eqb (Factor.region factor) normalizedRegion
                 && String.eqb (Scope_toString (Factor.scope factor)) scope)
              (defaultFactorPack reg).

(** [getLatestFactor(region, scope)]; [None] is [null]. *)
Definition getLatestFactor (reg : Registry) (region scope : string) : option Factor.t :=
  let factors := getFactorsByRegionAndScope reg region scope in
  if (List.length factors =? 0)%nat then None
  else
    let factors := Array_sort most_recent_first factors in
    nth_error factors 0.

End Factors.

(* ===================================================================== *)
(** * src/index.ts: the embedded default data                              *)
(* ===================================================================== *)

Module Defaults.
#[local] Open Scope string_scope.

Definition demo_source (name : string) (note : option string) : FactorSource.t :=
  {| FactorSource.name := name; FactorSource.url := None;
     FactorSource.publishedAt := None; FactorSource.note := note |}.

Definition baseline_2024 (id region : string) (value : float) (src : FactorSource.t)
  : Factor.t :=
  {| Factor.id := id; Factor.region := region; Factor.scope := baseline;
     Factor.gas := CO2e; Factor.valueKgPerKWh := value;
     Factor.effectiveFrom := "2024-01-01"; Factor.effectiveTo := None;
     Factor.source := src; Factor.uncertaintyPct := None;
     Factor.methodology := None; Factor.version := "v1" |}.

Definition WORLD_DEFAULT_2024 : Factor.t :=
  baseline_2024 "WORLD-DEFAULT-2024" "WORLD" 0.82
    (demo_source "Demo Default" (Some "Coal-heavy illustrative baseline")).

Definition IN_2024_BASELINE : Factor.t :=
  baseline_2024 "IN-2024-BASELINE" "IN" 0.708
    (demo_source "Illustrative India factor (demo)"
       (Some "Replace with official source in production")).

Definition US_2024_BASELINE : Factor.t :=
  baseline_2024 "US-2024-BASELINE" "US" 0.386
    (demo_source "Illustrative US avg (demo)" None).

Definition EU_2024_BASELINE : Factor.t :=
  baseline_2024 "EU-2024-BASELINE" "EU" 0.255
    (demo_source "Illustrative EU avg (demo)" None).

Definition defaultFactors : list Factor.t :=
  [WORLD_DEFAULT_2024; IN_2024_BASELINE; US_2024_BASELINE; EU_2024_BASELINE].

Definition mapping (code name : string) (iso2 iso3 unM49 : option string)
  : RegionMapping.t :=
  {| RegionMapping.code := code; RegionMapping.name := name;
     RegionMapping.iso2 := iso2; RegionMapping.iso3 := iso3;
     RegionMapping.unM49 := unM49 |}.

Definition defaultRegions : list RegionMapping.t :=
  [ mapping "WORLD" "World" None None None;
    mapping "IN" "India" (Some "IN") (Some "IND") (Some "356");
    mapping "US" "United States" (Some "US") (Some "USA") (Some "840");
    mapping "EU" "European Union" None None None ].

(** The registry once the module has run
    [loadFactorPack(defaultFactors, defaultRegions)]. *)
Definition loaded : Factors.Registry :=
  Factors.initializeFactorRegistry defaultFactors defaultRegions Factors.empty_registry.

(** The options object [{ region, scope, date }] of a call on the
    registry, without overrides. *)
Definition query (region : string) (scope : Scope) (date : option string)
  : FactorResolutionOptions.t :=
  {| FactorResolutionOptions.region := Some region;
     FactorResolutionOptions.date := date;
     FactorResolutionOptions.scope := Some scope;
     FactorResolutionOptions.overrides := None |}.

End Defaults.

(* ===================================================================== *)
(** * src/util/hash.ts                                                     *)
(* ===================================================================== *)

Module UtilHash.
Import Js.
#[local] Open Scope string_scope.

(** The structured data handed to the serializer: scalars, arrays and
    plain objects.  An object is the list of its own enumerable
    properties in the order they were created; its keys are pairwise
    distinct (see [wf]). *)
Inductive value : Type :=
| VUndefined
| VNull
| VBoolean (b : bool)
| VNumber (n : float)
| VString (s : string)
| VArray (items : list value)
| VObject (props : list (string * value)).

(** *** Property order

    ECMA-262 10.1.11 OrdinaryOwnPropertyKeys: the keys that are array
    indices come first, in ascending numeric order, then the other string
    keys in the order of their creation.  [Object.keys] and
    [JSON.stringify] both enumerate in this order. *)

Fixpoint digits_value (acc : N) (cs : list ascii) : option N :=
  match cs with
  | [] => Some acc
  | c :: cs' =>
      match digit c with
      | Some d => digits_value (10 * acc + Z.to_N d)%N cs'
      | None => None
      end
  end.

(** An array index is the canonical decimal text of an integer between
    [0] and [2^32 - 2]: no sign, no leading zero. *)
Definition array_index (key : string) : option N :=
  match list_ascii_of_string key with
  | [] => None
  | c :: cs =>
      if Ascii.eqb c "0"%char && negb (List.length cs =? 0)%nat then None
      else
        match digits_value 0 (c :: cs) with
        | Some n => if (n <=? 4294967294)%N then Some n else None
        | None => None
        end
  end.

Definition is_array_index (key : string) : bool :=
  match array_index key with Some _ => true | None => false end.

Definition index_order (a b : string) : option Z :=
  match array_index a, array_index b with
  | Some m, Some n => Some (Z.of_N m - Z.of_N n)
  | _, _ => None
  end.

(** The own keys of an object, in enumeration order. *)
Definition own_keys (props : list (string * value)) : list string :=
  let keys := map fst props in
  Array_sort index_order (filter is_array_index keys)
  ++ filter (fun key => negb (is_array_index key)) keys.

(** [Object.keys(obj)] *)
Definition Object_keys (props : list (string * value)) : list string :=
  own_keys props.

(** [obj[key]] on an object: the value of the property, [undefined]
    when there is none. *)
Fixpoint get (props : list (string * value)) (key : string) : value :=
  match props with
  | [] => VUndefined
  | (k, v) :: props' => if String.eqb k key then v else get props' key
  end.

(** [obj[key] = v] on a plain object: the property is overwritten where
    it is, or created last.  The key [__proto__] reaches the setter
    inherited from [Object.prototype] instead, which creates no own
    property. *)
Fixpoint put (props : list (string * value)) (key : string) (v : value)
  : list (string * value) :=
  match props with
  | [] => [(key, v)]
  | (k, w) :: props' =>
      if String.eqb k key then (k, v) :: props' else (k, w) :: put props' key v
  end.

Definition set (props : list (string * value)) (key : string) (v : value)
  : list (string * value) :=
  if String.eqb key "__proto__" then props else put props key v.

(** [keys.sort()]: with no comparator, strings are ordered by their code
    units. *)
Definition code_unit_order (a b : string) : option Z :=
  Some match String.compare a b with Lt => -1 | Eq => 0 | Gt => 1 end.

(** [str.replace(/0+$/, '')]: the trailing zeros dropped. *)
Fixpoint strip_trailing_zeros (s : string) : string :=
  match s with
  | EmptyString => EmptyString
  | String c s' =>
      match strip_trailing_zeros s' with
      | EmptyString => if Ascii.eqb c "0"%char then EmptyString else String c EmptyString
      | rest => String c rest
      end
  end.

(** [formatNumber(num, maxDecimals)] *)
Definition formatNumber {E : Engine} (num : float) (maxDecimals : nat) : float :=
  if negb (Number_isFinite num) then num
  else
    let factor := Math_pow10 maxDecimals in
    let rounded := (Math_round (num * factor) / factor)%float in
    let str := Number_toString rounded in
    let parts := split_dot str in
    if (List.length parts =? 1)%nat then rounded
    else
      let trimmedDecimal := strip_trailing_zeros (nth 1 parts "") in
      match trimmedDecimal with
      | EmptyString => parseFloat (nth 0 parts "")
      | _ => parseFloat (nth 0 parts "" ++ "." ++ trimmedDecimal)
      end.

(** [normalizeObject(obj, maxDecimals)].  The loop
    [for (const key of keys) sortedObj[key] = normalizeObject(obj[key])]
    reads every property once; here the property values are normalized
    first, key by key, and the loop reads the normalized ones. *)
Fixpoint normalizeObject {E : Engine} (obj : value) (maxDecimals : nat) : value :=
  match obj with
  | VNumber n => VNumber (formatNumber n maxDecimals)
  | VArray items => VArray (map (fun item => normalizeObject item maxDecimals) items)
  | VObject props =>
      let normalized :=
        map (fun p => (fst p, normalizeObject (snd p) maxDecimals)) props in
      let keys := Array_sort code_unit_order (Object_keys props) in
      VObject (fold_left (fun sortedObj key => set sortedObj key (get normalized key))
                         keys [])
  | other => other
  end.

(** *** [JSON.stringify] *)

Definition hex_digit (n : nat) : ascii :=
  nth n (list_ascii_of_string "0123456789abcdef") "0"%char.

(** ECMA-262 25.5.2.3 QuoteJSONString, one code unit at a time. *)
Definition quote_char (c : ascii) : string :=
  let n := nat_of_ascii c in
  if (n =? 8)%nat then "\b"
  else if (n =? 9)%nat then "\t"
  else if (n =? 10)%nat then "\n"
  else if (n =? 12)%nat then "\f"
  else if (n =? 13)%nat then "\r"
  else if (n =? 34)%nat then String "\"%char (String c "")
  else if (n =? 92)%nat then "\\"
  else if (n <? 32)%nat then
    "\u00" ++ String (hex_digit (n / 16)) (String (hex_digit (n mod 16)) "")
  else String c "".

Fixpoint quote_chars (s : string) : string :=
  match s with
  | EmptyString => EmptyString
  | String c s' => quote_char c ++ quote_chars s'
  end.

Definition quote (s : string) : string :=
  String (ascii_of_nat 34) (quote_chars s) ++ String (ascii_of_nat 34) "".

(** The members of an object in enumeration order; a property whose
    value does not serialize (it is [undefined]) is skipped. *)
Definition members (keys : list string) (texts : list (string * option string))
  : list string :=
  flat_map (fun key =>
              match find (fun kt => String.eqb (fst kt) key) texts with
              | Some (_, Some text) => [quote key ++ ":" ++ text]
              | _ => []
              end) keys.

(** [JSON.stringify(v)]; [None] is the [undefined] it returns for
    [undefined].  An array element that does not serialize is written
    [null]. *)
Fixpoint JSON_stringify {E : Engine} (v : value) : option string :=
  match v with
  | VUndefined => None
  | VNull => Some "null"
  | VBoolean b => Some (if b then "true" else "false")
  | VNumber n => Some (if Number_isFinite n then Number_toString n else "null")
  | VString s => Some (quote s)
  | VArray items =>
      Some ("[" ++ String.concat ","
                     (map (fun item => match JSON_stringify item with
                                       | Some text => text
                                       | None => "null"
                                       end) items)
                ++ "]")
  | VObject props =>
      Some ("{" ++ String.concat ","
                     (members (own_keys props)
                              (map (fun p => (fst p, JSON_stringify (snd p))) props))
                ++ "}")
  end.

(** [stableStringify(obj, maxDecimals = 6)] *)
Definition stableStringify {E : Engine} (obj : value) (maxDecimals : nat) : option string :=
  let normalized := normalizeObject obj maxDecimals in
  JSON_stringify normalized.

(** [toHashString(obj)] *)
Definition toHashString {E : Engine} (obj : value) : option string :=
  stableStringify obj 6.

(** [a === b] on two results of [stableStringify], each a string or
    [undefined]. *)
Definition strict_equal (a b : option string) : bool :=
  match a, b with
  | Some x, Some y => String.eqb x y
  | None, None => true
  | _, _ => false
  end.

(** [stableEqual(a, b)] *)
Definition stableEqual {E : Engine} (a b : value) : bool :=
  strict_equal (stableStringify a 6) (stableStringify b 6).

(** *** The digest *)

(** An array seen as a record: its elements under the keys ["0"],
    ["1"], ... *)
Fixpoint indexed (from : nat) (items : list value) : list (string * value) :=
  match items with
  | [] => []
  | item :: items' =>
      (Ecma262.Z_to_string (Z.of_nat from), item) :: indexed (S from) items'
  end.

(** The loop of [normalizePayload],
    [for (const key of sortedKeys) normalized[key] = ...payload[key]...],
    reading the property values already treated. *)
Definition rebuilt (payload treated : list (string * value)) : list (string * value) :=
  let sortedKeys := Array_sort code_unit_order (Object_keys payload) in
  fold_left (fun normalized key => set normalized key (get treated key)) sortedKeys [].

(** [treat false v] is what the loop stores for a property value [v].
    [treat true item] is what the callback of [value.map] returns for an
    element [item] of an array: [normalizePayload(item)] when
    [typeof item === 'object' && item !== null], which holds of arrays
    too, and [item] otherwise. *)
Fixpoint treat {E : Engine} (element : bool) (v : value) : value :=
  match v with
  | VNumber n => if element then v else VNumber (formatNumber n 6)
  | VString s => if element then v else VString (trim s)
  | VArray items =>
      if element then
        VObject (rebuilt (indexed 0 items) (indexed 0 (map (treat false) items)))
      else VArray (map (treat true) items)
  | VObject props =>
      VObject (rebuilt props (map (fun p => (fst p, treat false (snd p))) props))
  | other => other
  end.

(** [normalizePayload(payload)] *)
Definition normalizePayload {E : Engine} (payload : list (string * value))
  : list (string * value) :=
  rebuilt payload (map (fun p => (fst p, treat false (snd p))) payload).

(** [createDigest(payload)] *)
Definition createDigest {E : Engine} (payload : list (string * value)) : option string :=
  let normalizedPayload := normalizePayload payload in
  stableStringify (VObject normalizedPayload) 6.

(** *** Key permutations

    [wf v]: no object inside [v] has two properties with one key.
    [key_perm a b]: [b] is [a] with the properties of some of its
    objects, at any depth, created in another order. *)
Inductive wf : value -> Prop :=
| wf_undefined : wf VUndefined
| wf_null : wf VNull
| wf_boolean b : wf (VBoolean b)
| wf_number n : wf (VNumber n)
| wf_string s : wf (VString s)
| wf_array items : Forall wf items -> wf (VArray items)
| wf_object props :
    NoDup (map fst props) -> Forall (fun p => wf (snd p)) props -> wf (VObject props).

Inductive key_perm : value -> value -> Prop :=
| kp_undefined : key_perm VUndefined VUndefined
| kp_null : key_perm VNull VNull
| kp_boolean b : key_perm (VBoolean b) (VBoolean b)
| kp_number n : key_perm (VNumber n) (VNumber n)
| kp_string s : key_perm (VString s) (VString s)
| kp_array items items' :
    Forall2 key_perm items items' -> key_perm (VArray items) (VArray items')
| kp_object props reordered props' :
    Permutation props reordered ->
    Forall2 (fun p p' => fst p = fst p' /\ key_perm (snd p) (snd p')) reordered props' ->
    key_perm (VObject props) (VObject props').

(** [code_unit_lt a b]: [a] comes before [b] in the order of [sort()]. *)
Definition code_unit_lt (a b : string) : Prop := String.compare a b = Lt.

(** [keys_sorted v]: in every object inside [v] the properties stand in
    ascending order of their keys. *)
Inductive keys_sorted : value -> Prop :=
| ks_undefined : keys_sorted VUndefined
| ks_null : keys_sorted VNull
| ks_boolean b : keys_sorted (VBoolean b)
| ks_number n : keys_sorted (VNumber n)
| ks_string s : keys_sorted (VString s)
| ks_array items : Forall keys_sorted items -> keys_sorted (VArray items)
| ks_object props :
    StronglySorted code_unit_lt (map fst props) ->
    Forall (fun p => keys_sorted (snd p)) props ->
    keys_sorted (VObject props).

(** [plain_keys v]: no object inside [v] has a key that is an array
    index or is [__proto__]. *)
Definition plain_key (key : string) : bool :=
  negb (is_array_index key) && negb (String.eqb key "__proto__").

Inductive plain_keys : value -> Prop :=
| pk_undefined : plain_keys VUndefined
| pk_null : plain_keys VNull
| pk_boolean b : plain_keys (VBoolean b)
| pk_number n : plain_keys (VNumber n)
| pk_string s : plain_keys (VString s)
| pk_array items : Forall plain_keys items -> plain_keys (VArray items)
| pk_object props :
    Forall (fun p => plain_key (fst p) = true /\ plain_keys (snd p)) props ->
    plain_keys (VObject props).

End UtilHash.

(* ===================================================================== *)
(** * src/factors/index.ts: the listings that sort strings                 *)
(* ===================================================================== *)

Module FactorLists.
Import Js Factors UtilHash.
#[local] Open Scope string_scope.

(** [getAvailableRegions()] *)
Definition getAvailableRegions (reg : Registry) : list string :=
  let regions := fold_left (fun regions factor => Set_add regions (Factor.region factor))
                           (defaultFactorPack reg) [] in
  Array_sort code_unit_order regions.

(** [getAvailableScopes(region?)] *)
Definition getAvailableScopes (reg : Registry) (region : option string) : list string :=
  let factors := defaultFactorPack reg in
  let factors :=
    match truthy region with
    | Some region =>
        let normalizedRegion := normalizeRegionCode reg region in
        List.filter (fun factor => String.eqb (Factor.region factor) normalizedRegion) factors
    | None => factors
    end in
  let scopes := fold_left (fun scopes factor =>
                             Set_add scopes (Scope_toString (Factor.scope factor)))
                          factors [] in
  Array_sort code_unit_order scopes.

End FactorLists.

(* ===================================================================== *)
(** * Reference points                                                     *)
(* ===================================================================== *)

(** What the documentation says of the rounding modes, and the inputs
    used below to compare the functions with it. *)
Module Documented.
Import Js.
#[local] Open Scope string_scope.
#[local] Open Scope float_scope.

(** README, "Rounding Modes": "HALF_UP: Round half away from zero".  The
    nearest integer, a tie going to the one of larger magnitude. *)
Definition round_half_away_from_zero (x : float) : float :=
  if x <? 0 then - Math_round (- x) else Math_round x.

(** The plain product of two doubles, [a * b], that [safeMultiply] is
    compared with. *)
Definition plain_product (a b : float) : float := a * b.

(** One source of 1 kWh at 0.0004 kg/kWh, that is 0.0000004 t, with no
    rounding option of its own. *)
Definition small_source : AvoidedInput.t :=
  {| AvoidedInput.energy := 1; AvoidedInput.inputUnit := "kWh";
     AvoidedInput.factorKgPerKWh := 0.0004; AvoidedInput.rounding := None |}.

(** The same entry for [totalCO2eTonnes]. *)
Definition small_entry : MethodsGrid.GridInput :=
  {| MethodsGrid.energy := 1; MethodsGrid.unit := "kWh";
     MethodsGrid.factorKgPerKWh := 0.0004 |}.

(** The objects of the test "should handle nested objects
    consistently": [{ a: { x: 1, y: 2 }, b: 3 }] and
    [{ b: 3, a: { y: 2, x: 1 } }]. *)
Definition nested_1 : UtilHash.value :=
  UtilHash.VObject
    [("a", UtilHash.VObject [("x", UtilHash.VNumber 1); ("y", UtilHash.VNumber 2)]);
     ("b", UtilHash.VNumber 3)].

Definition nested_2 : UtilHash.value :=
  UtilHash.VObject
    [("b", UtilHash.VNumber 3);
     ("a", UtilHash.VObject [("y", UtilHash.VNumber 2); ("x", UtilHash.VNumber 1)])].

(** An object with two keys that are array indices:
    [{ "10": "a", "9": "b" }]. *)
Definition ten_nine : UtilHash.value :=
  UtilHash.VObject [("10", UtilHash.VString "a"); ("9", UtilHash.VString "b")].

(** The properties of an object. *)
Definition props_of (v : UtilHash.value) : list (string * UtilHash.value) :=
  match v with UtilHash.VObject props => props | _ => [] end.

(** A factor with the given id, region, scope, value and dates. *)
Definition dated (id region : string) (scope : Scope) (value : float)
  (effectiveFrom : string) (effectiveTo : option string) : Factor.t :=
  {| Factor.id := id; Factor.region := region; Factor.scope := scope;
     Factor.gas := CO2e; Factor.valueKgPerKWh := value;
     Factor.effectiveFrom := effectiveFrom; Factor.effectiveTo := effectiveTo;
     Factor.source := Defaults.demo_source "Demo" None; Factor.uncertaintyPct := None;
     Factor.methodology := None; Factor.version := "v1" |}.

Definition IN_2022 : Factor.t :=
  dated "IN-2022" "IN" baseline 0.75 "2022-01-01" (Some "2024-12-31").

Definition IN_2023 : Factor.t := dated "IN-2023" "IN" baseline 0.72 "2023-01-01" None.

Definition IN_2024_A : Factor.t := dated "IN-2024-A" "IN" baseline 0.708 "2024-01-01" None.

Definition IN_2024_B : Factor.t := dated "IN-2024-B" "IN" baseline 0.7 "2024-01-01" None.

Definition IN_2023_MARGINAL : Factor.t :=
  dated "IN-2023-MARGINAL" "IN" marginal 0.9 "2023-01-01" None.

Definition WORLD_2020 : Factor.t := dated "WORLD-2020" "WORLD" baseline 0.82 "2020-01-01" None.

(** A table with the history of a region: four India baselines, two of
    them effective from the same day, one with an end; an India marginal
    factor; a WORLD baseline. *)
Definition history : list Factor.t :=
  [IN_2022; IN_2023; IN_2024_A; IN_2024_B; IN_2023_MARGINAL; WORLD_2020].

(** The registry after [loadFactorPack(history, defaultRegions)]. *)
Definition revised : Factors.Registry :=
  Factors.loadFactorPack history (Some Defaults.defaultRegions) Factors.empty_registry.

(** A source of 580 kWh at 1 kg/kWh, that is 0.58 t, reported to two
    decimals, rounded down. *)
Definition coarse_source : AvoidedInput.t :=
  {| AvoidedInput.energy := 580; AvoidedInput.inputUnit := "kWh";
     AvoidedInput.factorKgPerKWh := 1;
     AvoidedInput.rounding :=
       Some {| Rounding.decimals := Some 2%nat; Rounding.mode := Some DOWN |} |}.

(** hash.ts, the comment of [stableStringify]: "Sorts object keys
    alphabetically", "Uses fixed decimal precision for numbers",
    "Handles nested objects and arrays consistently".  The JSON text of
    a value with the numbers formatted, the members of every object
    written in ascending order of their keys (by code units, the order
    of [sort()]) and the elements of every array in their order. *)
Fixpoint text_with_sorted_keys {E : Engine} (v : UtilHash.value) (maxDecimals : nat)
  : option string :=
  match v with
  | UtilHash.VUndefined => None
  | UtilHash.VNull => Some "null"
  | UtilHash.VBoolean b => Some (if b then "true" else "false")
  | UtilHash.VNumber n =>
      let formatted := UtilHash.formatNumber n maxDecimals in
      Some (if Number_isFinite formatted then Number_toString formatted else "null")
  | UtilHash.VString s => Some (UtilHash.quote s)
  | UtilHash.VArray items =>
      Some ("[" ++ String.concat ","
                     (map (fun item => match text_with_sorted_keys item maxDecimals with
                                       | Some text => text
                                       | None => "null"
                                       end) items)
                ++ "]")
  | UtilHash.VObject props =>
      Some ("{" ++ String.concat ","
                     (UtilHash.members
                        (Array_sort UtilHash.code_unit_order (map fst props))
                        (map (fun p => (fst p, text_with_sorted_keys (snd p) maxDecimals))
                             props))
                ++ "}")
  end.

End Documented.

(* ===================================================================== *)
(** * The terms of the statements                                          *)
(* ===================================================================== *)

Module Terms.
Import Js UtilMath Factors.
#[local] Open Scope string_scope.
#[local] Open Scope Z_scope.

(** The time value of [new Date(factor.effectiveFrom)]. *)
Definition from_time (factor : Factor.t) : Date := new_Date (Factor.effectiveFrom factor).

(** The time value of the end of a factor's range, 2099-12-31 standing
    for an absent end. *)
Definition to_time (factor : Factor.t) : Date :=
  match truthy (Factor.effectiveTo factor) with
  | Some effectiveTo => new_Date effectiveTo
  | None => new_Date "2099-12-31"
  end.

(** [latest_first_of f rows]: [f] is a row of [rows] with the latest
    [effectiveFrom], the first such row in the order of [rows]. *)
Definition latest_first_of (f : Factor.t) (rows : list Factor.t) : Prop :=
  exists earlier later,
    rows = (earlier ++ f :: later)%list
    /\ Forall (fun g => Date_ltb (from_time g) (from_time f) = true) earlier
    /\ Forall (fun g => Date_leb (from_time g) (from_time f) = true) later.

(** The options [{ ...options, region }]. *)
Definition with_region (options : FactorResolutionOptions.t) (region : string)
  : FactorResolutionOptions.t :=
  {| FactorResolutionOptions.region := Some region;
     FactorResolutionOptions.date := FactorResolutionOptions.date options;
     FactorResolutionOptions.scope := FactorResolutionOptions.scope options;
     FactorResolutionOptions.overrides := FactorResolutionOptions.overrides options |}.

(** The filter [{ from, to }]. *)
Definition window (from to : string) : FactorFilter.t :=
  {| FactorFilter.region := None; FactorFilter.scope := None;
     FactorFilter.from := Some from; FactorFilter.to := Some to |}.

(** The checks that [toCO2eKg] and [avoidedEmissions] make on their two
    numbers. *)
Definition accepted (energy factorKgPerKWh : float) : Prop :=
  Number_isFinite energy = true /\ Number_isFinite factorKgPerKWh = true
  /\ (energy <? 0)%float = false /\ (factorKgPerKWh <? 0)%float = false.

(** A double that is not below zero: a zero of either sign, a positive
    number, or NaN. *)
Definition not_negative (x : spec_float) : Prop :=
  match x with
  | S754_infinity true | S754_finite true _ _ => False
  | _ => True
  end.

(** A double that is not NaN has a place in the lexicographic order of
    these triples; [<] and [<=] on doubles are that order. *)
Definition order_key (x : spec_float) : Z * Z * Z :=
  match x with
  | S754_infinity true => (-2, 0, 0)
  | S754_finite true m e => (-1, - e, - Z.pos m)
  | S754_zero _ | S754_nan => (0, 0, 0)
  | S754_finite false m e => (1, e, Z.pos m)
  | S754_infinity false => (2, 0, 0)
  end.

Definition key_lt (a b : Z * Z * Z) : Prop :=
  let '(a1, a2, a3) := a in
  let '(b1, b2, b3) := b in
  a1 < b1 \/ (a1 = b1 /\ (a2 < b2 \/ (a2 = b2 /\ a3 < b3))).

Definition key_le (a b : Z * Z * Z) : Prop := key_lt a b \/ a = b.




(** The two facts about the powers of ten and the rounding of zero that
    are checked by evaluation for the decimals 0 to 308, the range in
    which [10^decimals] is a finite double. *)
Definition zero_rounds_to_zero (decimals : nat) : bool :=
  forallb (fun mode => PrimFloat.Leibniz.eqb (roundStable 0 decimals mode) 0)
          [HALF_UP; DOWN; TRUNC].

Definition power_of_ten_is_positive (decimals : nat) : bool :=
  match Prim2SF (Math_pow10 decimals) with
  | S754_finite false _ _ => true
  | _ => false
  end.

End Terms.

(* ===================================================================== *)
(** * Properties                                                           *)
(* ===================================================================== *)

Import Js UtilMath UtilUnits MethodsGrid MethodsAvoided Factors Defaults UtilHash FactorLists
  Documented Terms.
#[local] Open Scope string_scope.
#[local] Open Scope Z_scope.

(** ** Lists *)

Lemma length_eqb_0_false {A : Type} (xs : list A) :
  (List.length xs =? 0)%nat = false <-> xs <> [].
Proof.
  destruct xs as [|x xs]; cbn; split; intros E; try discriminate; congruence.
Qed.

Lemma filter_nil_iff {A : Type} (f : A -> bool) (xs : list A) :
  filter f xs = [] <-> forall x, In x xs -> f x = false.
Proof.
  induction xs as [|a xs IH]; cbn.
  - split; [intros _ x [] | reflexivity].
  - destruct (f a) eqn:Fa; split.
    + discriminate.
    + intros H. specialize (H a (or_introl eq_refl)). congruence.
    + intros E x [<- | Hin]; [assumption | now apply IH].
    + intros H. apply IH. intros x Hin. apply H. now right.
Qed.

Section SortFacts.
Context {A : Type} (compareFn : A -> A -> option Z).

Lemma insert_sorted_perm (a : A) (xs : list A) :
  Permutation (insert_sorted compareFn a xs) (a :: xs).
Proof.
  induction xs as [|b xs IH]; cbn.
  - apply Permutation_refl.
  - destruct (before_or_equal compareFn a b).
    + apply Permutation_refl.
    + eapply perm_trans; [apply perm_skip, IH | apply perm_swap].
Qed.

Lemma Array_sort_perm (xs : list A) : Permutation (Array_sort compareFn xs) xs.
Proof.
  induction xs as [|a xs IH]; cbn.
  - apply perm_nil.
  - eapply perm_trans; [apply insert_sorted_perm | now apply perm_skip].
Qed.

Lemma Array_sort_In (x : A) (xs : list A) : In x (Array_sort compareFn xs) <-> In x xs.
Proof.
  split; apply Permutation_in;
    [apply Array_sort_perm | apply Permutation_sym, Array_sort_perm].
Qed.

Lemma Array_sort_nonempty (xs : list A) : xs <> [] -> Array_sort compareFn xs <> [].
Proof.
  intros Hne E. apply Hne.
  apply Permutation_nil. rewrite <- E. apply Array_sort_perm.
Qed.

End SortFacts.

(** ** Factor resolution *)

(** [resolveFactor] by cases on the table, on the candidates by region
    and scope, and on the date. *)
Lemma resolveFactor_unfold (reg : Registry) (options : FactorResolutionOptions.t) :
  resolveFactor reg options =
  let region := requested_region options in
  let pack := factor_pack reg options in
  let candidates :=
    region_candidates pack (normalizeRegionCode reg region) (requested_scope options) in
  match pack, candidates, truthy (FactorResolutionOptions.date options) with
  | [], _, _ => Throw (Error "No factors available. Initialize factor registry first.")
  | _ :: _, [], _ => Throw (UnknownRegionError region)
  | _ :: _, first :: _, None => Ok (Some first)
  | _ :: _, _ :: _, Some date =>
      match filter (effective_on (new_Date date)) candidates with
      | [] => Throw (NoFactorForDateError region date)
      | survivors => Ok (nth_error (Array_sort most_recent_first survivors) 0)
      end
  end.
Proof.
  unfold resolveFactor. cbv zeta.
  destruct (factor_pack reg options) as [|f0 pack]; [reflexivity|].
  cbn [List.length Nat.eqb].
  destruct (region_candidates _ _ _) as [|c0 cs]; [reflexivity|].
  cbn [List.length Nat.eqb].
  destruct (truthy _) as [date|]; [|reflexivity].
  destruct (filter _ _) as [|s0 ss]; reflexivity.
Qed.

(** [resolveFactor] never returns [undefined]. *)
Lemma resolveFactor_defined (reg : Registry) (options : FactorResolutionOptions.t) :
  resolveFactor reg options <> Ok None.
Proof.
  rewrite resolveFactor_unfold. cbv zeta.
  destruct (factor_pack reg options) as [|f0 pack]; [discriminate|].
  destruct (region_candidates _ _ _) as [|c0 cs]; [discriminate|].
  destruct (truthy _) as [date|]; [|discriminate].
  destruct (filter _ _) as [|s0 ss] eqn:E; [discriminate|].
  destruct (Array_sort most_recent_first (s0 :: ss)) as [|t0 ts] eqn:S; [|discriminate].
  exfalso. revert S. now apply Array_sort_nonempty.
Qed.

(** C9. Resolution against an empty factor table (no pack loaded, or an
    empty [overrides] array) fails with the configuration error
    "No factors available. Initialize factor registry first."; hence no
    factor is ever returned from an empty table. *)
Theorem resolveFactor_empty_table (reg : Registry) (options : FactorResolutionOptions.t) :
  factor_pack reg options = [] ->
  resolveFactor reg options
  = Throw (Error "No factors available. Initialize factor registry first.").
Proof.
  intros E. rewrite resolveFactor_unfold. cbv zeta. now rewrite E.
Qed.

Lemma resolveFactor_empty_table_witness :
  resolveFactor empty_registry (query "IN" baseline (Some "2024-06-15"))
  = Throw (Error "No factors available. Initialize factor registry first.").
Proof.
  apply (resolveFactor_empty_table empty_registry
           (query "IN" baseline (Some "2024-06-15"))).
  reflexivity.
Defined.

Lemma matches_spec (r : string) (scope : Scope) (f : Factor.t) :
  matches r scope f = true <-> Factor.region f = r /\ Factor.scope f = scope.
Proof.
  unfold matches. rewrite andb_true_iff, String.eqb_eq.
  destruct (Factor.scope f), scope; cbn; intuition congruence.
Qed.

Lemma region_candidates_own (pack : list Factor.t) (r : string) (scope : Scope) :
  filter (matches r scope) pack <> [] ->
  region_candidates pack r scope = filter (matches r scope) pack.
Proof.
  intros Hne. unfold region_candidates. cbv zeta.
  apply length_eqb_0_false in Hne. now rewrite Hne.
Qed.

Lemma region_candidates_fallback (pack : list Factor.t) (r : string) (scope : Scope) :
  filter (matches r scope) pack = [] ->
  region_candidates pack r scope = filter (matches "WORLD" scope) pack.
Proof.
  intros E. unfold region_candidates. cbv zeta. rewrite E. cbn.
  destruct (String.eqb_spec r "WORLD") as [-> | _]; cbn; [now rewrite E | reflexivity].
Qed.

(** A factor that [resolveFactor] returns is one of the candidates by
    region and scope. *)
Lemma resolveFactor_among_candidates (reg : Registry)
  (options : FactorResolutionOptions.t) (f : Factor.t) :
  resolveFactor reg options = Ok (Some f) ->
  In f (region_candidates (factor_pack reg options)
          (normalizeRegionCode reg (requested_region options))
          (requested_scope options)).
Proof.
  rewrite resolveFactor_unfold. cbv zeta.
  destruct (factor_pack reg options) as [|f0 pack]; [discriminate|].
  destruct (region_candidates _ _ _) as [|c0 cs]; [discriminate|].
  destruct (truthy _) as [date|].
  - destruct (filter _ _) as [|s0 ss] eqn:E; [discriminate|].
    destruct (nth_error (Array_sort most_recent_first (s0 :: ss)) 0) as [g|] eqn:N;
      [|discriminate].
    intros R. injection R as ->. apply nth_error_In in N.
    apply Array_sort_In in N. rewrite <- E in N.
    apply filter_In in N. tauto.
  - intros R. injection R as <-. now left.
Qed.

(** C4. Without a date, a region that has no baseline factor of its own
    (after normalization) in a table that has a WORLD baseline factor
    resolves to a WORLD baseline factor, the first one of the table.
    And the fallback is taken only then: whenever the region has
    candidates of its own, whatever the scope or the date, a factor that
    is returned is one of them. *)
Theorem resolveFactor_world_fallback :
  (forall (reg : Registry) (overrides : option (list Factor.t)) (R : string),
      let options :=
        {| FactorResolutionOptions.region := Some R;
           FactorResolutionOptions.date := None;
           FactorResolutionOptions.scope := Some baseline;
           FactorResolutionOptions.overrides := overrides |} in
      let pack := factor_pack reg options in
      filter (matches (normalizeRegionCode reg R) baseline) pack = [] ->
      filter (matches "WORLD" baseline) pack <> [] ->
      exists f rest,
        filter (matches "WORLD" baseline) pack = f :: rest
        /\ resolveFactor reg options = Ok (Some f)
        /\ Factor.region f = "WORLD" /\ Factor.scope f = baseline)
  /\ (forall (reg : Registry) (options : FactorResolutionOptions.t) (f : Factor.t),
         let own := filter (matches (normalizeRegionCode reg (requested_region options))
                              (requested_scope options))
                           (factor_pack reg options) in
         own <> [] ->
         resolveFactor reg options = Ok (Some f) ->
         In f own
         /\ Factor.region f = normalizeRegionCode reg (requested_region options)).
Proof.
  split.
  - intros reg overrides R options pack Hnone Hworld.
    destruct (filter (matches "WORLD" baseline) pack) as [|f rest] eqn:W;
      [now contradiction Hworld|].
    exists f, rest. split; [reflexivity|].
    assert (Hin : In f (filter (matches "WORLD" baseline) pack))
      by (rewrite W; now left).
    apply filter_In in Hin. destruct Hin as [Hin Hm].
    apply matches_spec in Hm. repeat split; try tauto.
    rewrite resolveFactor_unfold. cbv zeta.
    change (requested_region options) with R.
    change (requested_scope options) with baseline.
    fold pack. rewrite (region_candidates_fallback _ _ _ Hnone), W.
    destruct pack as [|p0 pack']; [destruct Hin|]. reflexivity.
  - intros reg options f own Hown R.
    apply resolveFactor_among_candidates in R.
    rewrite (region_candidates_own _ _ _ Hown) in R. fold own in R.
    split; [assumption|].
    apply filter_In in R. destruct R as [_ Hm]. now apply matches_spec in Hm.
Qed.

Lemma resolveFactor_world_fallback_witness :
  exists f rest,
    filter (matches "WORLD" baseline) defaultFactors = f :: rest
    /\ resolveFactor loaded (query "UNKNOWN" baseline None) = Ok (Some f)
    /\ Factor.region f = "WORLD" /\ Factor.scope f = baseline.
Proof.
  apply (proj1 resolveFactor_world_fallback loaded None "UNKNOWN").
  - reflexivity.
  - discriminate.
Defined.

(** C6. With a date, when the candidates by region and scope (after the
    fallback) exist and none of them is effective on the date,
    [resolveFactor] fails with [NoFactorForDateError] carrying the region
    as the caller gave it, not the normalized or the fallback one.  The
    date and the dates of the candidates are of the form [YYYY-MM-DD],
    the one the schema admits and [new_Date] reads.  In particular the
    query (IN, baseline, 2020-01-01) fails so whenever the only IN
    baseline factor is effective from 2024-01-01. *)
Theorem resolveFactor_no_factor_for_date :
  (forall (reg : Registry) (options : FactorResolutionOptions.t) (date : string),
      let region := requested_region options in
      let candidates :=
        region_candidates (factor_pack reg options) (normalizeRegionCode reg region)
                          (requested_scope options) in
      truthy (FactorResolutionOptions.date options) = Some date ->
      Schema.iso_date date = true ->
      (forall f, In f candidates -> Schema.factor_dates f = true) ->
      candidates <> [] ->
      (forall f, In f candidates -> effective_on (new_Date date) f = false) ->
      resolveFactor reg options = Throw (NoFactorForDateError region date))
  /\ (forall (reg : Registry) (f : Factor.t),
         let options := query "IN" baseline (Some "2020-01-01") in
         region_candidates (factor_pack reg options) (normalizeRegionCode reg "IN") baseline
         = [f] ->
         Factor.effectiveFrom f = "2024-01-01" ->
         resolveFactor reg options = Throw (NoFactorForDateError "IN" "2020-01-01")).
Proof.
  assert (General :
    forall reg options date,
      truthy (FactorResolutionOptions.date options) = Some date ->
      region_candidates (factor_pack reg options)
        (normalizeRegionCode reg (requested_region options)) (requested_scope options)
      <> [] ->
      (forall f,
          In f (region_candidates (factor_pack reg options)
                  (normalizeRegionCode reg (requested_region options))
                  (requested_scope options)) ->
          effective_on (new_Date date) f = false) ->
      resolveFactor reg options
      = Throw (NoFactorForDateError (requested_region options) date)).
  { intros reg options date Hdate Hne Hnone.
    rewrite resolveFactor_unfold. cbv zeta. rewrite Hdate.
    apply filter_nil_iff in Hnone. rewrite Hnone.
    destruct (region_candidates _ _ _) as [|c0 cs] eqn:C; [now contradiction Hne|].
    destruct (factor_pack reg options) as [|p0 pack] eqn:P; [|reflexivity].
    exfalso. unfold region_candidates in C. cbn in C.
    destruct (negb _); discriminate C. }
  split.
  - intros reg options date region candidates Hdate _ _. now apply General.
  - intros reg f options Hc Hfrom.
    apply (General reg options "2020-01-01"); [reflexivity | | ].
    + change (requested_region options) with "IN".
      change (requested_scope options) with baseline. rewrite Hc. discriminate.
    + change (requested_region options) with "IN".
      change (requested_scope options) with baseline. rewrite Hc.
      intros g [<- | []]. unfold effective_on. rewrite Hfrom. reflexivity.
Qed.

Lemma resolveFactor_no_factor_for_date_witness :
  resolveFactor loaded (query "atlantis" baseline (Some "2020-01-01"))
  = Throw (NoFactorForDateError "atlantis" "2020-01-01").
Proof.
  apply (proj1 resolveFactor_no_factor_for_date loaded
           (query "atlantis" baseline (Some "2020-01-01")) "2020-01-01").
  - reflexivity.
  - reflexivity.
  - intros f [<- | []]. reflexivity.
  - discriminate.
  - intros f [<- | []]. reflexivity.
Defined.

(** C3, as the code has it.  A factor without [effectiveTo] is effective
    up to 2099-12-31, the date the code puts in place of a missing end:
    when it is the only candidate, every query date from its
    [effectiveFrom] to 2099-12-31 resolves to it. *)
Theorem resolveFactor_open_ended_until_2099
  (reg : Registry) (options : FactorResolutionOptions.t) (date : string) (f : Factor.t) :
  truthy (FactorResolutionOptions.date options) = Some date ->
  region_candidates (factor_pack reg options)
    (normalizeRegionCode reg (requested_region options)) (requested_scope options)
  = [f] ->
  truthy (Factor.effectiveTo f) = None ->
  Date_geb (new_Date date) (new_Date (Factor.effectiveFrom f)) = true ->
  Date_leb (new_Date date) (new_Date "2099-12-31") = true ->
  resolveFactor reg options = Ok (Some f).
Proof.
  intros Hdate Hc Hopen Hfrom Hto.
  rewrite resolveFactor_unfold. cbv zeta. rewrite Hdate, Hc.
  destruct (factor_pack reg options) as [|p0 pack] eqn:P.
  - exfalso. unfold region_candidates in Hc. cbn in Hc.
    destruct (negb _); discriminate Hc.
  - cbn [filter]. unfold effective_on at 1. rewrite Hopen, Hfrom, Hto.
    reflexivity.
Qed.

Lemma resolveFactor_open_ended_until_2099_witness :
  resolveFactor loaded (query "IN" baseline (Some "2099-12-31"))
  = Ok (Some IN_2024_BASELINE).
Proof.
  apply (resolveFactor_open_ended_until_2099 loaded
           (query "IN" baseline (Some "2099-12-31")) "2099-12-31" IN_2024_BASELINE);
    reflexivity.
Defined.

(** C3, as stated, fails: IN-2024-BASELINE is the only (IN, baseline)
    candidate of the default table and has no [effectiveTo]; the date
    2100-01-01 is after its [effectiveFrom]; the resolution throws. *)
Lemma resolveFactor_open_ended_counterexample :
  region_candidates defaultFactors (normalizeRegionCode loaded "IN") baseline
  = [IN_2024_BASELINE]
  /\ Factor.effectiveTo IN_2024_BASELINE = None
  /\ Date_geb (new_Date "2100-01-01") (new_Date (Factor.effectiveFrom IN_2024_BASELINE))
     = true
  /\ resolveFactor loaded (query "IN" baseline (Some "2100-01-01"))
     = Throw (NoFactorForDateError "IN" "2100-01-01").
Proof. repeat split. Qed.

(** ** Rounding and arithmetic *)



(** C1, where the code departs from it.  On a finite input [roundStable]
    scales, applies the mode and rescales, and a non-finite input is
    returned as it is ([roundStable_finite], [roundStable_not_finite]);
    but HALF_UP is [Math.round], which sends a tie to the larger
    neighbour: -2.5, half way between -3 and -2, goes to -2, towards
    zero, where rounding half away from zero gives -3. *)
Theorem roundStable_HALF_UP_negative_tie :
  roundStable (-2.5) 0 HALF_UP = (-2)%float
  /\ round_half_away_from_zero (-2.5) = (-3)%float
  /\ ((-2.5 - -3 =? -2 - -2.5) && (abs (-2) <? abs (-2.5)))%float = true.
Proof. repeat split. Qed.

Lemma safeMultiply_eq {E : Engine} (a b : float) : safeMultiply a b = (a * b)%float.
Proof.
  unfold safeMultiply. cbv zeta.
  destruct (Math_abs (a * b) <? 1e-10)%float; [|reflexivity].
  destruct (15 <? _)%nat; reflexivity.
Qed.

(** C10. [safeMultiply(a, b)] is the plain double product [a * b] for
    all operands, of any magnitude and whatever the engine's
    [toString] returns: the branch taken when the product is below
    1e-10 in magnitude counts decimals and returns the product all the
    same. *)
Theorem safeMultiply_is_product :
  forall (E : Engine) (a b : float), safeMultiply a b = plain_product a b.
Proof. intros E a b. unfold plain_product. apply safeMultiply_eq. Qed.

(** On doubles [0 <= x] excludes [x < 0]. *)
Lemma leb_0_not_ltb_0 (x : float) : (0 <=? x)%float = true -> (x <? 0)%float = false.
Proof.
  rewrite leb_spec, ltb_spec.
  change (Prim2SF 0%float) with (S754_zero false).
  destruct (Prim2SF x) as [s | s | | s m e]; cbn; try reflexivity; try discriminate;
    destruct s; cbn; (reflexivity || discriminate).
Qed.

(** C5. [toCO2eKg] throws "Energy and factor must be finite numbers"
    when the energy or the factor is not finite; with both finite it
    throws "Energy cannot be negative" when the energy is below zero;
    with both finite and the energy not below zero it throws
    "Emission factor cannot be negative" when the factor is below zero.
    So [toCO2eKg(-1, 'kWh', 0.5)] and [toCO2eKg(1, 'kWh', -0.5)] fail with
    the second and the third.  A [Throw] carries no output. *)
Theorem toCO2eKg_rejections :
  forall E : Engine,
    (forall (energy : float) (unit : string) (factorKgPerKWh : float),
        (Number_isFinite energy = false \/ Number_isFinite factorKgPerKWh = false ->
         toCO2eKg energy unit factorKgPerKWh
         = Throw (Error "Energy and factor must be finite numbers"))
        /\ (Number_isFinite energy = true -> Number_isFinite factorKgPerKWh = true ->
            (energy <? 0)%float = true ->
            toCO2eKg energy unit factorKgPerKWh = Throw (Error "Energy cannot be negative"))
        /\ (Number_isFinite energy = true -> Number_isFinite factorKgPerKWh = true ->
            (0 <=? energy)%float = true -> (factorKgPerKWh <? 0)%float = true ->
            toCO2eKg energy unit factorKgPerKWh
            = Throw (Error "Emission factor cannot be negative")))
    /\ toCO2eKg (-1) "kWh" 0.5 = Throw (Error "Energy cannot be negative")
    /\ toCO2eKg 1 "kWh" (-0.5) = Throw (Error "Emission factor cannot be negative").
Proof.
  intros E. split; [|split; reflexivity].
  intros energy unit factorKgPerKWh. unfold toCO2eKg. repeat split.
  - intros [N | N]; rewrite N; cbn; [reflexivity | now rewrite orb_true_r].
  - intros Fe Ff Neg. now rewrite Fe, Ff, Neg.
  - intros Fe Ff Pos Neg. apply leb_0_not_ltb_0 in Pos. now rewrite Fe, Ff, Pos, Neg.
Qed.

Lemma toCO2eKg_rejections_witness :
  toCO2eKg (E := Ecma262.engine) nan "kWh" 0.5
  = Throw (Error "Energy and factor must be finite numbers")
  /\ toCO2eKg (E := Ecma262.engine) 1000 "GWh" neg_infinity
     = Throw (Error "Energy and factor must be finite numbers")
  /\ toCO2eKg (E := Ecma262.engine) (-1000) "MWh" 0.5
     = Throw (Error "Energy cannot be negative")
  /\ toCO2eKg (E := Ecma262.engine) 1000 "kWh" (-0.5)
     = Throw (Error "Emission factor cannot be negative").
Proof.
  pose proof (proj1 (toCO2eKg_rejections Ecma262.engine)) as R.
  split; [|split; [|split]].
  - apply (proj1 (R nan "kWh" 0.5%float)). now left.
  - apply (proj1 (R 1000%float "GWh" neg_infinity)). now right.
  - apply (proj1 (proj2 (R (-1000)%float "MWh" 0.5%float))); reflexivity.
  - apply (proj2 (proj2 (R 1000%float "kWh" (-0.5)%float))); reflexivity.
Defined.

(** What [totalAvoidedEmissions] adds up: the [tCO2e] of the results of
    [avoidedEmissions], each already rounded with the rounding option of
    its own input. *)
Lemma totalAvoidedEmissions_sums_rounded_items {E : Engine}
  (inputs : list AvoidedInput.t) (rounding : option Rounding.t)
  (individualResults : list AvoidedResult.t) :
  mapM (fun input => avoidedEmissions input) inputs = Ok individualResults ->
  (let* total := totalAvoidedEmissions inputs rounding in
   Ok (AvoidedResult.tCO2e total))
  = Ok (roundStable
          (fold_left (fun sum result => sum + AvoidedResult.tCO2e result)%float
                     individualResults 0%float)
          (decimals_or_default rounding) (mode_or_default rounding)).
Proof.
  intros B. unfold totalAvoidedEmissions, batchAvoidedEmissions. now rewrite B.
Qed.

Lemma avoidedEmissions_rounds {E : Engine} (input : AvoidedInput.t) (r : AvoidedResult.t) :
  avoidedEmissions input = Ok r ->
  exists kgCO2e : float,
    AvoidedResult.tCO2e r
    = roundStable (kgCO2e / 1000)%float
        (decimals_or_default (AvoidedInput.rounding input))
        (mode_or_default (AvoidedInput.rounding input))
    /\ AvoidedResult.kgCO2e r
       = roundStable kgCO2e
           (decimals_or_default (AvoidedInput.rounding input))
           (mode_or_default (AvoidedInput.rounding input)).
Proof.
  unfold avoidedEmissions.
  destruct (negb _ || negb _); [discriminate|].
  destruct (_ <? _)%float; [discriminate|].
  destruct (_ <? _)%float; [discriminate|].
  destruct (normalizeToKWh _ _) as [energyKWh | e]; [|discriminate].
  cbn [bind]. intros R. injection R as <-. cbn.
  now exists (safeMultiply energyKWh (AvoidedInput.factorKgPerKWh input)).
Qed.

(** C2, where the code departs from it.  Three sources of 0.0000004 t
    each: [totalAvoidedEmissions] adds the per-item values that
    [avoidedEmissions] has already rounded to 6 decimals (three zeros)
    and reports 0 t, while the unrounded values add up to 0.0000012 t,
    which rounds to 0.000001 t, the result of [totalCO2eTonnes] on the
    same entries. *)
Theorem totalAvoidedEmissions_rounds_per_item :
  forall E : Engine,
    (let* total := totalAvoidedEmissions [small_source; small_source; small_source] None in
     Ok (AvoidedResult.tCO2e total)) = Ok 0%float
    /\ (let* each := batchToCO2eTonnes [small_entry; small_entry; small_entry] in
        Ok (roundStable (fold_left (fun sum t => sum + t)%float each 0%float) 6 HALF_UP))
       = Ok 0.000001%float
    /\ totalCO2eTonnes [small_entry; small_entry; small_entry] 6 HALF_UP = Ok 0.000001%float.
Proof. intros E. repeat split. Qed.


(** ** Doubles: exact operations

    The facts about binary64 arithmetic that idempotence at zero
    decimals rests on, proved over [SpecFloat]: multiplying and dividing
    by one are exact, and the integers below [2^53] are doubles. *)

Section Iterations.
Context {A : Type} (f : A -> A).

Lemma iter_pos_nat (p : positive) (x : A) :
  iter_pos f p x = Nat.iter (Pos.to_nat p) f x.
Proof.
  revert x. induction p as [p IH | p IH |]; intros x; cbn [iter_pos].
  - rewrite !IH, Pos2Nat.inj_xI. cbn [Nat.mul].
    now rewrite Nat.add_0_r, Nat.iter_succ_r, Nat.iter_add.
  - rewrite !IH, Pos2Nat.inj_xO. cbn [Nat.mul].
    now rewrite Nat.add_0_r, Nat.iter_add.
  - reflexivity.
Qed.
End Iterations.

Lemma digits2_pos_iter (n : nat) (m : positive) :
  Zpos (digits2_pos (Nat.iter n xO m)) = Zpos (digits2_pos m) + Z.of_nat n.
Proof.
  induction n as [|n IH].
  - change (Nat.iter 0 xO m) with m. lia.
  - rewrite Nat.iter_succ. cbn [digits2_pos]. rewrite Pos2Z.inj_succ, IH. lia.
Qed.

Lemma shr_1_iter (n : nat) (m : positive) :
  Nat.iter n shr_1 {| shr_m := Zpos (Nat.iter n xO m); shr_r := false; shr_s := false |}
  = {| shr_m := Zpos m; shr_r := false; shr_s := false |}.
Proof.
  induction n as [|n IH]; [reflexivity|].
  rewrite Nat.iter_succ_r, Nat.iter_succ. cbn [shr_1 orb]. exact IH.
Qed.


Lemma digits2_pos_bounds (p : positive) :
  2 ^ (Zpos (digits2_pos p) - 1) <= Zpos p < 2 ^ Zpos (digits2_pos p).
Proof.
  induction p as [p IH | p IH |]; cbn [digits2_pos]; [| |cbn; lia];
    rewrite Pos2Z.inj_succ;
    replace (Z.succ (Zpos (digits2_pos p)) - 1)
      with (Z.succ (Zpos (digits2_pos p) - 1)) by lia;
    rewrite !Z.pow_succ_r by lia; lia.
Qed.

Lemma digits2_pos_le (p : positive) (n : Z) :
  0 <= n -> Zpos p < 2 ^ n -> Zpos (digits2_pos p) <= n.
Proof.
  intros Hn Hp.
  destruct (Z.le_gt_cases (Zpos (digits2_pos p)) n) as [H | H]; [exact H|].
  exfalso. pose proof (digits2_pos_bounds p) as [Lo _].
  assert (2 ^ n <= 2 ^ (Zpos (digits2_pos p) - 1)) by (apply Z.pow_le_mono_r; lia).
  lia.
Qed.

Lemma bounded_spec (m : positive) (e : Z) :
  bounded prec emax m e = true ->
  fexp prec emax (Zpos (digits2_pos m) + e) = e /\ e <= emax - prec.
Proof.
  unfold bounded, canonical_mantissa.
  rewrite andb_true_iff, Z.eqb_eq, Z.leb_le. tauto.
Qed.

(** A mantissa carrying [n] extra zero bits rounds back, exactly, to the
    canonical double it denotes. *)
Lemma binary_round_aux_exact (s : bool) (m : positive) (e : Z) (n : nat) :
  bounded prec emax m e = true ->
  binary_round_aux prec emax s (Zpos (Nat.iter n xO m)) (e - Z.of_nat n) loc_Exact
  = S754_finite s m e.
Proof.
  intros B. destruct (bounded_spec m e B) as [C L].
  unfold binary_round_aux, shr_fexp.
  cbn [Zdigits2 shr_record_of_loc]. rewrite digits2_pos_iter.
  replace (Zpos (digits2_pos m) + Z.of_nat n + (e - Z.of_nat n))
    with (Zpos (digits2_pos m) + e) by lia.
  rewrite C.
  replace (e - (e - Z.of_nat n)) with (Z.of_nat n) by lia.
  assert (S1 : shr {| shr_m := Zpos (Nat.iter n xO m); shr_r := false; shr_s := false |}
                 (e - Z.of_nat n) (Z.of_nat n)
               = ({| shr_m := Zpos m; shr_r := false; shr_s := false |}, e)).
  { destruct n as [|n].
    - cbn. f_equal. lia.
    - unfold shr. change (Z.of_nat (S n)) with (Zpos (Pos.of_succ_nat n)) at 1.
      cbv iota. rewrite iter_pos_nat, SuccNat2Pos.id_succ, shr_1_iter. f_equal. lia. }
  rewrite S1. cbn [shr_m loc_of_shr_record round_nearest_even Zdigits2 shr_record_of_loc].
  rewrite C, Z.sub_diag. cbn [shr shr_m].
  apply Z.leb_le in L. now rewrite L.
Qed.

(** The double 1 in [SpecFloat]. *)
Lemma Prim2SF_one : Prim2SF 1%float = S754_finite false 4503599627370496 (-52).
Proof. reflexivity. Qed.

Lemma SFmul_one (x : spec_float) :
  valid_binary x = true ->
  SFmul prec emax x (S754_finite false 4503599627370496 (-52)) = x.
Proof.
  destruct x as [s | s | | s m e]; cbn [valid_binary]; intros B;
    try (destruct s; reflexivity); try reflexivity.
  unfold SFmul. rewrite xorb_false_r.
  replace (m * 4503599627370496)%positive with (Nat.iter 52 xO m)
    by (rewrite Pos.mul_comm; reflexivity).
  change (e + -52) with (e - Z.of_nat 52).
  now apply binary_round_aux_exact.
Qed.



Lemma float_mul_1_r (x : float) : (x * 1)%float = x.
Proof.
  apply Prim2SF_inj. rewrite mul_spec, Prim2SF_one. apply SFmul_one, Prim2SF_valid.
Qed.


(** The classes of a double, read off its [SpecFloat] form. *)

Lemma SFcompare_refl (x : spec_float) : x <> S754_nan -> SFcompare x x = Some Eq.
Proof.
  destruct x as [s | s | | s m e]; cbn; intros H; try congruence; destruct s; cbn;
    try reflexivity; rewrite Z.compare_refl, Pos.compare_cont_refl; reflexivity.
Qed.

Lemma is_nan_SF (x : float) :
  is_nan x = match Prim2SF x with S754_nan => true | _ => false end.
Proof.
  unfold is_nan. rewrite eqb_spec. unfold SFeqb.
  destruct (Prim2SF x) as [s | s | | s m e] eqn:E; try reflexivity;
    rewrite SFcompare_refl by discriminate; reflexivity.
Qed.

Lemma is_infinity_SF (x : float) :
  is_infinity x = match Prim2SF x with S754_infinity _ => true | _ => false end.
Proof.
  unfold is_infinity. rewrite eqb_spec, abs_spec.
  change (Prim2SF infinity) with (S754_infinity false).
  destruct (Prim2SF x) as [s | s | | s m e]; reflexivity.
Qed.

Lemma is_finite_SF (x : float) :
  is_finite x
  = match Prim2SF x with S754_zero _ | S754_finite _ _ _ => true | _ => false end.
Proof.
  unfold is_finite. rewrite is_nan_SF, is_infinity_SF.
  destruct (Prim2SF x); reflexivity.
Qed.

(** An integer of magnitude below [2^53] is a double: its mantissa,
    shifted left to 53 bits, is canonical. *)
Lemma binary_round_integer (s : bool) (p : positive) :
  Zpos p < 2 ^ 53 ->
  exists d : nat,
    binary_round prec emax s p 0 = S754_finite s (Nat.iter d xO p) (- Z.of_nat d)
    /\ bounded prec emax (Nat.iter d xO p) (- Z.of_nat d) = true.
Proof.
  intros Hp. pose proof (digits2_pos_le p 53 ltac:(lia) Hp) as Hd.
  exists (Z.to_nat (53 - Zpos (digits2_pos p))).
  set (d := Z.to_nat (53 - Zpos (digits2_pos p))).
  assert (Hdz : Z.of_nat d = 53 - Zpos (digits2_pos p)) by (unfold d; lia).
  assert (B : bounded prec emax (Nat.iter d xO p) (- Z.of_nat d) = true).
  { unfold bounded, canonical_mantissa, fexp, emin, prec, emax.
    rewrite digits2_pos_iter, andb_true_iff, Z.eqb_eq, Z.leb_le. lia. }
  split; [|exact B].
  unfold binary_round, shl_align.
  replace (fexp prec emax (Zpos (digits2_pos p) + 0) - 0) with (- Z.of_nat d)
    by (unfold fexp, emin, prec, emax; lia).
  replace (fexp prec emax (Zpos (digits2_pos p) + 0)) with (- Z.of_nat d)
    by (unfold fexp, emin, prec, emax; lia).
  destruct d as [|d'] eqn:Ed.
  - cbn [Z.of_nat Z.opp Nat.iter nat_rect].
    apply (binary_round_aux_exact s p 0 0). exact B.
  - change (- Z.of_nat (S d')) with (Zneg (Pos.of_succ_nat d')).
    cbv iota. rewrite Pos2Nat.inj_iter, SuccNat2Pos.id_succ.
    replace (Zneg (Pos.of_succ_nat d')) with (- Z.of_nat (S d')) by reflexivity.
    apply (binary_round_aux_exact s (Nat.iter (S d') xO p) (- Z.of_nat (S d')) 0).
    exact B.
Qed.

Lemma float_of_Z_finite (n : Z) (sz : bool) :
  n <> 0 -> Z.abs n < 2 ^ 53 ->
  exists d : nat,
    Prim2SF (float_of_Z n sz)
    = S754_finite (n <? 0) (Nat.iter d xO (Z.to_pos (Z.abs n))) (- Z.of_nat d).
Proof.
  intros Hn Hlt. unfold float_of_Z.
  destruct n as [|p|p]; [congruence| |];
    cbn [binary_normalize Z.abs Z.to_pos Z.ltb Z.compare] in *.
  - destruct (binary_round_integer false p Hlt) as (d & E & B).
    exists d. rewrite E. now apply Prim2SF_SF2Prim.
  - destruct (binary_round_integer true p Hlt) as (d & E & B).
    exists d. rewrite E. now apply Prim2SF_SF2Prim.
Qed.


(** ** [Math.floor], [Math.trunc] and [Math.round] are idempotent *)

Section IntegerPart.
Variable choose : Z -> Z -> Z.
Hypothesis choose_bound : forall num den, 2 <= den -> Z.abs (choose num den) <= Z.abs num.
Hypothesis choose_integer : forall n den, 0 < den -> choose (n * den) den = n.

End IntegerPart.

Lemma abs_div_le (a b : Z) : 1 <= b -> Z.abs (a / b) <= Z.abs a.
Proof.
  intros Hb. pose proof (Z.div_mod a b ltac:(lia)).
  pose proof (Z.mod_pos_bound a b ltac:(lia)). nia.
Qed.












(** *** One decimal, on the integers up to a million *)
















(** At two decimals the other two modes fail as well, HALF_UP on a large
    value and TRUNC on the value of the DOWN example; and so does DOWN
    at three decimals. *)
Lemma roundStable_not_idempotent_other_modes :
  (let y := roundStable 35196485915675.766 2 HALF_UP in roundStable y 2 HALF_UP =? y)%float
  = false
  /\ (let y := roundStable 0.58 2 TRUNC in roundStable y 2 TRUNC =? y)%float = false
  /\ (let y := roundStable 65.11231235782584 3 DOWN in roundStable y 3 DOWN =? y)%float = false.
Proof. repeat split; reflexivity. Qed.

(** ** Canonical serialization *)

(** *** The order of code units *)

Definition code_unit_le (a b : string) : Prop :=
  before_or_equal code_unit_order a b = true.

Lemma ascii_compare_refl (c : ascii) : Ascii.compare c c = Eq.
Proof. unfold Ascii.compare. apply N.compare_refl. Qed.

Lemma ascii_compare_lt_trans (a b c : ascii) :
  Ascii.compare a b = Lt -> Ascii.compare b c = Lt -> Ascii.compare a c = Lt.
Proof.
  unfold Ascii.compare. rewrite !N.compare_lt_iff. apply N.lt_trans.
Qed.

Lemma string_compare_lt_trans (a b c : string) :
  code_unit_lt a b -> code_unit_lt b c -> code_unit_lt a c.
Proof.
  unfold code_unit_lt. revert b c.
  induction a as [|x a IH]; intros [|y b] [|z c]; cbn; try congruence.
  destruct (Ascii.compare x y) eqn:Exy; try discriminate.
  - apply Ascii.compare_eq_iff in Exy. subst y.
    destruct (Ascii.compare x z) eqn:Exz; try congruence. apply IH.
  - intros _. destruct (Ascii.compare y z) eqn:Eyz; try discriminate.
    + apply Ascii.compare_eq_iff in Eyz. subst z. now rewrite Exy.
    + now rewrite (ascii_compare_lt_trans x y z Exy Eyz).
Qed.

Lemma string_compare_refl (a : string) : String.compare a a = Eq.
Proof.
  induction a as [|c a IH]; cbn; [reflexivity|]. now rewrite ascii_compare_refl.
Qed.

Lemma code_unit_le_spec (a b : string) : code_unit_le a b <-> code_unit_lt a b \/ a = b.
Proof.
  unfold code_unit_le, code_unit_lt, before_or_equal, code_unit_order.
  destruct (String.compare a b) eqn:E; cbn.
  - apply String.compare_eq_iff in E. tauto.
  - tauto.
  - split; [discriminate|]. intros [H | ->]; [discriminate|].
    rewrite string_compare_refl in E. discriminate.
Qed.

Lemma code_unit_lt_irrefl (a : string) : ~ code_unit_lt a a.
Proof.
  unfold code_unit_lt. rewrite string_compare_refl. discriminate.
Qed.

Lemma code_unit_le_total (a b : string) : code_unit_le a b \/ code_unit_le b a.
Proof.
  rewrite !code_unit_le_spec. unfold code_unit_lt.
  rewrite (String.compare_antisym b a).
  destruct (String.compare a b) eqn:E; cbn; auto.
  apply String.compare_eq_iff in E. auto.
Qed.

Lemma code_unit_le_trans (a b c : string) :
  code_unit_le a b -> code_unit_le b c -> code_unit_le a c.
Proof.
  rewrite !code_unit_le_spec. intros [H1 | ->] [H2 | ->]; auto.
  left. now apply (string_compare_lt_trans a b c).
Qed.

Lemma code_unit_le_antisym (a b : string) :
  code_unit_le a b -> code_unit_le b a -> a = b.
Proof.
  rewrite !code_unit_le_spec. intros [H1 | ->] [H2 | E]; auto.
  exfalso. apply (code_unit_lt_irrefl a). now apply (string_compare_lt_trans a b a).
Qed.

(** *** Sorting keys: the result depends on the set of keys only *)

Lemma Forall_perm {A : Type} (P : A -> Prop) (xs ys : list A) :
  Permutation xs ys -> Forall P xs -> Forall P ys.
Proof.
  intros Hp. rewrite !Forall_forall. intros H x Hx. apply H.
  eapply Permutation_in; [apply Permutation_sym; exact Hp | exact Hx].
Qed.

Lemma insert_sorted_sorted (a : string) (keys : list string) :
  StronglySorted code_unit_le keys ->
  StronglySorted code_unit_le (insert_sorted code_unit_order a keys).
Proof.
  induction 1 as [|b keys Hs IH Hb]; cbn [insert_sorted].
  - repeat constructor.
  - destruct (before_or_equal code_unit_order a b) eqn:E.
    + constructor; [now constructor|].
      constructor; [exact E|].
      eapply Forall_impl; [|exact Hb]. intros c Hc.
      now apply (code_unit_le_trans a b c).
    + constructor; [exact IH|].
      apply (Forall_perm _ (a :: keys));
        [apply Permutation_sym, insert_sorted_perm|].
      constructor; [|exact Hb].
      destruct (code_unit_le_total a b) as [H | H]; [|exact H].
      unfold code_unit_le in H. congruence.
Qed.

Lemma Array_sort_sorted (keys : list string) :
  StronglySorted code_unit_le (Array_sort code_unit_order keys).
Proof.
  induction keys as [|a keys IH]; cbn [Array_sort fold_right]; [constructor|].
  now apply insert_sorted_sorted.
Qed.

Lemma sorted_perm_eq (xs ys : list string) :
  StronglySorted code_unit_le xs -> StronglySorted code_unit_le ys ->
  Permutation xs ys -> xs = ys.
Proof.
  intros Hx. revert ys. induction Hx as [|a xs Hxs IH Ha]; intros ys Hy P.
  - apply Permutation_nil in P. now subst.
  - destruct Hy as [|b ys Hys Hb].
    + apply Permutation_sym, Permutation_nil in P. discriminate.
    + assert (E : a = b).
      { assert (Ia : In a (b :: ys)) by (eapply Permutation_in; [exact P | now left]).
        assert (Ib : In b (a :: xs))
          by (eapply Permutation_in; [apply Permutation_sym; exact P | now left]).
        destruct Ia as [-> | Ia]; [reflexivity|].
        destruct Ib as [-> | Ib]; [reflexivity|].
        rewrite Forall_forall in Ha, Hb.
        apply code_unit_le_antisym; auto. }
      subst b. f_equal. apply IH; [exact Hys|].
      now apply Permutation_cons_inv in P.
Qed.

Lemma Array_sort_perm_eq (xs ys : list string) :
  Permutation xs ys -> Array_sort code_unit_order xs = Array_sort code_unit_order ys.
Proof.
  intros P. apply sorted_perm_eq; try apply Array_sort_sorted.
  eapply perm_trans; [apply Array_sort_perm|].
  eapply perm_trans; [exact P|]. apply Permutation_sym, Array_sort_perm.
Qed.

(** *** Enumeration and lookup under a reordering *)

Lemma filter_partition_perm {A : Type} (f : A -> bool) (xs : list A) :
  Permutation (filter f xs ++ filter (fun x => negb (f x)) xs)%list xs.
Proof.
  induction xs as [|a xs IH]; cbn; [constructor|].
  destruct (f a); cbn.
  - now constructor.
  - apply Permutation_sym, Permutation_cons_app, Permutation_sym, IH.
Qed.

Lemma own_keys_perm (props : list (string * value)) :
  Permutation (own_keys props) (map fst props).
Proof.
  unfold own_keys. cbv zeta.
  eapply perm_trans; [|apply (filter_partition_perm is_array_index)].
  apply Permutation_app_tail, Array_sort_perm.
Qed.

Lemma get_perm (props props' : list (string * value)) (key : string) :
  NoDup (map fst props) -> Permutation props props' -> get props key = get props' key.
Proof.
  intros N P. revert N.
  induction P as [| [k v] l l' P IH | [k1 v1] [k2 v2] l | l l' l'' P1 IH1 P2 IH2];
    intros N; cbn.
  - reflexivity.
  - inversion N; subst. rewrite IH by assumption. reflexivity.
  - destruct (String.eqb_spec k2 key) as [-> | _];
      destruct (String.eqb_spec k1 key) as [-> | _]; try reflexivity.
    exfalso. cbn in N. inversion N as [|? ? Hn _]. apply Hn. now left.
  - rewrite IH1 by assumption. apply IH2.
    eapply Permutation_NoDup; [|exact N]. now apply Permutation_map.
Qed.

Lemma fold_left_ext_all {A B : Type} (f g : A -> B -> A) (xs : list B) (a : A) :
  (forall a b, f a b = g a b) -> fold_left f xs a = fold_left g xs a.
Proof.
  intros E. revert a. induction xs as [|x xs IH]; intros a; cbn; [reflexivity|].
  now rewrite E, IH.
Qed.

(** *** Induction on structured values *)

Lemma value_ind_nested (P : value -> Prop) :
  P VUndefined -> P VNull -> (forall b, P (VBoolean b)) ->
  (forall n, P (VNumber n)) -> (forall s, P (VString s)) ->
  (forall items, Forall P items -> P (VArray items)) ->
  (forall props, Forall (fun p => P (snd p)) props -> P (VObject props)) ->
  forall v, P v.
Proof.
  intros Hu Hn Hb Hnum Hs Ha Ho.
  fix IH 1.
  intros [ | | b | n | s | items | props];
    [exact Hu | exact Hn | apply Hb | apply Hnum | apply Hs | apply Ha | apply Ho].
  - induction items as [|item items IHitems]; constructor;
      [apply IH | exact IHitems].
  - induction props as [|[k v] props IHprops]; constructor;
      [apply IH | exact IHprops].
Qed.

(** *** Reordering the keys does not change the normal form *)

Lemma map_Forall2_eq {A B : Type} (f : A -> B) (R : A -> A -> Prop) (xs ys : list A) :
  Forall2 R xs ys -> Forall (fun x => forall y, R x y -> f x = f y) xs ->
  map f xs = map f ys.
Proof.
  induction 1 as [|x y xs ys Rxy F IH]; intros H; [reflexivity|].
  inversion H; subst. cbn. f_equal; auto.
Qed.

Lemma normalizeObject_key_perm {E : Engine} (maxDecimals : nat) (a : value) :
  wf a -> forall b, key_perm a b ->
  normalizeObject a maxDecimals = normalizeObject b maxDecimals.
Proof.
  induction a as [ | | c | n | s | items IH | props IH] using value_ind_nested;
    intros W b K; inversion K; subst; try reflexivity.
  - (* arrays *)
    cbn. f_equal. inversion W as [| | | | |? Wi|]; subst.
    eapply map_Forall2_eq; [eassumption|].
    rewrite Forall_forall in *. intros x Hx y Kxy. apply IH; auto.
  - (* objects *)
    inversion W as [| | | | | |? Nd Wp]; subst.
    match goal with
    | H : Permutation props ?r, F : Forall2 _ ?r _ |- _ =>
        rename H into Pm; rename F into F2; rename r into reordered
    end.
    match goal with |- _ = normalizeObject (VObject ?p) _ => rename p into props' end.
    assert (IHr : Forall (fun p => wf (snd p) /\
                           forall b, key_perm (snd p) b ->
                             normalizeObject (snd p) maxDecimals
                             = normalizeObject b maxDecimals) reordered).
    { apply (Forall_perm _ props); [exact Pm|]. rewrite Forall_forall in *.
      intros p Hp. split; [now apply Wp | intros b' Kb; apply IH; auto]. }
    assert (Em : map (fun p => (fst p, normalizeObject (snd p) maxDecimals)) reordered
                 = map (fun p => (fst p, normalizeObject (snd p) maxDecimals)) props').
    { clear - F2 IHr. induction F2 as [|x y xs ys [Ek Kv] F2 IHF]; [reflexivity|].
      inversion IHr as [|? ? [Wx Hx] IHr']; subst. cbn. f_equal; [|now apply IHF].
      rewrite Ek. f_equal. now apply Hx. }
    assert (Ek : map fst reordered = map fst props').
    { clear - F2. induction F2 as [|x y xs ys [Ek _] F2 IHF]; [reflexivity|].
      cbn. now rewrite Ek, IHF. }
    cbn. f_equal.
    assert (Es : Array_sort code_unit_order (Object_keys props)
                 = Array_sort code_unit_order (Object_keys props')).
    { apply Array_sort_perm_eq. unfold Object_keys.
      eapply perm_trans; [apply own_keys_perm|].
      eapply perm_trans; [|apply Permutation_sym, own_keys_perm].
      rewrite <- Ek. now apply Permutation_map. }
    rewrite Es. apply fold_left_ext_all. intros sortedObj key. f_equal.
    rewrite <- Em. apply get_perm.
    + rewrite map_map. cbn. exact Nd.
    + now apply Permutation_map.
Qed.

(** *** The rebuilt objects have their keys in ascending order *)

Lemma put_fresh (props : list (string * value)) (key : string) (v : value) :
  ~ In key (map fst props) -> put props key v = (props ++ [(key, v)])%list.
Proof.
  induction props as [|[k w] props IH]; cbn; intros N; [reflexivity|].
  destruct (String.eqb_spec k key) as [-> | _]; [now contradiction N; left|].
  rewrite IH; [reflexivity|]. intros H. apply N. now right.
Qed.

Definition not_proto (key : string) : bool := negb (String.eqb key "__proto__").

Lemma fold_set_fresh (g : string -> value) (keys : list string) :
  NoDup keys ->
  forall acc,
    (forall key, In key keys -> ~ In key (map fst acc)) ->
    fold_left (fun sortedObj key => set sortedObj key (g key)) keys acc
    = (acc ++ map (fun key => (key, g key)) (filter not_proto keys))%list.
Proof.
  induction 1 as [|k keys Hk Hnd IH]; intros acc Hfresh; cbn [fold_left filter].
  - cbn. now rewrite app_nil_r.
  - unfold set at 2, not_proto at 1.
    destruct (String.eqb k "__proto__"); cbn [negb].
    + apply IH. intros key Hin. apply Hfresh. now right.
    + rewrite put_fresh by (apply Hfresh; now left).
      rewrite IH.
      * cbn [map]. now rewrite <- app_assoc.
      * intros key Hin. rewrite map_app, in_app_iff. cbn.
        intros [H | [-> | []]]; [|contradiction].
        revert H. apply Hfresh. now right.
Qed.

Lemma sorted_le_NoDup_lt (keys : list string) :
  StronglySorted code_unit_le keys -> NoDup keys -> StronglySorted code_unit_lt keys.
Proof.
  induction 1 as [|a keys Hs IH Ha]; intros Nd; constructor; inversion Nd; subst; auto.
  rewrite Forall_forall in *. intros b Hb.
  destruct (proj1 (code_unit_le_spec a b) (Ha b Hb)) as [H | ->]; [exact H | contradiction].
Qed.

Lemma StronglySorted_filter {A : Type} (R : A -> A -> Prop) (f : A -> bool) (xs : list A) :
  StronglySorted R xs -> StronglySorted R (filter f xs).
Proof.
  induction 1 as [|a xs Hs IH Ha]; cbn; [constructor|].
  destruct (f a); [|exact IH].
  constructor; [exact IH|].
  rewrite Forall_forall in *. intros b Hb. apply Ha. now apply filter_In in Hb.
Qed.

Lemma get_cases (props : list (string * value)) (key : string) :
  get props key = VUndefined \/ In (get props key) (map snd props).
Proof.
  induction props as [|[k v] props IH]; cbn; [now left|].
  destruct (String.eqb k key); [right; now left|].
  destruct IH as [IH | IH]; [now left | right; now right].
Qed.

Lemma normalizeObject_keys_sorted {E : Engine} (maxDecimals : nat) (v : value) :
  wf v -> keys_sorted (normalizeObject v maxDecimals).
Proof.
  induction v as [ | | c | n | s | items IH | props IH] using value_ind_nested;
    intros W; try (cbn; constructor; fail).
  - cbn. constructor. inversion W; subst. rewrite Forall_forall in *.
    intros y Hy. apply in_map_iff in Hy. destruct Hy as (x & <- & Hx). auto.
  - inversion W as [| | | | | |? Nd Wp]; subst.
    cbn [normalizeObject].
    remember (map (fun p => (fst p, normalizeObject (snd p) maxDecimals)) props)
      as normalized eqn:En.
    set (keys := Array_sort code_unit_order (Object_keys props)).
    assert (Nk : NoDup keys).
    { apply (Permutation_NoDup (l := map fst props)); [|exact Nd].
      apply Permutation_sym.
      eapply perm_trans; [apply Array_sort_perm | apply own_keys_perm]. }
    rewrite (fold_set_fresh (get normalized) keys Nk []) by (intros key _ []).
    cbn [app]. constructor.
    + rewrite map_map. cbn [fst]. rewrite map_id.
      apply StronglySorted_filter, sorted_le_NoDup_lt; [apply Array_sort_sorted | exact Nk].
    + rewrite Forall_forall. intros p Hp.
      apply in_map_iff in Hp. destruct Hp as (key & <- & _). cbn [snd].
      destruct (get_cases normalized key) as [-> | Hin]; [constructor|].
      subst normalized. rewrite map_map in Hin. cbn [snd] in Hin.
      apply in_map_iff in Hin. destruct Hin as (q & <- & Hq).
      rewrite Forall_forall in *. auto.
Qed.

Lemma own_keys_no_index (props : list (string * value)) :
  (forall key, In key (map fst props) -> is_array_index key = false) ->
  own_keys props = map fst props.
Proof.
  intros H. unfold own_keys. cbv zeta.
  assert (E1 : filter is_array_index (map fst props) = []).
  { apply filter_nil_iff. exact H. }
  rewrite E1. cbn.
  induction (map fst props) as [|k ks IH]; cbn; [reflexivity|].
  rewrite (H k (or_introl eq_refl)). cbn. f_equal. apply IH.
  - intros key Hin. apply H. now right.
  - cbn in E1. rewrite (H k (or_introl eq_refl)) in E1. exact E1.
Qed.

Lemma filter_all {A : Type} (f : A -> bool) (xs : list A) :
  (forall x, In x xs -> f x = true) -> filter f xs = xs.
Proof.
  induction xs as [|a xs IH]; intros H; cbn; [reflexivity|].
  rewrite (H a (or_introl eq_refl)). f_equal. apply IH. intros x Hx. apply H. now right.
Qed.

(** *** The text and the documented one *)

Lemma find_texts (F : value -> option string) (props : list (string * value)) (key : string) :
  find (fun kt => String.eqb (fst kt) key) (map (fun p => (fst p, F (snd p))) props)
  = match find (fun p => String.eqb (fst p) key) props with
    | Some p => Some (fst p, F (snd p))
    | None => None
    end.
Proof.
  induction props as [|[k v] props IH]; cbn; [reflexivity|].
  destruct (String.eqb k key); [reflexivity | exact IH].
Qed.

Lemma get_find (N : value -> value) (props : list (string * value)) (key : string) :
  get (map (fun p => (fst p, N (snd p))) props) key
  = match find (fun p => String.eqb (fst p) key) props with
    | Some p => N (snd p)
    | None => VUndefined
    end.
Proof.
  induction props as [|[k v] props IH]; cbn; [reflexivity|].
  destruct (String.eqb k key); [reflexivity | exact IH].
Qed.

Lemma find_keyed (G : string -> option string) (keys : list string) (key : string) :
  In key keys ->
  find (fun kt => String.eqb (fst kt) key) (map (fun k => (k, G k)) keys) = Some (key, G key).
Proof.
  induction keys as [|k keys IH]; cbn; [intros []|].
  destruct (String.eqb_spec k key) as [-> | Hne]; [reflexivity|].
  intros [H | H]; [congruence | now apply IH].
Qed.

Lemma find_present (props : list (string * value)) (key : string) :
  In key (map fst props) ->
  exists p, find (fun p => String.eqb (fst p) key) props = Some p /\ In p props.
Proof.
  induction props as [|[k v] props IH]; cbn; [intros []|].
  destruct (String.eqb_spec k key) as [-> | Hne].
  - intros _. exists (key, v). split; [reflexivity | now left].
  - intros [H | H]; [congruence|]. destruct (IH H) as (p & Hf & Hin).
    exists p. split; [exact Hf | now right].
Qed.

Lemma flat_map_ext_in {A B : Type} (f g : A -> list B) (xs : list A) :
  (forall x, In x xs -> f x = g x) -> flat_map f xs = flat_map g xs.
Proof.
  induction xs as [|a xs IH]; intros H; cbn; [reflexivity|].
  rewrite (H a (or_introl eq_refl)), IH; [reflexivity|].
  intros x Hx. apply H. now right.
Qed.

(** Where no key is an array index or [__proto__], the text that
    [stableStringify] returns is the documented one: the members of
    every object in ascending order of their keys, the elements of every
    array in their order. *)
Lemma stableStringify_text_with_sorted_keys {E : Engine} (maxDecimals : nat) (v : value) :
  wf v -> plain_keys v ->
  stableStringify v maxDecimals = text_with_sorted_keys v maxDecimals.
Proof.
  unfold stableStringify. cbv zeta.
  induction v as [ | | c | n | s | items IH | props IH] using value_ind_nested;
    intros W P; try reflexivity.
  - cbn [normalizeObject JSON_stringify text_with_sorted_keys]. rewrite map_map.
    do 4 f_equal. apply map_ext_in. intros item Hin.
    inversion W as [| | | | |? Wi|]; subst. inversion P as [| | | | |? Pi|]; subst.
    rewrite Forall_forall in *. now rewrite IH by auto.
  - inversion W as [| | | | | |? Nd Wp]; subst. inversion P as [| | | | | |? Pp]; subst.
    rewrite Forall_forall in *.
    assert (Hplain : forall key, In key (map fst props) -> plain_key key = true).
    { intros key Hk. apply in_map_iff in Hk. destruct Hk as (p & <- & Hp). now apply Pp. }
    assert (Hidx : forall key, In key (map fst props) -> is_array_index key = false).
    { intros key Hk. specialize (Hplain key Hk). unfold plain_key in Hplain.
      apply andb_true_iff in Hplain. destruct Hplain as [H _]. now apply negb_true_iff in H. }
    cbn [normalizeObject].
    unfold Object_keys. rewrite (own_keys_no_index props Hidx).
    set (keys := Array_sort code_unit_order (map fst props)).
    assert (Hkeys : forall key, In key keys <-> In key (map fst props)).
    { intros key. apply Array_sort_In. }
    assert (Nk : NoDup keys).
    { apply (Permutation_NoDup (l := map fst props)); [|exact Nd].
      apply Permutation_sym, Array_sort_perm. }
    set (normalized := map (fun p => (fst p, normalizeObject (snd p) maxDecimals)) props).
    rewrite (fold_set_fresh (get normalized) keys Nk []) by (intros key _ []).
    cbn [app].
    rewrite (filter_all not_proto keys).
    2:{ intros key Hk. apply Hkeys in Hk. specialize (Hplain key Hk).
        unfold plain_key in Hplain. apply andb_true_iff in Hplain. tauto. }
    cbn [JSON_stringify text_with_sorted_keys]. fold keys.
    rewrite (own_keys_no_index (map (fun key => (key, get normalized key)) keys)).
    2:{ intros key Hk. rewrite map_map in Hk. cbn [fst] in Hk. rewrite map_id in Hk.
        apply Hidx. now apply Hkeys. }
    rewrite !map_map. cbn [fst snd]. rewrite map_id.
    do 4 f_equal. unfold members. apply flat_map_ext_in. intros key Hk.
    rewrite (find_keyed (fun k => JSON_stringify (get normalized k)) keys key Hk).
    rewrite (find_texts (fun v => text_with_sorted_keys v maxDecimals)).
    subst normalized. rewrite (get_find (fun v => normalizeObject v maxDecimals)).
    destruct (find_present props key (proj1 (Hkeys key) Hk)) as (p & -> & Hp).
    rewrite IH; [reflexivity | exact Hp | now apply Wp | now apply Pp].
Qed.

(** The text does not depend on the order in which the properties of
    the objects were created, at any depth. *)
Lemma stableStringify_key_perm {E : Engine} (maxDecimals : nat) (a b : value) :
  wf a -> key_perm a b -> stableStringify a maxDecimals = stableStringify b maxDecimals.
Proof.
  intros W K. unfold stableStringify. cbv zeta.
  now rewrite (normalizeObject_key_perm maxDecimals a W b K).
Qed.

(** C7, where the code departs from it.  The comment of
    [stableStringify] promises the keys sorted alphabetically, and the
    code sorts them; but it stores them in a fresh object, and
    [JSON.stringify] lists the keys that are array indices first, by
    numeric value: the object with the keys 10 and 9 is written with 9
    before 10, where the sorted order has 10 first.  The rest holds: the
    text is the same for every order in which the properties were
    created, at every depth; and where no key is an array index or
    [__proto__], it is the documented text, with the keys in ascending
    order at every level and the array elements in their order. *)
Theorem stableStringify_array_index_keys_first :
  forall E : Engine,
    stableStringify ten_nine 6
    = Some ("{" ++ quote "9" ++ ":" ++ quote "b" ++ ","
                ++ quote "10" ++ ":" ++ quote "a" ++ "}")
    /\ text_with_sorted_keys ten_nine 6
       = Some ("{" ++ quote "10" ++ ":" ++ quote "a" ++ ","
                   ++ quote "9" ++ ":" ++ quote "b" ++ "}")
    /\ code_unit_lt "10" "9"
    /\ (forall (a b : value) (maxDecimals : nat),
           wf a -> key_perm a b ->
           stableStringify a maxDecimals = stableStringify b maxDecimals)
    /\ (forall (v : value) (maxDecimals : nat),
           wf v -> plain_keys v ->
           stableStringify v maxDecimals = text_with_sorted_keys v maxDecimals).
Proof.
  intros E. split; [reflexivity|]. split; [reflexivity|]. split; [reflexivity|]. split.
  - intros a b maxDecimals. apply stableStringify_key_perm.
  - intros v maxDecimals. apply stableStringify_text_with_sorted_keys.
Qed.

Lemma wf_nested_1 : wf nested_1.
Proof.
  unfold nested_1. constructor.
  - cbn. repeat constructor; cbn; intuition discriminate.
  - repeat constructor; cbn; intuition discriminate.
Qed.

Lemma key_perm_nested : key_perm nested_1 nested_2.
Proof.
  unfold nested_1, nested_2.
  eapply kp_object; [apply perm_swap|].
  constructor; [split; [reflexivity | constructor] |].
  constructor; [|constructor].
  split; [reflexivity|].
  eapply kp_object; [apply perm_swap|].
  repeat constructor.
Qed.

Lemma plain_keys_nested_1 : plain_keys nested_1.
Proof. unfold nested_1. repeat constructor. Qed.

Lemma stableStringify_array_index_keys_first_witness :
  stableStringify (E := Ecma262.engine) nested_1 6
  = stableStringify (E := Ecma262.engine) nested_2 6
  /\ stableStringify (E := Ecma262.engine) nested_1 6
     = text_with_sorted_keys (E := Ecma262.engine) nested_1 6.
Proof.
  split.
  - apply (proj1 (proj2 (proj2 (proj2
             (stableStringify_array_index_keys_first Ecma262.engine))))
             nested_1 nested_2 6%nat).
    + exact wf_nested_1.
    + exact key_perm_nested.
  - apply (proj2 (proj2 (proj2 (proj2
             (stableStringify_array_index_keys_first Ecma262.engine))))
             nested_1 6%nat).
    + exact wf_nested_1.
    + exact plain_keys_nested_1.
Defined.

(** The expectations of the test suite on the serializer. *)
Example stableStringify_test_key_order :
  stableStringify (E := Ecma262.engine)
    (VObject [("a", VNumber 1); ("b", VNumber 2); ("c", VNumber 3)]) 6
  = stableStringify (E := Ecma262.engine)
      (VObject [("c", VNumber 3); ("a", VNumber 1); ("b", VNumber 2)]) 6
  /\ stableStringify (E := Ecma262.engine) nested_1 6
     = Some ("{" ++ quote "a" ++ ":{" ++ quote "x" ++ ":1," ++ quote "y" ++ ":2},"
                 ++ quote "b" ++ ":3}")
  /\ stableStringify (E := Ecma262.engine)
       (VObject [("value", VNumber 1.234567890123456)]) 6
     = Some ("{" ++ quote "value" ++ ":1.234568}").
Proof. split; [|split]; vm_compute; reflexivity. Qed.

(** ** The expectations of the test suite and of the README

    The model run on the inputs of the repository's tests. *)

Example roundStable_tests :
  roundStable 1.5 0 HALF_UP = 2%float
  /\ roundStable 2.5 0 HALF_UP = 3%float
  /\ roundStable 1.4 0 HALF_UP = 1%float
  /\ roundStable 1.9 0 DOWN = 1%float
  /\ roundStable 2.1 0 DOWN = 2%float
  /\ roundStable (-1.9) 0 DOWN = (-2)%float
  /\ roundStable 1.9 0 TRUNC = 1%float
  /\ roundStable 2.1 0 TRUNC = 2%float
  /\ roundStable (-1.9) 0 TRUNC = (-1)%float
  /\ roundStable 1.234567 2 HALF_UP = 1.23%float
  /\ roundStable 1.235567 2 HALF_UP = 1.24%float.
Proof. repeat split. Qed.

Example conversion_tests :
  toCO2eKg (E := Ecma262.engine) 1000 "kWh" 0.5 = Ok 500%float
  /\ toCO2eTonnes (E := Ecma262.engine) 1000 "kWh" 0.5 = Ok 0.5%float
  /\ toCO2eTonnes (E := Ecma262.engine) 1 "MWh" 0.5 = Ok 0.5%float
  /\ normalizeToKWh 1000 "invalid" = Throw (InvalidUnitError "invalid")
  /\ (let* t := toCO2eTonnes (E := Ecma262.engine) 12345.678 "kWh" 0.708 in
      Ok (roundStable t 6 HALF_UP)) = Ok 8.74074%float
  /\ (let* r := avoidedEmissions (E := Ecma262.engine)
                  {| AvoidedInput.energy := 5100; AvoidedInput.inputUnit := "kWh";
                     AvoidedInput.factorKgPerKWh := 0.708;
                     AvoidedInput.rounding := None |} in
      Ok (AvoidedResult.tCO2e r, AvoidedResult.kgCO2e r))
     = Ok (3.6108%float, 3610.8%float).
Proof. repeat split. Qed.

Example resolveFactor_tests :
  resolveFactor loaded (query "IN" baseline None) = Ok (Some IN_2024_BASELINE)
  /\ resolveFactor loaded (query "WORLD" baseline None) = Ok (Some WORLD_DEFAULT_2024)
  /\ resolveFactor loaded (query "IN" baseline (Some "2024-06-15"))
     = Ok (Some IN_2024_BASELINE)
  /\ resolveFactor loaded (query "UNKNOWN" baseline None) = Ok (Some WORLD_DEFAULT_2024)
  /\ resolveFactor loaded (query "ind" baseline None) = Ok (Some IN_2024_BASELINE)
  /\ resolveFactor loaded (query "IN" marginal None) = Throw (UnknownRegionError "IN").
Proof. repeat split. Qed.

(* ===================================================================== *)
(** * Further properties                                                   *)
(* ===================================================================== *)

(** ** The factor chosen for a date *)

Lemma before_or_equal_most_recent (a b : Factor.t) (x y : Z) :
  from_time a = Some x -> from_time b = Some y ->
  before_or_equal most_recent_first a b = (y <=? x).
Proof.
  unfold before_or_equal, most_recent_first, from_time. intros -> ->.
  destruct (Z.leb_spec y x), (Z.leb_spec (y - x) 0); reflexivity || lia.
Qed.

(** The head of the rows sorted most recent first, when every row has a
    valid [effectiveFrom]. *)
Lemma Array_sort_most_recent_head (rows : list Factor.t) :
  Forall (fun g => from_time g <> None) rows -> rows <> [] ->
  exists f, nth_error (Array_sort most_recent_first rows) 0 = Some f
            /\ latest_first_of f rows.
Proof.
  induction rows as [|a rows IH]; intros Hv Hne; [congruence|].
  inversion Hv as [|? ? Ha Hrows]; subst.
  destruct (from_time a) as [x|] eqn:Ea; [|congruence].
  destruct rows as [|b rows'].
  - exists a. split; [reflexivity|]. exists [], []. repeat split; constructor.
  - destruct (IH Hrows ltac:(discriminate)) as (h & Hh & earlier & later & El & He & Hl).
    change (Array_sort most_recent_first (a :: b :: rows'))
      with (insert_sorted most_recent_first a (Array_sort most_recent_first (b :: rows'))).
    destruct (Array_sort most_recent_first (b :: rows')) as [|h' sorted]; [discriminate|].
    cbn [nth_error] in Hh. injection Hh as ->.
    assert (Hin : In h (b :: rows')) by (rewrite El; apply in_elt).
    rewrite Forall_forall in Hrows. pose proof (Hrows h Hin) as Hvh.
    destruct (from_time h) as [y|] eqn:Eh; [|congruence].
    cbn [insert_sorted]. rewrite (before_or_equal_most_recent a h x y Ea Eh).
    destruct (Z.leb_spec y x) as [Hle | Hlt].
    + exists a. split; [reflexivity|]. exists [], (b :: rows'). repeat split; [constructor|].
      rewrite El. rewrite Forall_forall in *. intros g Hg.
      apply in_app_or in Hg. rewrite Ea. destruct Hg as [Hg | [<- | Hg]].
      * specialize (He g Hg). unfold Date_ltb in He.
        destruct (from_time g) as [z|]; [|discriminate]. cbn.
        apply Z.ltb_lt in He. apply Z.leb_le. lia.
      * rewrite Eh. cbn. now apply Z.leb_le.
      * specialize (Hl g Hg). unfold Date_leb in Hl.
        destruct (from_time g) as [z|]; [|discriminate]. cbn.
        apply Z.leb_le in Hl. apply Z.leb_le. lia.
    + exists h. split; [reflexivity|]. exists (a :: earlier), later. repeat split.
      * now rewrite El.
      * rewrite Eh. constructor; [|exact He]. rewrite Ea. cbn. now apply Z.ltb_lt.
      * rewrite Eh. exact Hl.
Qed.

Lemma effective_on_from_valid (targetDate : Date) (g : Factor.t) :
  effective_on targetDate g = true -> from_time g <> None.
Proof.
  unfold effective_on, from_time. intros H. apply andb_true_iff in H. destruct H as [H _].
  unfold Date_geb in H. destruct targetDate; [|discriminate].
  destruct (new_Date (Factor.effectiveFrom g)); discriminate.
Qed.

(** X1. With a date, the factor that [resolveFactor] returns is
    effective on that date and, of the candidates by region and scope
    that are effective on it, has the latest [effectiveFrom]; of several
    with that same latest start, it is the one that comes first in the
    table. *)
Theorem resolveFactor_latest_effective
  (reg : Registry) (options : FactorResolutionOptions.t) (date : string) (f : Factor.t) :
  truthy (FactorResolutionOptions.date options) = Some date ->
  resolveFactor reg options = Ok (Some f) ->
  effective_on (new_Date date) f = true
  /\ latest_first_of f
       (filter (effective_on (new_Date date))
          (region_candidates (factor_pack reg options)
             (normalizeRegionCode reg (requested_region options))
             (requested_scope options))).
Proof.
  intros Hdate. rewrite resolveFactor_unfold. cbv zeta. rewrite Hdate.
  destruct (factor_pack reg options) as [|f0 pack]; [discriminate|].
  destruct (region_candidates _ _ _) as [|c0 cs]; [discriminate|].
  set (survivors := filter (effective_on (new_Date date)) (c0 :: cs)).
  destruct survivors as [|s0 ss] eqn:S; [discriminate|].
  rewrite <- S. intros R.
  assert (Hv : Forall (fun g => from_time g <> None) survivors).
  { apply Forall_forall. intros g Hg. apply filter_In in Hg.
    apply (effective_on_from_valid (new_Date date)). tauto. }
  destruct (Array_sort_most_recent_head survivors Hv ltac:(rewrite S; discriminate))
    as (h & Hh & Hlatest).
  rewrite Hh in R. injection R as <-. split; [|exact Hlatest].
  destruct Hlatest as (earlier & later & El & _).
  assert (Hin : In h survivors) by (rewrite El; apply in_elt).
  apply filter_In in Hin. tauto.
Qed.

Lemma resolveFactor_latest_effective_witness :
  effective_on (new_Date "2025-06-15") IN_2024_A = true
  /\ latest_first_of IN_2024_A
       (filter (effective_on (new_Date "2025-06-15"))
          (region_candidates history (normalizeRegionCode revised "in") baseline)).
Proof.
  apply (resolveFactor_latest_effective revised
           (query "in" baseline (Some "2025-06-15")) "2025-06-15" IN_2024_A);
    reflexivity.
Defined.

(** ** The other outcomes of a resolution *)

Lemma region_candidates_nil (pack : list Factor.t) (r : string) (scope : Scope) :
  region_candidates pack r scope = []
  <-> filter (matches r scope) pack = [] /\ filter (matches "WORLD" scope) pack = [].
Proof.
  destruct (filter (matches r scope) pack) as [|o0 os] eqn:Own.
  - rewrite (region_candidates_fallback _ _ _ Own). tauto.
  - rewrite region_candidates_own by (rewrite Own; discriminate). rewrite Own.
    split; [discriminate | intros [H _]; discriminate].
Qed.

(** X2. [resolveFactor] throws [UnknownRegionError] exactly when the
    table in use is not empty and holds no factor of the requested scope
    for the normalized region nor for WORLD; the date plays no part, and
    the error carries the region as the caller wrote it. *)
Theorem resolveFactor_unknown_region
  (reg : Registry) (options : FactorResolutionOptions.t) (r : string) :
  resolveFactor reg options = Throw (UnknownRegionError r)
  <-> factor_pack reg options <> []
      /\ filter (matches (normalizeRegionCode reg (requested_region options))
                   (requested_scope options)) (factor_pack reg options) = []
      /\ filter (matches "WORLD" (requested_scope options)) (factor_pack reg options) = []
      /\ r = requested_region options.
Proof.
  rewrite resolveFactor_unfold. cbv zeta.
  pose proof (region_candidates_nil (factor_pack reg options)
                (normalizeRegionCode reg (requested_region options))
                (requested_scope options)) as Hnil.
  destruct (factor_pack reg options) as [|p0 pack].
  - split; [discriminate | intros (H & _); congruence].
  - destruct (region_candidates _ _ _) as [|c0 cs].
    + destruct (proj1 Hnil eq_refl) as [Ho Hw]. split.
      * intros R. injection R as <-. repeat split; auto. discriminate.
      * intros (_ & _ & _ & ->). reflexivity.
    + split.
      * destruct (truthy _) as [date|]; [|discriminate].
        destruct (filter _ (c0 :: cs)); discriminate.
      * intros (_ & Ho & Hw & _).
        assert (Hc : c0 :: cs = []) by (apply Hnil; tauto). discriminate Hc.
Qed.

Lemma region_candidates_In (pack : list Factor.t) (r : string) (scope : Scope) (f : Factor.t) :
  In f (region_candidates pack r scope) ->
  In f pack /\ Factor.scope f = scope /\ (Factor.region f = r \/ Factor.region f = "WORLD").
Proof.
  unfold region_candidates. cbv zeta.
  destruct (_ && _); intros H; apply filter_In in H; destruct H as [Hin Hm];
    apply matches_spec in Hm; tauto.
Qed.

(** X3. A factor that [resolveFactor] returns is a row of the table in
    use (the overrides when they are given, the loaded pack otherwise),
    has the requested scope (baseline by default), and its region is the
    normalized requested region or WORLD: no factor of another scope or
    of a third region is ever returned. *)
Theorem resolveFactor_sound
  (reg : Registry) (options : FactorResolutionOptions.t) (f : Factor.t) :
  resolveFactor reg options = Ok (Some f) ->
  In f (factor_pack reg options)
  /\ Factor.scope f = requested_scope options
  /\ (Factor.region f = normalizeRegionCode reg (requested_region options)
      \/ Factor.region f = "WORLD").
Proof.
  intros R. apply resolveFactor_among_candidates in R.
  now apply region_candidates_In in R.
Qed.

Lemma resolveFactor_sound_witness :
  In US_2024_BASELINE (factor_pack loaded (query "usa" baseline (Some "2030-01-01")))
  /\ Factor.scope US_2024_BASELINE = requested_scope (query "usa" baseline (Some "2030-01-01"))
  /\ (Factor.region US_2024_BASELINE
      = normalizeRegionCode loaded (requested_region (query "usa" baseline (Some "2030-01-01")))
      \/ Factor.region US_2024_BASELINE = "WORLD").
Proof.
  apply (resolveFactor_sound loaded (query "usa" baseline (Some "2030-01-01"))
           US_2024_BASELINE).
  reflexivity.
Defined.

(** ** Region codes are read without regard to case *)

Lemma upper_char_idempotent (c : ascii) : upper_char (upper_char c) = upper_char c.
Proof. destruct c as [[] [] [] [] [] [] [] []]; reflexivity. Qed.

Lemma toUpperCase_idempotent (s : string) : toUpperCase (toUpperCase s) = toUpperCase s.
Proof.
  induction s as [|c s IH]; cbn; [reflexivity|]. now rewrite upper_char_idempotent, IH.
Qed.

Lemma normalizeRegionCode_upper (reg : Registry) (r : string) :
  normalizeRegionCode reg (toUpperCase r) = normalizeRegionCode reg r.
Proof.
  destruct r as [|c r]; [reflexivity|].
  unfold normalizeRegionCode. rewrite toUpperCase_idempotent. reflexivity.
Qed.

(** X4. The case of the letters of a region code does not matter:
    for any registry, scope, date and overrides, [resolveFactor] returns
    a factor for the region [r] exactly when it returns it for [r] in
    upper case (the errors differ only in the region text they carry). *)
Theorem resolveFactor_region_case_insensitive
  (reg : Registry) (options : FactorResolutionOptions.t) (r : string) (f : option Factor.t) :
  resolveFactor reg (with_region options r) = Ok f
  <-> resolveFactor reg (with_region options (toUpperCase r)) = Ok f.
Proof.
  rewrite !resolveFactor_unfold. cbv zeta.
  change (requested_region (with_region options r)) with r.
  change (requested_region (with_region options (toUpperCase r))) with (toUpperCase r).
  change (factor_pack reg (with_region options (toUpperCase r)))
    with (factor_pack reg (with_region options r)).
  change (requested_scope (with_region options (toUpperCase r)))
    with (requested_scope (with_region options r)).
  change (FactorResolutionOptions.date (with_region options (toUpperCase r)))
    with (FactorResolutionOptions.date (with_region options r)).
  rewrite normalizeRegionCode_upper.
  destruct (factor_pack reg (with_region options r)) as [|p0 pack]; [split; discriminate|].
  destruct (region_candidates _ _ _) as [|c0 cs]; [split; discriminate|].
  destruct (truthy _) as [date|]; [|reflexivity].
  destruct (filter _ _); [split; discriminate | reflexivity].
Qed.

(** ** The latest factor of a region *)

Lemma scope_name_eqb (a b : Scope) :
  String.eqb (Scope_toString a) (Scope_toString b) = Scope_eqb a b.
Proof. destruct a, b; reflexivity. Qed.

Lemma getFactorsByRegionAndScope_matches (reg : Registry) (region : string) (scope : Scope) :
  getFactorsByRegionAndScope reg region (Scope_toString scope)
  = filter (matches (normalizeRegionCode reg region) scope) (defaultFactorPack reg).
Proof.
  unfold getFactorsByRegionAndScope. cbv zeta. apply filter_ext. intros f.
  unfold matches. now rewrite scope_name_eqb.
Qed.

(** X5. When every factor of the region and scope has a valid
    [effectiveFrom], [getLatestFactor] returns the one with the latest
    [effectiveFrom], the first of them in the table when several start
    on that day; it returns [null] exactly when the loaded pack has no
    factor of that region (normalized, without fallback to WORLD) and
    scope. *)
Theorem getLatestFactor_latest (reg : Registry) (region scope : string) :
  Forall (fun g => from_time g <> None) (getFactorsByRegionAndScope reg region scope) ->
  match getLatestFactor reg region scope with
  | Some f => latest_first_of f (getFactorsByRegionAndScope reg region scope)
  | None => getFactorsByRegionAndScope reg region scope = []
  end.
Proof.
  intros Hv. unfold getLatestFactor. cbv zeta.
  destruct (getFactorsByRegionAndScope reg region scope) as [|f0 fs] eqn:F; [reflexivity|].
  cbn [List.length Nat.eqb].
  destruct (Array_sort_most_recent_head (f0 :: fs) Hv ltac:(discriminate)) as (h & Hh & Hl).
  now rewrite Hh.
Qed.

Lemma getLatestFactor_latest_witness :
  latest_first_of IN_2024_A (getFactorsByRegionAndScope revised "ind" "baseline").
Proof.
  apply (getLatestFactor_latest revised "ind" "baseline").
  repeat constructor; discriminate.
Defined.

(** X6. On the loaded pack, for a region that has factors of the scope
    and a date on which all of them are effective, [resolveFactor] with
    that date returns what [getLatestFactor] returns. *)
Theorem resolveFactor_agrees_with_getLatestFactor
  (reg : Registry) (region : string) (scope : Scope) (date : string) :
  getFactorsByRegionAndScope reg region (Scope_toString scope) <> [] ->
  (forall g, In g (getFactorsByRegionAndScope reg region (Scope_toString scope)) ->
             effective_on (new_Date date) g = true) ->
  resolveFactor reg (query region scope (Some date))
  = Ok (getLatestFactor reg region (Scope_toString scope)).
Proof.
  intros Hne Hall. unfold getLatestFactor. cbv zeta.
  rewrite getFactorsByRegionAndScope_matches in *.
  rewrite resolveFactor_unfold. cbv zeta.
  change (requested_region (query region scope (Some date))) with region.
  change (requested_scope (query region scope (Some date))) with scope.
  change (factor_pack reg (query region scope (Some date))) with (defaultFactorPack reg).
  change (FactorResolutionOptions.date (query region scope (Some date))) with (Some date).
  rewrite (region_candidates_own _ _ _ Hne).
  set (own := filter (matches (normalizeRegionCode reg region) scope) (defaultFactorPack reg))
    in *.
  assert (Hdate : truthy (Some date) = Some date).
  { destruct date as [|c d]; [|reflexivity]. exfalso.
    destruct own as [|g gs]; [congruence|].
    specialize (Hall g (or_introl eq_refl)). discriminate Hall. }
  rewrite Hdate, (filter_all _ _ Hall).
  destruct (defaultFactorPack reg) as [|p0 pack] eqn:P.
  - exfalso. apply Hne. reflexivity.
  - destruct own as [|g gs]; [congruence|]. reflexivity.
Qed.

Lemma resolveFactor_agrees_with_getLatestFactor_witness :
  resolveFactor revised (query "IN" baseline (Some "2024-06-15"))
  = Ok (getLatestFactor revised "IN" (Scope_toString baseline)).
Proof.
  apply (resolveFactor_agrees_with_getLatestFactor revised "IN" baseline "2024-06-15").
  - discriminate.
  - intros g Hg. cbn in Hg.
    repeat (destruct Hg as [<- | Hg]; [reflexivity|]). destruct Hg.
Defined.

(** ** The listings of the registry *)

Lemma filter_filter {A : Type} (f g : A -> bool) (xs : list A) :
  filter g (filter f xs) = filter (fun x => f x && g x) xs.
Proof.
  induction xs as [|a xs IH]; cbn; [reflexivity|].
  destruct (f a); cbn; [destruct (g a)|]; now rewrite IH.
Qed.

Lemma truthy_nonempty (s : string) : s <> "" -> truthy (Some s) = Some s.
Proof. destruct s; [congruence | reflexivity]. Qed.

(** X7. For a region and a scope that are not empty strings,
    [listFactors({ region, scope })] is
    [getFactorsByRegionAndScope(region, scope)]: the same rows in the
    same order.  (For an empty region the two differ: the filter is
    skipped by the first and reads WORLD in the second.) *)
Theorem listFactors_by_region_and_scope (reg : Registry) (region scope : string) :
  region <> "" -> scope <> "" ->
  listFactors reg (Some {| FactorFilter.region := Some region;
                           FactorFilter.scope := Some scope;
                           FactorFilter.from := None;
                           FactorFilter.to := None |})
  = getFactorsByRegionAndScope reg region scope.
Proof.
  intros Hr Hs. unfold listFactors, getFactorsByRegionAndScope. cbv zeta.
  cbn [FactorFilter.region FactorFilter.scope FactorFilter.from FactorFilter.to].
  rewrite (truthy_nonempty _ Hr), (truthy_nonempty _ Hs). cbn [truthy].
  apply filter_filter.
Qed.

Lemma listFactors_by_region_and_scope_witness :
  listFactors revised (Some {| FactorFilter.region := Some "ind";
                               FactorFilter.scope := Some "marginal";
                               FactorFilter.from := None;
                               FactorFilter.to := None |})
  = getFactorsByRegionAndScope revised "ind" "marginal".
Proof.
  apply (listFactors_by_region_and_scope revised "ind" "marginal"); discriminate.
Defined.

(** X8. With a window of two valid dates [from] and [to],
    [listFactors({ from, to })] lists a factor whose dates are valid
    exactly when it is in the loaded pack and its range, which ends on
    2099-12-31 when it has no [effectiveTo], meets the window: it does
    not end before [from] and does not start after [to].  The range need
    not lie inside the window. *)
Theorem listFactors_window_overlap
  (reg : Registry) (from to : string) (a b : Z) (f : Factor.t) (x y : Z) :
  new_Date from = Some a -> new_Date to = Some b ->
  from_time f = Some x -> to_time f = Some y ->
  In f (listFactors reg (Some (window from to)))
  <-> In f (defaultFactorPack reg) /\ a <= y /\ x <= b.
Proof.
  intros Ha Hb Hx Hy. unfold listFactors. cbv zeta.
  cbn [window FactorFilter.region FactorFilter.scope FactorFilter.from FactorFilter.to].
  assert (Hf : truthy (Some from) = Some from).
  { apply truthy_nonempty. intros ->. discriminate Ha. }
  assert (Ht : truthy (Some to) = Some to).
  { apply truthy_nonempty. intros ->. discriminate Hb. }
  rewrite Hf. cbn [truthy]. rewrite filter_In.
  unfold in_window. cbn [window FactorFilter.from FactorFilter.to]. rewrite Hf, Ht.
  unfold from_time, to_time in *. rewrite Hx, Hy, Ha, Hb. cbn [Date_ltb].
  rewrite andb_true_iff, !negb_true_iff, !Z.ltb_ge. tauto.
Qed.

Lemma listFactors_window_overlap_witness :
  In IN_2022 (listFactors revised (Some (window "2024-12-31" "2025-12-31"))).
Proof.
  apply (proj2 (listFactors_window_overlap revised "2024-12-31" "2025-12-31" _ _ IN_2022 _ _
                  eq_refl eq_refl eq_refl eq_refl)).
  split; [now left | split; vm_compute; discriminate].
Defined.

(** A factor resolved for a date is effective on it. *)
Lemma resolveFactor_effective
  (reg : Registry) (options : FactorResolutionOptions.t) (date : string) (f : Factor.t) :
  truthy (FactorResolutionOptions.date options) = Some date ->
  resolveFactor reg options = Ok (Some f) ->
  effective_on (new_Date date) f = true.
Proof.
  intros Hdate. rewrite resolveFactor_unfold. cbv zeta. rewrite Hdate.
  destruct (factor_pack reg options) as [|f0 pack]; [discriminate|].
  destruct (region_candidates _ _ _) as [|c0 cs]; [discriminate|].
  destruct (filter _ _) as [|s0 ss] eqn:S; [discriminate|].
  destruct (nth_error (Array_sort most_recent_first (s0 :: ss)) 0) as [g|] eqn:N;
    [|discriminate].
  intros R. injection R as ->. apply nth_error_In, Array_sort_In in N.
  rewrite <- S in N. apply filter_In in N. tauto.
Qed.

Lemma Date_geb_not_ltb (a b : Date) : Date_geb a b = true -> Date_ltb a b = false.
Proof.
  destruct a as [x|], b as [y|]; cbn; try discriminate.
  intros H. apply Z.leb_le in H. apply Z.ltb_ge. lia.
Qed.

Lemma Date_leb_not_ltb (a b : Date) : Date_leb a b = true -> Date_ltb b a = false.
Proof.
  destruct a as [x|], b as [y|]; cbn; try discriminate.
  intros H. apply Z.leb_le in H. apply Z.ltb_ge. lia.
Qed.

(** X9. Resolution and listing agree on dates: a factor that
    [resolveFactor] returns from the loaded pack (no overrides) for a
    date is among the factors that [listFactors] lists for the window
    that begins and ends on that date. *)
Theorem resolveFactor_is_listed
  (reg : Registry) (options : FactorResolutionOptions.t) (date : string) (f : Factor.t) :
  FactorResolutionOptions.overrides options = None ->
  truthy (FactorResolutionOptions.date options) = Some date ->
  resolveFactor reg options = Ok (Some f) ->
  In f (listFactors reg (Some (window date date))).
Proof.
  intros Hov Hdate R.
  pose proof (resolveFactor_effective reg options date f Hdate R) as Heff.
  apply resolveFactor_among_candidates, region_candidates_In in R.
  destruct R as [Hin _]. unfold factor_pack in Hin. rewrite Hov in Hin.
  assert (Hd : truthy (Some date) = Some date).
  { destruct (FactorResolutionOptions.date options) as [[|c d]|]; cbn in Hdate;
      try discriminate. now injection Hdate as <-. }
  unfold listFactors. cbv zeta.
  cbn [window FactorFilter.region FactorFilter.scope FactorFilter.from FactorFilter.to].
  rewrite Hd. cbn [truthy]. apply filter_In. split; [exact Hin|].
  unfold in_window. cbn [window FactorFilter.from FactorFilter.to]. rewrite Hd.
  unfold effective_on in Heff. apply andb_true_iff in Heff. destruct Heff as [Hge Hle].
  apply Date_leb_not_ltb in Hle.
  assert (Hfrom : Date_ltb (new_Date date) (new_Date (Factor.effectiveFrom f)) = false).
  { unfold Date_geb in Hge. unfold Date_ltb.
    destruct (new_Date date), (new_Date (Factor.effectiveFrom f)); try discriminate Hge.
    apply Z.leb_le in Hge. apply Z.ltb_ge. lia. }
  now rewrite Hle, Hfrom.
Qed.

Lemma resolveFactor_is_listed_witness :
  In IN_2024_A (listFactors revised (Some (window "2025-06-15" "2025-06-15"))).
Proof.
  apply (resolveFactor_is_listed revised (query "IN" baseline (Some "2025-06-15"))
           "2025-06-15" IN_2024_A); reflexivity.
Defined.

(** *** Sets of strings *)

Lemma Set_add_In (set : list string) (x y : string) :
  In y (Set_add set x) <-> In y set \/ y = x.
Proof.
  unfold Set_add. destruct (existsb (String.eqb x) set) eqn:Ex.
  - apply existsb_exists in Ex. destruct Ex as (z & Hz & E). apply String.eqb_eq in E.
    subst z. split; [tauto | intros [H | ->]; assumption].
  - rewrite in_app_iff. cbn. intuition congruence.
Qed.

Lemma Set_add_NoDup (set : list string) (x : string) : NoDup set -> NoDup (Set_add set x).
Proof.
  intros Nd. unfold Set_add. destruct (existsb (String.eqb x) set) eqn:Ex; [exact Nd|].
  apply NoDup_app; [exact Nd | repeat constructor; intros [] | ].
  intros y Hy [E | []]. subst y.
  assert (existsb (String.eqb x) set = true); [|congruence].
  apply existsb_exists. exists x. split; [exact Hy | apply String.eqb_refl].
Qed.

Lemma fold_Set_add {A : Type} (name : A -> string) (rows : list A) (set : list string) :
  let all := fold_left (fun set row => Set_add set (name row)) rows set in
  (NoDup set -> NoDup all)
  /\ (forall y, In y all <-> In y set \/ exists row, In row rows /\ name row = y).
Proof.
  revert set. induction rows as [|a rows IH]; intros set; cbn.
  - split; [tauto|]. intros y. split; [tauto | intros [H | (row & [] & _)]; exact H].
  - destruct (IH (Set_add set (name a))) as [Hn Hi]. split.
    + intros Nd. apply Hn. now apply Set_add_NoDup.
    + intros y. rewrite Hi, Set_add_In. split.
      * intros [[H | ->] | (row & Hrow & E)]; [tauto | right; exists a; tauto |].
        right. exists row. tauto.
      * intros [H | (row & [<- | Hrow] & E)]; [tauto | left; right; congruence |].
        right. exists row. tauto.
Qed.

Lemma sorted_set (names : list string) :
  NoDup names ->
  StronglySorted code_unit_lt (Array_sort code_unit_order names).
Proof.
  intros Nd. apply sorted_le_NoDup_lt; [apply Array_sort_sorted|].
  eapply Permutation_NoDup; [apply Permutation_sym, Array_sort_perm | exact Nd].
Qed.

(** X10. [getAvailableRegions()] lists the regions of the loaded pack,
    each once, in strictly ascending order of code units; and
    [getAvailableScopes(region?)] does the same for the scopes of the
    factors of the normalized region, or of all factors when the region
    is absent or empty. *)
Theorem listings_sorted_distinct_complete (reg : Registry) :
  (StronglySorted code_unit_lt (getAvailableRegions reg)
   /\ forall name,
        In name (getAvailableRegions reg)
        <-> exists factor, In factor (defaultFactorPack reg) /\ Factor.region factor = name)
  /\ forall region : option string,
       StronglySorted code_unit_lt (getAvailableScopes reg region)
       /\ forall name,
            In name (getAvailableScopes reg region)
            <-> exists factor,
                  In factor (defaultFactorPack reg)
                  /\ Scope_toString (Factor.scope factor) = name
                  /\ match truthy region with
                     | Some r => Factor.region factor = normalizeRegionCode reg r
                     | None => True
                     end.
Proof.
  split.
  - unfold getAvailableRegions. cbv zeta.
    destruct (fold_Set_add Factor.region (defaultFactorPack reg) []) as [Hn Hi]. split.
    + apply sorted_set, Hn. constructor.
    + intros name. rewrite Array_sort_In, Hi. split; [intros [[] | H]; exact H | tauto].
  - intros region. unfold getAvailableScopes. cbv zeta.
    set (rows := match truthy region with
                 | Some r => filter _ (defaultFactorPack reg)
                 | None => defaultFactorPack reg
                 end).
    destruct (fold_Set_add (fun f => Scope_toString (Factor.scope f)) rows []) as [Hn Hi].
    split.
    + apply sorted_set, Hn. constructor.
    + intros name. rewrite Array_sort_In, Hi. subst rows.
      destruct (truthy region) as [r|].
      * split.
        -- intros [[] | (f & Hf & E)]. apply filter_In in Hf. destruct Hf as [Hf Hr].
           apply String.eqb_eq in Hr. now exists f.
        -- intros (f & Hf & E & Hr). right. exists f. split; [|exact E].
           apply filter_In. split; [exact Hf | now apply String.eqb_eq].
      * split.
        -- intros [[] | (f & Hf & E)]. now exists f.
        -- intros (f & Hf & E & _). right. now exists f.
Qed.

(** X11. [isRegionSupported(region)] holds exactly when the normalized
    region code is one of the codes that [getAvailableRegions()]
    returns. *)
Theorem isRegionSupported_iff_available (reg : Registry) (region : string) :
  isRegionSupported reg region = true
  <-> In (normalizeRegionCode reg region) (getAvailableRegions reg).
Proof.
  unfold isRegionSupported, getAvailableRegions. cbv zeta.
  destruct (fold_Set_add Factor.region (defaultFactorPack reg) []) as [_ Hi].
  rewrite Array_sort_In, Hi, existsb_exists. split.
  - intros (f & Hf & E). apply String.eqb_eq in E. right. now exists f.
  - intros [[] | (f & Hf & E)]. exists f. split; [exact Hf | now apply String.eqb_eq].
Qed.

(** X12. When the ids of the loaded pack are pairwise distinct,
    [getFactorById] finds every factor of the pack under its id. *)
Theorem getFactorById_finds_unique (reg : Registry) (f : Factor.t) :
  NoDup (map Factor.id (defaultFactorPack reg)) ->
  In f (defaultFactorPack reg) ->
  getFactorById reg (Factor.id f) = Some f.
Proof.
  unfold getFactorById. induction (defaultFactorPack reg) as [|g pack IH]; cbn;
    intros Nd Hin; [destruct Hin|].
  inversion Nd as [|? ? Hg Nd']; subst.
  destruct Hin as [-> | Hin]; [now rewrite String.eqb_refl|].
  destruct (String.eqb_spec (Factor.id g) (Factor.id f)) as [E | _]; [|now apply IH].
  exfalso. apply Hg. rewrite E. now apply in_map.
Qed.

Lemma getFactorById_finds_unique_witness :
  getFactorById revised (Factor.id IN_2024_B) = Some IN_2024_B.
Proof.
  apply (getFactorById_finds_unique revised IN_2024_B).
  - repeat constructor; cbn; intuition discriminate.
  - cbn. tauto.
Defined.

(** ** Doubles: classes and order *)

Lemma SFcompare_key (x y : spec_float) :
  x <> S754_nan -> y <> S754_nan ->
  match SFcompare x y with
  | Some Lt => key_lt (order_key x) (order_key y)
  | Some Eq => order_key x = order_key y
  | Some Gt => key_lt (order_key y) (order_key x)
  | None => False
  end.
Proof.
  intros Hx Hy.
  destruct x as [sx | sx | | sx mx ex], y as [sy | sy | | sy my ey]; try congruence;
    try (destruct sx); try (destruct sy); cbn; try lia; try reflexivity.
  - destruct (Z.compare_spec ex ey) as [E | L | G]; [|lia|lia].
    rewrite Pos.compare_cont_spec. cbn [Pos.switch_Eq].
    destruct (Pos.compare_spec mx my) as [E' | L' | G']; cbn; subst; try reflexivity; lia.
  - destruct (Z.compare_spec ex ey) as [E | L | G]; [|lia|lia].
    rewrite Pos.compare_cont_spec. cbn [Pos.switch_Eq].
    destruct (Pos.compare_spec mx my) as [E' | L' | G']; cbn; subst; try reflexivity; lia.
Qed.

Lemma not_nan_SF (x : float) : is_nan x = false -> Prim2SF x <> S754_nan.
Proof. rewrite is_nan_SF. intros H E. rewrite E in H. discriminate H. Qed.

Lemma key_lt_irrefl (a : Z * Z * Z) : ~ key_lt a a.
Proof. destruct a as [[a1 a2] a3]. cbn. lia. Qed.

Lemma key_lt_asym (a b : Z * Z * Z) : key_lt a b -> ~ key_lt b a.
Proof. destruct a as [[a1 a2] a3], b as [[b1 b2] b3]. cbn. lia. Qed.

Lemma key_lt_le_trans (a b c : Z * Z * Z) : key_lt a b -> key_le b c -> key_lt a c.
Proof.
  intros H [H' | <-]; [|exact H].
  destruct a as [[a1 a2] a3], b as [[b1 b2] b3], c as [[c1 c2] c3]. cbn in *. lia.
Qed.

Lemma key_total (a b : Z * Z * Z) : key_lt a b \/ a = b \/ key_lt b a.
Proof.
  destruct a as [[a1 a2] a3], b as [[b1 b2] b3]. cbn.
  destruct (Z.lt_total a1 b1) as [|[|]]; [lia| |lia].
  destruct (Z.lt_total a2 b2) as [|[|]]; [lia| |lia].
  destruct (Z.lt_total a3 b3) as [|[|]]; [lia| |lia].
  right. left. congruence.
Qed.

Lemma ltb_key (x y : float) :
  is_nan x = false -> is_nan y = false ->
  (x <? y)%float = true <-> key_lt (order_key (Prim2SF x)) (order_key (Prim2SF y)).
Proof.
  intros Hx Hy. apply not_nan_SF in Hx, Hy. rewrite ltb_spec. unfold SFltb.
  pose proof (SFcompare_key _ _ Hx Hy) as K.
  destruct (SFcompare (Prim2SF x) (Prim2SF y)) as [[| |]|]; [| | |destruct K].
  - split; [discriminate|]. intros H. rewrite K in H. now apply key_lt_irrefl in H.
  - split; [intros _; exact K | reflexivity].
  - split; [discriminate|]. intros H. exfalso. apply (key_lt_asym _ _ H K).
Qed.

Lemma leb_key (x y : float) :
  is_nan x = false -> is_nan y = false ->
  (x <=? y)%float = true <-> key_le (order_key (Prim2SF x)) (order_key (Prim2SF y)).
Proof.
  intros Hx Hy. apply not_nan_SF in Hx, Hy. rewrite leb_spec. unfold SFleb, key_le.
  pose proof (SFcompare_key _ _ Hx Hy) as K.
  destruct (SFcompare (Prim2SF x) (Prim2SF y)) as [[| |]|]; [| | |destruct K].
  - split; [intros _; now right | reflexivity].
  - split; [intros _; now left | reflexivity].
  - split; [discriminate|]. intros [H | H]; exfalso.
    + apply (key_lt_asym _ _ H K).
    + rewrite H in K. now apply key_lt_irrefl in K.
Qed.

(** ** [safeAdd] and [safeSum] on sums that leave the finite range *)

(** X13. When the sum of two finite numbers overflows to an infinity,
    [safeAdd] returns NaN, not that infinity: the error term is then the
    opposite infinity, and the two cancel. *)
Theorem safeAdd_overflow_is_NaN (a b : float) :
  Number_isFinite a = true -> Number_isFinite b = true ->
  is_infinity (a + b) = true ->
  is_nan (safeAdd a b) = true.
Proof.
  unfold Number_isFinite, safeAdd, Math_abs. cbv zeta.
  rewrite !is_finite_SF, is_infinity_SF, is_nan_SF. intros Fa Fb Inf.
  destruct (abs b <=? abs a)%float;
    rewrite !add_spec, !sub_spec, !add_spec in *;
    destruct (SF64add (Prim2SF a) (Prim2SF b)) as [| si | |]; try discriminate Inf;
    destruct (Prim2SF a) as [sa | sa | | sa ma ea]; try discriminate Fa;
    destruct (Prim2SF b) as [sb | sb | | sb mb eb]; try discriminate Fb;
    destruct si; reflexivity.
Qed.

Lemma safeAdd_overflow_is_NaN_witness :
  is_nan (safeAdd 1e308 1e308) = true.
Proof.
  apply (safeAdd_overflow_is_NaN 1e308 1e308); reflexivity.
Defined.

Lemma safeSum_step_infinite (sum error num : float) :
  is_infinity num = true -> is_nan (snd (safeSum_step (sum, error) num)) = true.
Proof.
  unfold safeSum_step. cbn [snd]. rewrite is_infinity_SF, is_nan_SF.
  rewrite !sub_spec, !add_spec, !sub_spec. intros Inf.
  destruct (Prim2SF num) as [| sn | |]; try discriminate Inf.
  destruct (Prim2SF error) as [se | se | | se me ee], (Prim2SF sum) as [ss | ss | | ss ms es];
    destruct sn; try destruct se; try destruct ss; reflexivity.
Qed.

Lemma safeSum_step_NaN (sum error num : float) :
  is_nan error = true ->
  is_nan (fst (safeSum_step (sum, error) num)) = true
  /\ is_nan (snd (safeSum_step (sum, error) num)) = true.
Proof.
  unfold safeSum_step. cbn [fst snd]. rewrite !is_nan_SF.
  rewrite !sub_spec, !add_spec, !sub_spec. intros N.
  destruct (Prim2SF error); try discriminate N.
  destruct (Prim2SF num), (Prim2SF sum); split; reflexivity.
Qed.

Lemma safeSum_NaN_state (numbers : list float) (sum error : float) :
  is_nan sum = true -> is_nan error = true ->
  is_nan (fst (fold_left safeSum_step numbers (sum, error))) = true.
Proof.
  revert sum error. induction numbers as [|n numbers IH]; intros sum error Ns Ne; [exact Ns|].
  cbn [fold_left]. destruct (safeSum_step_NaN sum error n Ne) as [Hs He].
  destruct (safeSum_step (sum, error) n) as [sum' error']. now apply IH.
Qed.

(** X14. [safeSum] of a list in which an infinite number is followed by
    at least one more number is NaN, whatever the other numbers are: the
    infinite term turns the running compensation into NaN, which the next
    term carries into the sum.  (A plain sum of such a list is that
    infinity when no NaN and no opposite infinity occurs.) *)
Theorem safeSum_infinite_term_is_NaN (before after : list float) (x next : float) :
  is_infinity x = true ->
  is_nan (safeSum (before ++ x :: next :: after)%list) = true.
Proof.
  intros Inf. unfold safeSum. rewrite fold_left_app. cbn [fold_left].
  destruct (fold_left safeSum_step before (0%float, 0%float)) as [sum error].
  pose proof (safeSum_step_infinite sum error x Inf) as He.
  destruct (safeSum_step (sum, error) x) as [sum1 error1]. cbn [snd] in He.
  destruct (safeSum_step_NaN sum1 error1 next He) as [Hs2 He2].
  destruct (safeSum_step (sum1, error1) next) as [sum2 error2].
  now apply safeSum_NaN_state.
Qed.

Lemma safeSum_infinite_term_is_NaN_witness :
  is_nan (safeSum ([1%float; 2%float] ++ infinity :: 3%float :: [4%float])%list) = true.
Proof.
  apply (safeSum_infinite_term_is_NaN [1; 2]%float [4]%float infinity 3%float).
  reflexivity.
Defined.

(** X15. [safeProduct] is the plain product taken from left to right:
    1 for no number, and otherwise the first number multiplied in turn by
    each of the others with the double product; no compensation is
    applied, whatever the engine's [toString] returns. *)
Theorem safeProduct_is_left_fold :
  forall (E : Engine) (numbers : list float),
    safeProduct numbers
    = match numbers with
      | [] => 1%float
      | first :: rest => fold_left (fun product n => product * n)%float rest first
      end.
Proof.
  intros E [|first [|second rest]]; try reflexivity.
  unfold safeProduct. apply fold_left_ext_all. intros product n. apply safeMultiply_eq.
Qed.

(** X16. With a tolerance above zero, a number is approximately equal
    to itself exactly when it is finite: [approximatelyEqual(x, x, t)] is
    [Number.isFinite(x)], false for the two infinities and for NaN. *)
Theorem approximatelyEqual_reflexive_iff_finite (a tolerance : float) :
  (0 <? tolerance)%float = true ->
  approximatelyEqual a a tolerance = Number_isFinite a.
Proof.
  unfold approximatelyEqual, Number_isFinite, Math_abs.
  rewrite is_finite_SF, !ltb_spec, abs_spec, sub_spec.
  change (Prim2SF 0%float) with (S754_zero false).
  intros Tol.
  destruct (Prim2SF a) as [s | s | | s m e].
  - destruct s; exact Tol.
  - destruct s; reflexivity.
  - reflexivity.
  - unfold SF64sub, SFsub. cbv zeta.
    replace (cond_Zopp s (Z.pos (fst (shl_align m e (Z.min e e))))
             - cond_Zopp s (Z.pos (fst (shl_align m e (Z.min e e))))) with 0 by lia.
    exact Tol.
Qed.

Lemma approximatelyEqual_reflexive_iff_finite_witness :
  approximatelyEqual 0.1 0.1 1e-10 = Number_isFinite 0.1
  /\ approximatelyEqual infinity infinity 1e-10 = Number_isFinite infinity.
Proof.
  split.
  - apply (approximatelyEqual_reflexive_iff_finite 0.1 1e-10). reflexivity.
  - apply (approximatelyEqual_reflexive_iff_finite infinity 1e-10). reflexivity.
Defined.

(** ** [clamp] *)

(** [Math.max] and [Math.min] of two numbers return one of them, which
    bounds both. *)
Lemma Math_max_bounds (a b : float) :
  is_nan a = false -> is_nan b = false ->
  (Math_max a b = a \/ Math_max a b = b)
  /\ key_le (order_key (Prim2SF a)) (order_key (Prim2SF (Math_max a b)))
  /\ key_le (order_key (Prim2SF b)) (order_key (Prim2SF (Math_max a b))).
Proof.
  intros Ha Hb. unfold Math_max. rewrite Ha, Hb. cbn [orb].
  pose proof (ltb_key a b Ha Hb) as Lab. pose proof (ltb_key b a Hb Ha) as Lba.
  destruct (key_total (order_key (Prim2SF a)) (order_key (Prim2SF b))) as [L | [E | G]].
  - rewrite (proj2 Lab L). unfold key_le. tauto.
  - assert (Fab : (a <? b)%float = false).
    { destruct (a <? b)%float; [|reflexivity]. rewrite E in Lab.
      exfalso. apply (key_lt_irrefl _ (proj1 Lab eq_refl)). }
    assert (Fba : (b <? a)%float = false).
    { destruct (b <? a)%float; [|reflexivity]. rewrite E in Lba.
      exfalso. apply (key_lt_irrefl _ (proj1 Lba eq_refl)). }
    rewrite Fab, Fba. unfold key_le.
    destruct (is_zero a && get_sign a); rewrite ?E; tauto.
  - assert (Fab : (a <? b)%float = false).
    { destruct (a <? b)%float; [|reflexivity].
      exfalso. apply (key_lt_asym _ _ G (proj1 Lab eq_refl)). }
    rewrite Fab, (proj2 Lba G). unfold key_le. tauto.
Qed.

Lemma Math_min_bounds (a b : float) :
  is_nan a = false -> is_nan b = false ->
  (Math_min a b = a \/ Math_min a b = b)
  /\ key_le (order_key (Prim2SF (Math_min a b))) (order_key (Prim2SF a))
  /\ key_le (order_key (Prim2SF (Math_min a b))) (order_key (Prim2SF b)).
Proof.
  intros Ha Hb. unfold Math_min. rewrite Ha, Hb. cbn [orb].
  pose proof (ltb_key a b Ha Hb) as Lab. pose proof (ltb_key b a Hb Ha) as Lba.
  destruct (key_total (order_key (Prim2SF a)) (order_key (Prim2SF b))) as [L | [E | G]].
  - rewrite (proj2 Lab L). unfold key_le. tauto.
  - assert (Fab : (a <? b)%float = false).
    { destruct (a <? b)%float; [|reflexivity]. rewrite E in Lab.
      exfalso. apply (key_lt_irrefl _ (proj1 Lab eq_refl)). }
    assert (Fba : (b <? a)%float = false).
    { destruct (b <? a)%float; [|reflexivity]. rewrite E in Lba.
      exfalso. apply (key_lt_irrefl _ (proj1 Lba eq_refl)). }
    rewrite Fab, Fba. unfold key_le.
    destruct (is_zero a && get_sign a); rewrite ?E; tauto.
  - assert (Fab : (a <? b)%float = false).
    { destruct (a <? b)%float; [|reflexivity].
      exfalso. apply (key_lt_asym _ _ G (proj1 Lab eq_refl)). }
    rewrite Fab, (proj2 Lba G). unfold key_le. tauto.
Qed.

Lemma one_of_not_nan (r a b : float) :
  r = a \/ r = b -> is_nan a = false -> is_nan b = false -> is_nan r = false.
Proof. intros [-> | ->]; tauto. Qed.

(** X17. For three numbers none of which is NaN and with [min <= max],
    [clamp(value, min, max)] lies between [min] and [max], both
    included, and is one of the three numbers. *)
Theorem clamp_within_bounds (value min max : float) :
  is_nan value = false -> is_nan min = false -> is_nan max = false ->
  (min <=? max)%float = true ->
  (min <=? clamp value min max)%float = true
  /\ (clamp value min max <=? max)%float = true
  /\ (clamp value min max = value \/ clamp value min max = min
      \/ clamp value min max = max).
Proof.
  intros Hv Hmin Hmax Hle. unfold clamp.
  destruct (Math_max_bounds value min Hv Hmin) as (Hm & _ & Hlow).
  pose proof (one_of_not_nan _ _ _ Hm Hv Hmin) as Hn.
  destruct (Math_min_bounds (Math_max value min) max Hn Hmax) as (Hr & _ & Hup).
  pose proof (one_of_not_nan _ _ _ Hr Hn Hmax) as Hn'.
  repeat split.
  - apply leb_key; [assumption | assumption |].
    destruct Hr as [-> | ->]; [exact Hlow | now apply leb_key].
  - apply leb_key; assumption.
  - destruct Hr as [-> | ->]; [destruct Hm as [-> | ->]|]; tauto.
Qed.

Lemma clamp_within_bounds_witness :
  (0 <=? clamp 150 0 100)%float = true
  /\ (clamp 150 0 100 <=? 100)%float = true
  /\ (clamp 150 0 100 = 150 \/ clamp 150 0 100 = 0 \/ clamp 150 0 100 = 100)%float.
Proof.
  apply (clamp_within_bounds 150 0 100); reflexivity.
Defined.

(** X18. With the bounds the wrong way round, [max < min], [clamp]
    returns [max] for every value that is not NaN, also for a value that
    lies between the two. *)
Theorem clamp_inverted_bounds (value min max : float) :
  is_nan value = false ->
  (max <? min)%float = true ->
  clamp value min max = max.
Proof.
  intros Hv Hlt.
  assert (Hmin : is_nan min = false).
  { rewrite is_nan_SF. rewrite ltb_spec in Hlt.
    destruct (Prim2SF max), (Prim2SF min); try reflexivity; discriminate Hlt. }
  assert (Hmax : is_nan max = false).
  { rewrite is_nan_SF. rewrite ltb_spec in Hlt.
    destruct (Prim2SF max), (Prim2SF min); try reflexivity; discriminate Hlt. }
  unfold clamp.
  destruct (Math_max_bounds value min Hv Hmin) as (Hm & _ & Hlow).
  pose proof (one_of_not_nan _ _ _ Hm Hv Hmin) as Hn.
  set (m := Math_max value min) in *.
  assert (G : key_lt (order_key (Prim2SF max)) (order_key (Prim2SF m))).
  { eapply key_lt_le_trans; [|exact Hlow]. now apply ltb_key. }
  unfold Math_min. rewrite Hn, Hmax. cbn [orb].
  assert (F : (m <? max)%float = false).
  { destruct (m <? max)%float eqn:L; [|reflexivity].
    apply ltb_key in L; [|assumption|assumption]. now apply key_lt_asym in L. }
  rewrite F, (proj2 (ltb_key max m Hmax Hn) G). reflexivity.
Qed.

Lemma clamp_inverted_bounds_witness :
  clamp 5 10 1 = 1%float.
Proof.
  apply (clamp_inverted_bounds 5 10 1); reflexivity.
Defined.

(** ** Unit conversion *)

(** X19. Normalizing an amount multiplies it by the conversion factor
    of its unit: [normalizeToKWh(e, u)] is
    [e * getEnergyConversionFactor(u)] and [normalizeToKgCO2e(m, u)] is
    [m * getMassConversionFactor(u)], to the last bit, and each pair
    throws the same [InvalidUnitError] on any other unit. *)
Theorem normalize_by_conversion_factor (amount : float) (unit : string) :
  normalizeToKWh amount unit
  = (let* factor := getEnergyConversionFactor unit in Ok (amount * factor)%float)
  /\ normalizeToKgCO2e amount unit
     = (let* factor := getMassConversionFactor unit in Ok (amount * factor)%float).
Proof.
  unfold normalizeToKWh, getEnergyConversionFactor, normalizeToKgCO2e,
    getMassConversionFactor, MWhToKWh, GWhToKWh, tonnesToKg.
  split.
  - destruct (String.eqb unit "kWh"); [cbn; now rewrite float_mul_1_r|].
    destruct (String.eqb unit "MWh"); [reflexivity|].
    destruct (String.eqb unit "GWh"); reflexivity.
  - destruct (String.eqb unit "kgCO2e"); [cbn; now rewrite float_mul_1_r|].
    destruct (String.eqb unit "tCO2e"); reflexivity.
Qed.

(** ** Conversions: when they succeed, and the sign of the result *)

(** X20. [toCO2eKg] returns a number exactly when the energy and the
    factor are finite and neither is below zero (a zero of either sign is
    let through) and the unit is one of the three energy units; the
    number is then the energy times the conversion factor of the unit,
    times the emission factor. *)
Theorem toCO2eKg_succeeds_iff :
  forall (E : Engine) (energy : float) (unit : string) (factorKgPerKWh result : float),
    toCO2eKg energy unit factorKgPerKWh = Ok result
    <-> accepted energy factorKgPerKWh
        /\ exists perUnit,
             getEnergyConversionFactor unit = Ok perUnit
             /\ result = (energy * perUnit * factorKgPerKWh)%float.
Proof.
  intros E energy unit factorKgPerKWh result. unfold toCO2eKg, accepted.
  rewrite (proj1 (normalize_by_conversion_factor energy unit)).
  destruct (Number_isFinite energy); cbn [negb orb];
    [|split; [discriminate | intros ((H & _) & _); discriminate H]].
  destruct (Number_isFinite factorKgPerKWh); cbn [negb orb];
    [|split; [discriminate | intros ((_ & H & _) & _); discriminate H]].
  destruct (energy <? 0)%float;
    [split; [discriminate | intros ((_ & _ & H & _) & _); discriminate H]|].
  destruct (factorKgPerKWh <? 0)%float;
    [split; [discriminate | intros ((_ & _ & _ & H) & _); discriminate H]|].
  destruct (getEnergyConversionFactor unit) as [perUnit | e]; cbn [bind].
  - rewrite safeMultiply_eq. split.
    + intros R. injection R as <-. repeat split. now exists perUnit.
    + intros (_ & k & Hk & ->). now injection Hk as ->.
  - split; [discriminate | intros (_ & k & Hk & _); discriminate Hk].
Qed.

Lemma not_negative_ltb (x : float) :
  (x <? 0)%float = false <-> not_negative (Prim2SF x).
Proof.
  rewrite ltb_spec. change (Prim2SF 0%float) with (S754_zero false).
  destruct (Prim2SF x) as [s | s | | s m e]; cbn; try tauto; destruct s; cbn;
    intuition discriminate.
Qed.

(** A rounded result carries the sign it was given. *)
Lemma binary_round_aux_sign (s : bool) (m e : Z) (l : location) :
  match binary_round_aux prec emax s m e l with
  | S754_zero s' | S754_infinity s' | S754_finite s' _ _ => s' = s
  | S754_nan => True
  end.
Proof.
  unfold binary_round_aux.
  destruct (shr_fexp prec emax m e l) as [mrs' e'].
  destruct (shr_fexp prec emax _ e' loc_Exact) as [mrs'' e''].
  destruct (shr_m mrs''); [reflexivity | | exact I].
  destruct (e'' <=? emax - prec); reflexivity.
Qed.

Lemma SFmul_not_negative (x y : spec_float) :
  not_negative x -> not_negative y -> not_negative (SFmul prec emax x y).
Proof.
  destruct x as [sx | sx | | sx mx ex], y as [sy | sy | | sy my ey];
    try (destruct sx); try (destruct sy); cbn [not_negative SFmul xorb];
    try tauto.
  intros _ _.
  match goal with
  | |- not_negative (binary_round_aux _ _ ?s ?m ?e ?l) =>
      pose proof (binary_round_aux_sign s m e l) as H;
      destruct (binary_round_aux prec emax s m e l); subst; exact I
  end.
Qed.

Lemma SFdiv_not_negative (x : spec_float) (my : positive) (ey : Z) :
  not_negative x -> not_negative (SFdiv prec emax x (S754_finite false my ey)).
Proof.
  destruct x as [sx | sx | | sx mx ex]; try (destruct sx); cbn [not_negative SFdiv xorb];
    try tauto.
  intros _.
  destruct (SFdiv_core_binary prec emax (Z.pos mx) ex (Z.pos my) ey) as [[mz ez] lz].
  match goal with
  | |- not_negative (binary_round_aux _ _ ?s ?m ?e ?l) =>
      pose proof (binary_round_aux_sign s m e l) as H;
      destruct (binary_round_aux prec emax s m e l); subst; exact I
  end.
Qed.

Lemma mul_not_negative (x y : float) :
  (x <? 0)%float = false -> (y <? 0)%float = false -> (x * y <? 0)%float = false.
Proof.
  rewrite !not_negative_ltb, mul_spec. apply SFmul_not_negative.
Qed.

Lemma div_1000_not_negative (x : float) :
  (x <? 0)%float = false -> (x / 1000 <? 0)%float = false.
Proof.
  rewrite !not_negative_ltb, div_spec. apply SFdiv_not_negative.
Qed.

(** X21. [toCO2eKg] and [toCO2eTonnes] fail together, with the same
    error, and when they succeed neither result is below zero, whatever
    the magnitudes: no roundoff, underflow or overflow of the two
    products and of the division produces a negative amount. *)
Theorem conversion_never_negative :
  forall (E : Engine) (energy : float) (unit : string) (factorKgPerKWh : float),
    match toCO2eKg energy unit factorKgPerKWh, toCO2eTonnes energy unit factorKgPerKWh with
    | Ok co2eKg, Ok co2eTonnes =>
        (co2eKg <? 0)%float = false /\ (co2eTonnes <? 0)%float = false
    | Throw e, Throw e' => e = e'
    | _, _ => False
    end.
Proof.
  intros E energy unit factorKgPerKWh. unfold toCO2eTonnes, toCO2eKg.
  destruct (negb _ || negb _); [reflexivity|].
  destruct (energy <? 0)%float eqn:Pe; [reflexivity|].
  destruct (factorKgPerKWh <? 0)%float eqn:Pf; [reflexivity|].
  unfold normalizeToKWh, MWhToKWh, GWhToKWh.
  assert (Hkg : forall k, (k <? 0)%float = false ->
                          (safeMultiply (energy * k) factorKgPerKWh <? 0)%float = false
                          /\ (safeMultiply (energy * k) factorKgPerKWh / 1000 <? 0)%float
                             = false).
  { intros k Hk. rewrite safeMultiply_eq.
    assert (H : (energy * k * factorKgPerKWh <? 0)%float = false)
      by (repeat apply mul_not_negative; assumption).
    split; [exact H | now apply div_1000_not_negative]. }
  destruct (String.eqb unit "kWh").
  { cbn [bind]. rewrite <- (float_mul_1_r energy) at 1 2. now apply Hkg. }
  destruct (String.eqb unit "MWh"); [cbn [bind]; now apply Hkg|].
  destruct (String.eqb unit "GWh"); [cbn [bind]; now apply Hkg|].
  reflexivity.
Qed.

(** ** Batches *)

Lemma mapM_Ok {A B : Type} (f : A -> result B) (xs : list A) (ys : list B) :
  mapM f xs = Ok ys <-> Forall2 (fun x y => f x = Ok y) xs ys.
Proof.
  revert ys. induction xs as [|x xs IH]; intros ys; cbn.
  - split.
    + intros R. injection R as <-. constructor.
    + intros H. inversion H. reflexivity.
  - destruct (f x) as [y | e] eqn:Fx; cbn.
    + destruct (mapM f xs) as [ys1 | e] eqn:M; cbn.
      * split.
        -- intros R. injection R as <-. constructor; [exact Fx | now apply IH].
        -- intros H. inversion H as [|? y1 ? ys2 Hy Hys]; subst.
           apply IH in Hys. congruence.
      * split; [discriminate|].
        intros H. inversion H as [|? y1 ? ys2 Hy Hys]; subst.
        apply IH in Hys. discriminate Hys.
    + split; [discriminate|].
      intros H. inversion H as [|? y1 ? ys2 Hy Hys]; subst. congruence.
Qed.

Lemma mapM_Throw {A B : Type} (f : A -> result B) (xs : list A) (e : error) :
  mapM f xs = Throw e
  <-> exists done x rest ys,
        xs = (done ++ x :: rest)%list
        /\ Forall2 (fun x y => f x = Ok y) done ys
        /\ f x = Throw e.
Proof.
  induction xs as [|x xs IH]; cbn.
  - split; [discriminate|]. intros (done & x & rest & ys & E & _). now destruct done.
  - destruct (f x) as [y | e1] eqn:Fx; cbn.
    + destruct (mapM f xs) as [ys1 | e1] eqn:M; cbn.
      * split; [discriminate|].
        intros ([|d done] & x1 & rest & ys & E & Hd & Hx); cbn in E; injection E as -> ->.
        -- congruence.
        -- inversion Hd as [|? y1 ? ys2 Hy Hys]; subst.
           assert (T : Ok ys1 = Throw e); [|discriminate T].
           apply IH. now exists done, x1, rest, ys2.
      * split.
        -- intros T. apply IH in T. destruct T as (done & x1 & rest & ys & -> & Hd & Hx).
           exists (x :: done), x1, rest, (y :: ys). repeat split; [|exact Hx].
           now constructor.
        -- intros ([|d done] & x1 & rest & ys & E & Hd & Hx); cbn in E; injection E as -> ->.
           ++ congruence.
           ++ inversion Hd as [|? y1 ? ys2 Hy Hys]; subst.
              apply IH. now exists done, x1, rest, ys2.
    + split.
      * intros T. injection T as ->. exists [], x, xs, []. repeat split; [constructor | exact Fx].
      * intros ([|d done] & x1 & rest & ys & E & Hd & Hx); cbn in E; injection E as -> ->.
        -- congruence.
        -- inversion Hd as [|? y1 ? ys2 Hy Hys]; subst. congruence.
Qed.

(** X22. A batch is all or nothing.  [batchToCO2eTonnes] returns
    results exactly when every entry converts, and then one result per
    entry, in order; it throws an error exactly when that is the error
    of the first entry that fails, the results of the entries before it
    being lost.  The same holds of [batchAvoidedEmissions]. *)
Theorem batches_all_or_nothing :
  forall E : Engine,
    (forall (inputs : list GridInput) (results : list float),
        batchToCO2eTonnes inputs = Ok results
        <-> Forall2 (fun input result =>
                       toCO2eTonnes (energy input) (unit input) (factorKgPerKWh input)
                       = Ok result) inputs results)
    /\ (forall (inputs : list GridInput) (e : error),
           batchToCO2eTonnes inputs = Throw e
           <-> exists done input rest results,
                 inputs = (done ++ input :: rest)%list
                 /\ Forall2 (fun input result =>
                               toCO2eTonnes (energy input) (unit input) (factorKgPerKWh input)
                               = Ok result) done results
                 /\ toCO2eTonnes (energy input) (unit input) (factorKgPerKWh input)
                    = Throw e)
    /\ (forall (inputs : list AvoidedInput.t) (results : list AvoidedResult.t),
           batchAvoidedEmissions inputs = Ok results
           <-> Forall2 (fun input result => avoidedEmissions input = Ok result) inputs results)
    /\ (forall (inputs : list AvoidedInput.t) (e : error),
           batchAvoidedEmissions inputs = Throw e
           <-> exists done input rest results,
                 inputs = (done ++ input :: rest)%list
                 /\ Forall2 (fun input result => avoidedEmissions input = Ok result)
                            done results
                 /\ avoidedEmissions input = Throw e).
Proof.
  intros E. unfold batchToCO2eTonnes, batchAvoidedEmissions.
  split; [|split; [|split]]; intros inputs r.
  - apply mapM_Ok.
  - apply mapM_Throw.
  - apply mapM_Ok.
  - apply mapM_Throw.
Qed.

(** ** Totals of nothing *)

Lemma roundStable_zero (decimals : nat) (mode : RoundingMode) :
  (decimals <= 308)%nat -> roundStable 0 decimals mode = 0%float.
Proof.
  intros Hd.
  assert (All : forallb zero_rounds_to_zero (seq 0 309) = true) by (vm_compute; reflexivity).
  rewrite forallb_forall in All.
  specialize (All decimals ltac:(apply in_seq; lia)).
  unfold zero_rounds_to_zero in All. rewrite forallb_forall in All.
  apply Leibniz.eqb_spec. apply All. destruct mode; cbn; tauto.
Qed.

(** X23. With no source at all and up to 308 decimals (beyond which
    [10^decimals] is no finite double), [totalCO2eTonnes] is 0 and
    [totalAvoidedEmissions] reports 0 t, 0 kg, 0 kWh and the factor 0:
    the weighted factor is not the quotient 0 / 0. *)
Theorem totals_of_no_source :
  forall (E : Engine) (decimals : nat) (mode : RoundingMode),
    (decimals <= 308)%nat ->
    totalCO2eTonnes [] decimals mode = Ok 0%float
    /\ totalAvoidedEmissions []
         (Some {| Rounding.decimals := Some decimals; Rounding.mode := Some mode |})
       = Ok {| AvoidedResult.tCO2e := 0; AvoidedResult.kgCO2e := 0;
               AvoidedResult.factorKgPerKWh := 0; AvoidedResult.energyKWh := 0 |}.
Proof.
  intros E decimals mode Hd.
  unfold totalCO2eTonnes, totalAvoidedEmissions, batchToCO2eTonnes, batchAvoidedEmissions.
  cbn [mapM bind fold_left decimals_or_default mode_or_default
       Rounding.decimals Rounding.mode].
  change (0 <? 0)%float with false. cbv iota.
  now rewrite (roundStable_zero decimals mode Hd).
Qed.

Lemma totals_of_no_source_witness :
  totalCO2eTonnes (E := Ecma262.engine) [] 6 HALF_UP = Ok 0%float
  /\ totalAvoidedEmissions (E := Ecma262.engine) []
       (Some {| Rounding.decimals := Some 6%nat; Rounding.mode := Some HALF_UP |})
     = Ok {| AvoidedResult.tCO2e := 0; AvoidedResult.kgCO2e := 0;
             AvoidedResult.factorKgPerKWh := 0; AvoidedResult.energyKWh := 0 |}.
Proof.
  apply (totals_of_no_source Ecma262.engine 6 HALF_UP). lia.
Defined.

(** ** Avoided emissions and the grid conversions *)

(** X24. [avoidedEmissions] reports what the grid functions return on
    the same energy, unit and factor: its [tCO2e] is
    [toCO2eTonnesRounded], its [kgCO2e] is [toCO2eKgRounded], both with
    the decimals and the mode of the input's rounding option (6 and
    HALF_UP by default), its [energyKWh] is [normalizeToKWh], unrounded,
    and it throws the error they throw. *)
Theorem avoidedEmissions_agrees_with_grid :
  forall (E : Engine) (input : AvoidedInput.t),
    let energy := AvoidedInput.energy input in
    let unit := AvoidedInput.inputUnit input in
    let factor := AvoidedInput.factorKgPerKWh input in
    let decimals := decimals_or_default (AvoidedInput.rounding input) in
    let mode := mode_or_default (AvoidedInput.rounding input) in
    avoidedEmissions input
    = (let* tCO2e := toCO2eTonnesRounded energy unit factor decimals mode in
       let* kgCO2e := toCO2eKgRounded energy unit factor decimals mode in
       let* energyKWh := normalizeToKWh energy unit in
       Ok {| AvoidedResult.tCO2e := tCO2e; AvoidedResult.kgCO2e := kgCO2e;
             AvoidedResult.factorKgPerKWh := factor;
             AvoidedResult.energyKWh := energyKWh |}).
Proof.
  intros E input energy unit factor decimals mode.
  unfold avoidedEmissions, toCO2eTonnesRounded, toCO2eKgRounded, toCO2eTonnes, toCO2eKg.
  fold energy unit factor decimals mode.
  destruct (negb _ || negb _); [reflexivity|].
  destruct (energy <? 0)%float; [reflexivity|].
  destruct (factor <? 0)%float; [reflexivity|].
  destruct (normalizeToKWh energy unit) as [energyKWh | e]; reflexivity.
Qed.

(** *** Rounding keeps a number that is not negative so *)

Lemma integer_part_not_negative (choose : Z -> Z -> Z) (x : float) :
  (forall num den, 2 <= den -> Z.abs (choose num den) <= Z.abs num) ->
  (forall num den, 0 <= num -> 0 < den -> 0 <= choose num den) ->
  not_negative (Prim2SF x) -> not_negative (Prim2SF (integer_part choose x)).
Proof.
  intros choose_bound choose_sign P. unfold integer_part.
  destruct (Prim2SF x) as [s | s | | s m e] eqn:Ex; try (now rewrite Ex).
  destruct (0 <=? e) eqn:Ee; [now rewrite Ex|].
  apply Z.leb_gt in Ee.
  destruct s; [destruct P|].
  pose proof (Prim2SF_valid x) as V. rewrite Ex in V. cbn [valid_binary] in V.
  destruct (bounded_spec m e V) as [C _].
  assert (Hm : Zpos m < 2 ^ 53).
  { pose proof (digits2_pos_bounds m) as [_ Hi].
    eapply Z.lt_le_trans; [exact Hi|].
    apply Z.pow_le_mono_r; [lia|]. unfold fexp, emin, prec, emax in C. lia. }
  assert (Hden : 2 <= 2 ^ (- e)).
  { change 2 with (2 ^ 1) at 1. apply Z.pow_le_mono_r; lia. }
  pose proof (choose_bound (signed false m) (2 ^ (- e)) Hden) as Hg.
  pose proof (choose_sign (signed false m) (2 ^ (- e)) ltac:(cbn; lia) ltac:(lia)) as Hs.
  cbn [signed cond_Zopp] in *.
  set (n := choose (Zpos m) (2 ^ (- e))) in *.
  destruct (Z.eq_dec n 0) as [E0 | Hn].
  - rewrite E0. unfold float_of_Z. cbn [binary_normalize].
    now rewrite Prim2SF_SF2Prim by reflexivity.
  - destruct (float_of_Z_finite n false Hn ltac:(lia)) as (d & E).
    rewrite E. replace (n <? 0) with false by (symmetry; apply Z.ltb_ge; lia).
    exact I.
Qed.

Lemma Math_rounding_not_negative (mode : RoundingMode) (x : float) :
  not_negative (Prim2SF x) ->
  not_negative (Prim2SF match mode with
                        | HALF_UP => Math_round x
                        | DOWN => Math_floor x
                        | TRUNC => Math_trunc x
                        end).
Proof.
  destruct mode; apply integer_part_not_negative.
  - intros num den Hden.
    pose proof (Z.div_mod (2 * num + den) (2 * den) ltac:(lia)).
    pose proof (Z.mod_pos_bound (2 * num + den) (2 * den) ltac:(lia)). nia.
  - intros num den Hn Hd. apply Z.div_pos; lia.
  - intros num den Hden. apply abs_div_le. lia.
  - intros num den Hn Hd. apply Z.div_pos; lia.
  - intros num den Hden.
    destruct (Z.le_gt_cases 0 num) as [Hn | Hn].
    + rewrite Z.quot_div_nonneg by lia. apply abs_div_le. lia.
    + replace num with (- - num) at 1 by lia.
      rewrite Z.quot_opp_l, Z.abs_opp, Z.quot_div_nonneg by lia.
      eapply Z.le_trans; [apply abs_div_le; lia | lia].
  - intros num den Hn Hd. apply Z.quot_pos; lia.
Qed.

Lemma Math_pow10_positive (decimals : nat) :
  (decimals <= 308)%nat ->
  exists m e, Prim2SF (Math_pow10 decimals) = S754_finite false m e.
Proof.
  intros Hd.
  assert (All : forallb power_of_ten_is_positive (seq 0 309) = true)
    by (vm_compute; reflexivity).
  rewrite forallb_forall in All.
  specialize (All decimals ltac:(apply in_seq; lia)).
  unfold power_of_ten_is_positive in All.
  destruct (Prim2SF (Math_pow10 decimals)) as [| | |[] m e]; try discriminate All.
  now exists m, e.
Qed.

Lemma roundStable_not_negative (x : float) (decimals : nat) (mode : RoundingMode) :
  (decimals <= 308)%nat ->
  (x <? 0)%float = false -> (roundStable x decimals mode <? 0)%float = false.
Proof.
  intros Hd P. unfold roundStable.
  destruct (negb (Number_isFinite x)); [exact P|]. cbv zeta.
  destruct (Math_pow10_positive decimals Hd) as (m & e & Ef).
  apply not_negative_ltb. rewrite div_spec, Ef. apply SFdiv_not_negative.
  apply Math_rounding_not_negative. rewrite mul_spec. apply SFmul_not_negative.
  - now apply not_negative_ltb.
  - now rewrite Ef.
Qed.

(** X25. No result of [avoidedEmissions] reports a negative amount:
    with up to 308 decimals, in each of the three rounding modes, the
    tonnes, the kilograms, the factor and the energy of a result are not
    below zero. *)
Theorem avoidedEmissions_never_negative :
  forall (E : Engine) (input : AvoidedInput.t) (result : AvoidedResult.t),
    (decimals_or_default (AvoidedInput.rounding input) <= 308)%nat ->
    avoidedEmissions input = Ok result ->
    (AvoidedResult.tCO2e result <? 0)%float = false
    /\ (AvoidedResult.kgCO2e result <? 0)%float = false
    /\ (AvoidedResult.factorKgPerKWh result <? 0)%float = false
    /\ (AvoidedResult.energyKWh result <? 0)%float = false.
Proof.
  intros E input result Hd. unfold avoidedEmissions.
  destruct (negb _ || negb _); [discriminate|].
  destruct (AvoidedInput.energy input <? 0)%float eqn:Pe; [discriminate|].
  destruct (AvoidedInput.factorKgPerKWh input <? 0)%float eqn:Pf; [discriminate|].
  assert (Pk : forall energyKWh,
             normalizeToKWh (AvoidedInput.energy input) (AvoidedInput.inputUnit input)
             = Ok energyKWh -> (energyKWh <? 0)%float = false).
  { unfold normalizeToKWh, MWhToKWh, GWhToKWh. intros energyKWh.
    destruct (String.eqb _ "kWh"); [intros R; now injection R as <-|].
    destruct (String.eqb _ "MWh");
      [intros R; injection R as <-; now apply mul_not_negative|].
    destruct (String.eqb _ "GWh");
      [intros R; injection R as <-; now apply mul_not_negative|].
    discriminate. }
  destruct (normalizeToKWh _ _) as [energyKWh | e]; [|discriminate].
  specialize (Pk energyKWh eq_refl).
  cbn [bind]. cbv zeta. intros R. injection R as <-.
  cbn [AvoidedResult.tCO2e AvoidedResult.kgCO2e AvoidedResult.factorKgPerKWh
       AvoidedResult.energyKWh].
  rewrite safeMultiply_eq.
  assert (Pkg : (energyKWh * AvoidedInput.factorKgPerKWh input <? 0)%float = false)
    by now apply mul_not_negative.
  repeat split; try assumption.
  - apply roundStable_not_negative; [exact Hd|]. now apply div_1000_not_negative.
  - now apply roundStable_not_negative.
Qed.

Lemma avoidedEmissions_never_negative_witness :
  exists result,
    avoidedEmissions (E := Ecma262.engine) coarse_source = Ok result
    /\ (AvoidedResult.tCO2e result <? 0)%float = false
    /\ (AvoidedResult.kgCO2e result <? 0)%float = false
    /\ (AvoidedResult.factorKgPerKWh result <? 0)%float = false
    /\ (AvoidedResult.energyKWh result <? 0)%float = false.
Proof.
  eexists. split; [reflexivity|].
  apply (avoidedEmissions_never_negative Ecma262.engine coarse_source).
  - cbn. lia.
  - reflexivity.
Defined.

(** ** Adjustments and uncertainty *)

Lemma with_energy_same (input : AvoidedInput.t) :
  with_energy input (AvoidedInput.energy input) = input.
Proof. now destruct input. Qed.

(** X26. In [avoidedEmissionsWithMethodology] an efficiency factor of
    0 is not applied: the four quantities of the result and its
    uncertainty are those of the call without the factor, the energy is
    not set to zero; and a factor of 1 changes none of them either.  The
    same holds of the degradation factor, whatever the other adjustments
    are.  (The [meta] field records the adjustments as they were passed,
    so it tells the calls apart.) *)
Theorem methodology_factor_zero_or_one_is_ignored :
  forall (E : Engine) (input : AvoidedInput.t) (methodology : string)
         (other uncertaintyPct : option float),
    let run efficiency degradation :=
      let* result :=
        avoidedEmissionsWithMethodology input methodology
          (Some {| efficiencyFactor := efficiency; degradationFactor := degradation;
                   adjustmentUncertaintyPct := uncertaintyPct |}) in
      Ok (AvoidedResult.tCO2e (result_of (report result)),
          AvoidedResult.kgCO2e (result_of (report result)),
          AvoidedResult.factorKgPerKWh (result_of (report result)),
          AvoidedResult.energyKWh (result_of (report result)),
          uncertainty (report result)) in
    run (Some 0%float) other = run None other
    /\ run (Some 1%float) other = run None other
    /\ run other (Some 0%float) = run other None
    /\ run other (Some 1%float) = run other None.
Proof.
  intros E input methodology other uncertaintyPct run. subst run. cbv beta.
  unfold avoidedEmissionsWithMethodology. cbv zeta.
  cbn [adjustment efficiencyFactor degradationFactor adjustmentUncertaintyPct].
  assert (Zero : truthy_number (Some 0%float) = None) by reflexivity.
  assert (One : truthy_number (Some 1%float) = Some 1%float) by reflexivity.
  rewrite Zero, One. cbn [truthy_number].
  repeat split;
    destruct (truthy_number other); rewrite ?float_mul_1_r, ?with_energy_same;
    match goal with
    | |- context [avoidedEmissions ?adjusted] => destruct (avoidedEmissions adjusted)
    end; reflexivity.
Qed.

(** X27. [toCO2eWithUncertainty] with [decimals] and
    [avoidedEmissionsWithUncertainty] on the same energy, unit and
    factor with the rounding option [{ decimals }] compute the same
    base value in tonnes and the same bounds, and fail together. *)
Theorem toCO2eWithUncertainty_agrees_with_avoided :
  forall (E : Engine) (energy : float) (unit : string) (factorKgPerKWh pct : float)
         (decimals : nat),
    let input :=
      {| AvoidedInput.energy := energy; AvoidedInput.inputUnit := unit;
         AvoidedInput.factorKgPerKWh := factorKgPerKWh;
         AvoidedInput.rounding :=
           Some {| Rounding.decimals := Some decimals; Rounding.mode := None |} |} in
    (let* reported := avoidedEmissionsWithUncertainty input pct in
     Ok (AvoidedResult.tCO2e (result_of reported), uncertainty reported))
    = (let* grid := toCO2eWithUncertainty energy unit factorKgPerKWh pct decimals in
       Ok (baseTCO2e grid,
           Some {| UncertaintyBounds.plusMinusPct := MethodsGrid.uncertaintyPct grid;
                   UncertaintyBounds.lowerTCO2e := MethodsGrid.lowerTCO2e grid;
                   UncertaintyBounds.upperTCO2e := MethodsGrid.upperTCO2e grid |})).
Proof.
  intros E energy unit factorKgPerKWh pct decimals input.
  unfold avoidedEmissionsWithUncertainty, toCO2eWithUncertainty, toCO2eTonnesRounded,
    toCO2eTonnes, toCO2eKg, avoidedEmissions. subst input.
  cbn [AvoidedInput.energy AvoidedInput.inputUnit AvoidedInput.factorKgPerKWh
       AvoidedInput.rounding decimals_or_default mode_or_default
       Rounding.decimals Rounding.mode].
  destruct (negb _ || negb _); [reflexivity|].
  destruct (energy <? 0)%float; [reflexivity|].
  destruct (factorKgPerKWh <? 0)%float; [reflexivity|].
  destruct (normalizeToKWh energy unit) as [energyKWh | e]; reflexivity.
Qed.

Lemma plus_minus_nothing (value : float) :
  Number_isFinite value = true -> (value =? 0)%float = false ->
  (value - value * 0 / 100 = value)%float /\ (value + value * 0 / 100 = value)%float.
Proof.
  unfold Number_isFinite. rewrite is_finite_SF, eqb_spec.
  change (Prim2SF 0%float) with (S754_zero false).
  intros F Nz.
  destruct (Prim2SF value) as [s | s | | s m e] eqn:Ev; try discriminate F;
    [destruct s; discriminate Nz|].
  assert (Eu : Prim2SF (value * 0 / 100) = S754_zero s).
  { rewrite div_spec, mul_spec, Ev.
    change (Prim2SF 0%float) with (S754_zero false).
    change (Prim2SF 100%float) with (S754_finite false 7036874417766400 (-46)).
    cbn. now destruct s. }
  split; apply Prim2SF_inj.
  - rewrite sub_spec, Eu, Ev. reflexivity.
  - rewrite add_spec, Eu, Ev. reflexivity.
Qed.

(** X28. With an uncertainty of 0 percent,
    [avoidedEmissionsWithUncertainty] gives as lower and as upper bound
    the reported [tCO2e], finite and not zero, rounded a second time.
    Rounding is not idempotent, so the two bounds can lie beside the
    reported value: 580 kWh at 1 kg/kWh reported to 2 decimals, rounded
    down, is 0.57 t with both bounds at 0.56 t. *)
Theorem bounds_at_zero_uncertainty :
  forall (E : Engine) (input : AvoidedInput.t) (reported : Reported),
    avoidedEmissionsWithUncertainty input 0 = Ok reported ->
    Number_isFinite (AvoidedResult.tCO2e (result_of reported)) = true ->
    (AvoidedResult.tCO2e (result_of reported) =? 0)%float = false ->
    uncertainty reported
    = Some {| UncertaintyBounds.plusMinusPct := 0;
              UncertaintyBounds.lowerTCO2e :=
                roundStable (AvoidedResult.tCO2e (result_of reported))
                  (decimals_or_default (AvoidedInput.rounding input))
                  (mode_or_default (AvoidedInput.rounding input));
              UncertaintyBounds.upperTCO2e :=
                roundStable (AvoidedResult.tCO2e (result_of reported))
                  (decimals_or_default (AvoidedInput.rounding input))
                  (mode_or_default (AvoidedInput.rounding input)) |}.
Proof.
  intros E input reported R F Nz. unfold avoidedEmissionsWithUncertainty in R.
  destruct (avoidedEmissions input) as [base | e] eqn:B; [|discriminate R].
  cbn [bind] in R. injection R as <-. cbn [result_of uncertainty] in *.
  unfold calculateUncertaintyBounds, uncertainty_field. cbv zeta.
  cbn [lower upper plusMinusPct].
  destruct (plus_minus_nothing _ F Nz) as [-> ->]. reflexivity.
Qed.

Lemma bounds_at_zero_uncertainty_witness :
  exists reported,
    avoidedEmissionsWithUncertainty (E := Ecma262.engine) coarse_source 0 = Ok reported
    /\ AvoidedResult.tCO2e (result_of reported) = 0.57%float
    /\ uncertainty reported
       = Some {| UncertaintyBounds.plusMinusPct := 0;
                 UncertaintyBounds.lowerTCO2e := 0.56;
                 UncertaintyBounds.upperTCO2e := 0.56 |}.
Proof.
  eexists. split; [reflexivity|]. split; [reflexivity|].
  exact (bounds_at_zero_uncertainty Ecma262.engine coarse_source _ eq_refl eq_refl eq_refl).
Defined.

(** ** Canonical text and digest *)

(** X29. A number that is not finite (NaN, Infinity, -Infinity) is
    written [null] by [stableStringify], on its own and as an element of
    an array, for every precision; so [stableEqual] takes it for equal to
    [null]. *)
Theorem stableStringify_not_finite_is_null :
  forall (E : Engine) (n : float) (maxDecimals : nat),
    Number_isFinite n = false ->
    stableStringify (VNumber n) maxDecimals = Some "null"
    /\ stableStringify (VArray [VNumber n]) maxDecimals = Some "[null]"
    /\ stableEqual (VNumber n) VNull = true.
Proof.
  intros E n maxDecimals N.
  unfold stableEqual, stableStringify. cbn [normalizeObject map JSON_stringify].
  unfold formatNumber. rewrite N. cbn [negb]. rewrite N. repeat split.
Qed.

Lemma stableStringify_not_finite_is_null_witness :
  stableStringify (E := Ecma262.engine) (VNumber nan) 6 = Some "null"
  /\ stableStringify (E := Ecma262.engine) (VArray [VNumber nan]) 6 = Some "[null]"
  /\ stableEqual (E := Ecma262.engine) (VNumber nan) VNull = true.
Proof.
  apply (stableStringify_not_finite_is_null Ecma262.engine nan 6). reflexivity.
Defined.

Lemma rebuilt_perm (props props' treated treated' : list (string * value)) :
  NoDup (map fst treated) ->
  Permutation (map fst props) (map fst props') ->
  Permutation treated treated' ->
  rebuilt props treated = rebuilt props' treated'.
Proof.
  intros Nd Pk Pt. unfold rebuilt. cbv zeta.
  assert (Es : Array_sort code_unit_order (Object_keys props)
               = Array_sort code_unit_order (Object_keys props')).
  { apply Array_sort_perm_eq. unfold Object_keys.
    eapply perm_trans; [apply own_keys_perm|].
    eapply perm_trans; [|apply Permutation_sym, own_keys_perm]. exact Pk. }
  rewrite Es. apply fold_left_ext_all. intros normalized key. f_equal.
  now apply get_perm.
Qed.

Lemma indexed_keys (xs ys : list value) (from : nat) :
  List.length xs = List.length ys ->
  map fst (indexed from xs) = map fst (indexed from ys).
Proof.
  revert ys from. induction xs as [|x xs IH]; intros [|y ys] from El;
    try discriminate El; [reflexivity|].
  cbn. f_equal. apply IH. now injection El.
Qed.

(** Reordering the keys of the objects of a value does not change what
    [normalizePayload] makes of it, as a property value or as an element
    of an array. *)
Lemma treat_key_perm {E : Engine} (a : value) :
  wf a -> forall b, key_perm a b -> forall element, treat element a = treat element b.
Proof.
  induction a as [ | | c | n | s | items IH | props IH] using value_ind_nested;
    intros W b K element; inversion K; subst; try reflexivity.
  - (* arrays *)
    inversion W as [| | | | |? Wi|]; subst.
    assert (Em : forall flag, map (treat flag) items = map (treat flag) items').
    { intros flag. eapply map_Forall2_eq; [eassumption|].
      rewrite Forall_forall in *. intros x Hx y Kxy. apply IH; auto. }
    assert (El : List.length items = List.length items')
      by (eapply Forall2_length; eassumption).
    cbn [treat]. destruct element; [|now rewrite Em].
    rewrite Em. f_equal. unfold rebuilt, Object_keys, own_keys. cbv zeta.
    now rewrite (indexed_keys items items' 0 El).
  - (* objects *)
    inversion W as [| | | | | |? Nd Wp]; subst.
    match goal with
    | H : Permutation props ?r, F : Forall2 _ ?r _ |- _ =>
        rename H into Pm; rename F into F2; rename r into reordered
    end.
    match goal with |- _ = treat _ (VObject ?p) => rename p into props' end.
    assert (IHr : Forall (fun p => wf (snd p) /\
                           forall b, key_perm (snd p) b ->
                             treat false (snd p) = treat false b) reordered).
    { apply (Forall_perm _ props); [exact Pm|]. rewrite Forall_forall in *.
      intros p Hp. split; [now apply Wp | intros b' Kb; apply IH; auto]. }
    assert (Em : map (fun p => (fst p, treat false (snd p))) reordered
                 = map (fun p => (fst p, treat false (snd p))) props').
    { clear - F2 IHr. induction F2 as [|x y xs ys [Ek Kv] F2 IHF]; [reflexivity|].
      inversion IHr as [|? ? [Wx Hx] IHr']; subst. cbn. f_equal; [|now apply IHF].
      rewrite Ek. f_equal. now apply Hx. }
    assert (Ek : map fst reordered = map fst props').
    { clear - F2. induction F2 as [|x y xs ys [Ek _] F2 IHF]; [reflexivity|].
      cbn. now rewrite Ek, IHF. }
    cbn [treat]. f_equal. apply rebuilt_perm.
    + rewrite map_map. cbn. exact Nd.
    + rewrite <- Ek. now apply Permutation_map.
    + rewrite <- Em. now apply Permutation_map.
Qed.

(** X30. [createDigest] does not depend on the order in which the keys
    of the payload, or of any object inside it, were created: two
    payloads that differ by such a reordering only, at any depth, have
    the same digest. *)
Theorem createDigest_key_order_independent :
  forall (E : Engine) (payload payload' : list (string * value)),
    wf (VObject payload) -> key_perm (VObject payload) (VObject payload') ->
    createDigest payload = createDigest payload'.
Proof.
  intros E payload payload' W K. unfold createDigest, normalizePayload. cbv zeta.
  pose proof (treat_key_perm (VObject payload) W (VObject payload') K false) as T.
  cbn [treat] in T. injection T as T. now rewrite T.
Qed.

Lemma createDigest_key_order_independent_witness :
  createDigest (E := Ecma262.engine) (props_of nested_1)
  = createDigest (E := Ecma262.engine) (props_of nested_2).
Proof.
  apply (createDigest_key_order_independent Ecma262.engine
           (props_of nested_1) (props_of nested_2)).
  - exact wf_nested_1.
  - exact key_perm_nested.
Defined.

(** ** Further expectations of the test suite and of the README *)

(** "should convert kWh to MWh correctly", "should convert kg to tonnes
    correctly", "should convert tonnes to kg correctly", and the README's
    [normalizeToTonnesCO2e(1000, 'kgCO2e') // 1]. *)
Example unit_conversion_tests :
  (kWhToMWh 1000 = 1 /\ kWhToMWh 500 = 0.5 /\ kWhToMWh 0 = 0
   /\ kWhToGWh 1000000 = 1
   /\ kgToTonnes 1000 = 1 /\ kgToTonnes 500 = 0.5 /\ kgToTonnes 0 = 0
   /\ tonnesToKg 1 = 1000 /\ tonnesToKg 0.5 = 500 /\ tonnesToKg 0 = 0)%float
  /\ normalizeToTonnesCO2e 1000 "kgCO2e" = Ok 1%float
  /\ normalizeToTonnesCO2e 1000 "lb" = Throw (InvalidUnitError "lb").
Proof. repeat split. Qed.

(** "should perform safe addition", "should perform safe sum on arrays":
    the results are close to 0.3 and to 0.6, as the tests ask. *)
Example safe_math_tests :
  (safeAdd 0.1 0.2 = 0.30000000000000004
   /\ 0.1 + 0.2 = 0.30000000000000004
   /\ safeSum [0.1; 0.2; 0.3] = 0.6
   /\ 0.1 + 0.2 + 0.3 = 0.6000000000000001
   /\ calculatePercentage 1 3 2 HALF_UP = 33.33
   /\ calculatePercentage 5 0 2 HALF_UP = 0
   /\ clamp 0.5 0 1 = 0.5
   /\ calculateUncertaintyBounds 100 10 6 HALF_UP
      = {| lower := 90; upper := 110; plusMinusPct := 10 |})%float.
Proof. repeat split. Qed.

(** "should list all factors", "should filter factors by region",
    "should get available regions". *)
Example listing_tests :
  listFactors loaded None = defaultFactors
  /\ listFactors loaded (Some {| FactorFilter.region := Some "IN";
                                 FactorFilter.scope := None;
                                 FactorFilter.from := None;
                                 FactorFilter.to := None |})
     = [IN_2024_BASELINE]
  /\ getAvailableRegions loaded = ["EU"; "IN"; "US"; "WORLD"]
  /\ getAvailableScopes loaded None = ["baseline"]
  /\ getAvailableScopes revised (Some "ind") = ["baseline"; "marginal"]
  /\ isRegionSupported loaded "ind" = true
  /\ isRegionSupported loaded "atlantis" = false
  /\ getLatestFactor revised "IN" "baseline" = Some IN_2024_A
  /\ resolveFactor revised (query "IN" baseline None) = Ok (Some IN_2022).
Proof. repeat split. Qed.

(** An energy that is finite in GWh and not in kWh: the conversion is
    let through, and the product of Infinity and 0 is NaN. *)
Example toCO2eKg_overflow :
  toCO2eKg (E := Ecma262.engine) 1e308 "GWh" 0 = Ok nan.
Proof. reflexivity. Qed.

(** A payload with strings to trim, an array inside an array and a
    number with more than 6 decimals, beside what [createDigest] makes of
    it before it is written: the inner array has become an object, the
    string inside the array is not trimmed. *)
Example createDigest_normal_form :
  createDigest (E := Ecma262.engine)
    [("b", VString " x ");
     ("a", VArray [VArray [VNumber 1; VNumber 2];
                   VObject [("z", VNumber 1); ("y", VString " s ")];
                   VString " t "]);
     ("n", VNumber 1.23456789)]
  = stableStringify (E := Ecma262.engine)
      (VObject
         [("a", VArray [VObject [("0", VNumber 1); ("1", VNumber 2)];
                        VObject [("y", VString "s"); ("z", VNumber 1)];
                        VString " t "]);
          ("b", VString "x");
          ("n", VNumber 1.234568)]) 6.
Proof. vm_compute. reflexivity. Qed.
